(** * CloudSupply: the cart / order / stock consistency core

    A shallow embedding of [core/db/crud.py] and of the tables declared in
    [bot/core/db/models.py], with the properties of the storefront's
    specification stated and proved over it.

    Conventions of the embedding.
    - A table is the list of its rows in ascending primary-key order, which
      is how the SQLite rowid table behind [database.py] stores them; a
      query returns the rows it selects in that order, which is also what
      [order_by(id)] asks for.  [models] and [products] are looked up by
      primary key only and are finite maps from the key to the row.
    - Columns that no operation of the core reads are left out: names,
      descriptions, image paths, the model a product belongs to, and the
      timestamps other than [created_at] of an order.
    - Integer columns are [Z]. The [Float] money columns ([price],
      [total_price], [delivery_fee], [price_at_order]) are exact numbers in
      [Z] (an amount in the smallest currency unit): rounding of binary
      floating point is outside the model.
    - Every operation commits before it returns, so an operation is a
      function from a database state to a database state (and a result). *)

From Stdlib Require Import ZArith Lia Ascii.
From stdpp Require Import strings pretty numbers gmap sorting list.

Open Scope Z_scope.

(** ** Tables ([bot/core/db/models.py]) *)

Module Model.
Record t := mk {
  cost_price : Z;
  is_available : bool }.

(** The column values the keyword arguments of [update_model] may carry. *)
Record kwargs := mk_kwargs {
  kw_cost_price : option Z;
  kw_is_available : option bool }.

Definition values (kw : kwargs) (m : t) : t :=
  mk (default (cost_price m) (kw_cost_price kw))
     (default (is_available m) (kw_is_available kw)).
End Model.

Module Product.
Record t := mk {
  price : Z;
  stock_quantity : Z;
  is_available : bool }.

(** The column values the keyword arguments of [update_product] may carry. *)
Record kwargs := mk_kwargs {
  kw_price : option Z;
  kw_stock_quantity : option Z;
  kw_is_available : option bool }.

Definition values (kw : kwargs) (p : t) : t :=
  mk (default (price p) (kw_price kw))
     (default (stock_quantity p) (kw_stock_quantity kw))
     (default (is_available p) (kw_is_available kw)).
End Product.

Module Cart.
Record t := mk {
  id : Z;
  user_id : Z;
  product_id : Z;
  quantity : Z }.

Definition set_quantity (q : Z) (c : t) : t :=
  mk (id c) (user_id c) (product_id c) q.
End Cart.

Module Order.
Record t := mk {
  id : Z;
  user_id : Z;
  total_price : Z;
  status : string;
  delivery_method : string;
  delivery_fee : Z;
  contact_info : option string;
  created_at : Z }.

Definition set_total_price (x : Z) (o : t) : t :=
  mk (id o) (user_id o) x (status o) (delivery_method o) (delivery_fee o)
     (contact_info o) (created_at o).

Definition set_status (s : string) (o : t) : t :=
  mk (id o) (user_id o) (total_price o) s (delivery_method o)
     (delivery_fee o) (contact_info o) (created_at o).
End Order.

Module OrderItem.
Record t := mk {
  id : Z;
  order_id : Z;
  product_id : Z;
  quantity : Z;
  price_at_order : Z }.

Definition set_quantity (q : Z) (i : t) : t :=
  mk (id i) (order_id i) (product_id i) q (price_at_order i).
End OrderItem.

Record DB := mkDB {
  models : gmap Z Model.t;
  products : gmap Z Product.t;
  cart : list Cart.t;
  orders : list Order.t;
  order_items : list OrderItem.t }.

Definition with_models (ms : gmap Z Model.t) (db : DB) : DB :=
  mkDB ms (products db) (cart db) (orders db) (order_items db).
Definition with_products (ps : gmap Z Product.t) (db : DB) : DB :=
  mkDB (models db) ps (cart db) (orders db) (order_items db).
Definition with_cart (c : list Cart.t) (db : DB) : DB :=
  mkDB (models db) (products db) c (orders db) (order_items db).
Definition with_orders (os : list Order.t) (db : DB) : DB :=
  mkDB (models db) (products db) (cart db) os (order_items db).
Definition with_order_items (its : list OrderItem.t) (db : DB) : DB :=
  mkDB (models db) (products db) (cart db) (orders db) its.

Definition empty_db : DB := mkDB ∅ ∅ [] [] [].

(** An [INTEGER PRIMARY KEY] column without the [AUTOINCREMENT] keyword:
    a new row gets one more than the largest key in the table. *)
Definition next_id (ids : list Z) : Z := 1 + foldr Z.max 0 ids.

(** ** Models *)

Definition create_model (db : DB) (cost_price : Z) : DB * Z :=
  let mid := next_id (fst <$> map_to_list (models db)) in
  (with_models (<[mid := Model.mk cost_price true]> (models db)) db, mid).

Definition update_model (db : DB) (model_id : Z) (kw : Model.kwargs) : DB :=
  with_models (alter (Model.values kw) model_id (models db)) db.

(** [delete(Model).where(Model.id == model_id)]: the row of [models] only;
    as for every DELETE statement, no relationship cascade runs. *)
Definition delete_model (db : DB) (model_id : Z) : DB :=
  with_models (delete model_id (models db)) db.

(** ** Products *)

Definition create_product (db : DB) (price stock_quantity : Z) : DB * Z :=
  let pid := next_id (fst <$> map_to_list (products db)) in
  (with_products
     (<[pid := Product.mk price stock_quantity true]> (products db)) db,
   pid).

Definition get_product_by_id (db : DB) (product_id : Z) : option Product.t :=
  products db !! product_id.

Definition update_product (db : DB) (product_id : Z)
    (kw : Product.kwargs) : DB :=
  with_products (alter (Product.values kw) product_id (products db)) db.

Definition update_stock (db : DB) (product_id quantity_change : Z) : DB :=
  match get_product_by_id db product_id with
  | Some product =>
      let new_quantity := Product.stock_quantity product + quantity_change in
      update_product db product_id
        (Product.mk_kwargs None (Some (Z.max 0 new_quantity)) None)
  | None => db
  end.

Definition delete_product (db : DB) (product_id : Z) : DB :=
  with_products (delete product_id (products db)) db.

(** ** Merging duplicate rows

    [merge_duplicate_cart_items] and [merge_duplicate_order_items] run the
    same loop over different tables and grouping keys; the loop is written
    once, over a table of rows with a primary key and a quantity. *)

Section merge_duplicates.
Context {Row K : Type} `{EqDecision K}.
Variable row_id : Row → Z.
Variable row_quantity : Row → Z.
Variable set_row_quantity : Z → Row → Row.
Variable key : Row → K.

(** [product_groups[key].append(item)], or a new entry [[item]]; a Python
    dict iterates in the order its keys were first inserted. *)
Fixpoint group_insert (item : Row) (product_groups : list (K * list Row))
    : list (K * list Row) :=
  match product_groups with
  | [] => [(key item, [item])]
  | (k, items) :: rest =>
      if decide (key item = k) then (k, items ++ [item]) :: rest
      else (k, items) :: group_insert item rest
  end.

Definition group_items (items : list Row) : list (K * list Row) :=
  foldl (λ product_groups item, group_insert item product_groups) [] items.

(** What [product_groups] is for the list [items] it was built from: one
    entry per key that occurs, holding the items of that key in order. *)
Definition is_grouping (product_groups : list (K * list Row))
    (items : list Row) : Prop :=
  NoDup product_groups.*1
  ∧ (∀ k its, (k, its) ∈ product_groups →
       its = filter (λ r, key r = k) items ∧ its ≠ [])
  ∧ (∀ r, r ∈ items → key r ∈ product_groups.*1).

(** [sum(item.quantity for item in items)] *)
Definition sum_quantity (items : list Row) : Z :=
  foldr (λ item acc, row_quantity item + acc) 0 items.

(** Writing the [quantity] attribute of a loaded row: an UPDATE of the row
    with that primary key. *)
Definition update_quantity (rid q : Z) (table : list Row) : list Row :=
  (λ r, if decide (row_id r = rid) then set_row_quantity q r else r)
    <$> table.

(** [session.delete(item)]: a DELETE of the row with that primary key. *)
Definition delete_row (rid : Z) (table : list Row) : list Row :=
  filter (λ r, row_id r ≠ rid) table.

Definition delete_rows (items : list Row) (table : list Row) : list Row :=
  foldl (λ t item, delete_row (row_id item) t) table items.

(** The body of the loop over [product_groups.items()]. *)
Definition merge_group (items : list Row) (table : list Row) : list Row :=
  if decide (1 < length items)%nat then
    match items with
    | first_item :: rest =>
        let total_quantity := sum_quantity items in
        delete_rows rest
          (update_quantity (row_id first_item) total_quantity table)
    | [] => table
    end
  else table.

Definition merge_groups (product_groups : list (K * list Row))
    (table : list Row) : list Row :=
  foldl (λ t g, merge_group g.2 t) table product_groups.

(** What the loop body does to a table when [items] are its rows with
    property [P]: the first such row gets quantity [q], the others go. *)
Fixpoint coalesce (P : Row → Prop) `{!∀ r, Decision (P r)} (q : Z)
    (table : list Row) : list Row :=
  match table with
  | [] => []
  | r :: rest =>
      if decide (P r) then set_row_quantity q r :: filter (λ r, ¬ P r) rest
      else r :: coalesce P q rest
  end.
End merge_duplicates.

(** ** Cart *)

(** [result.scalar_one_or_none()]: the row, [None] when there is none, and
    the exception [MultipleResultsFound] (here: no result) otherwise. *)
Definition scalar_one_or_none {A} (rows : list A) : option (option A) :=
  match rows with
  | [] => Some None
  | [r] => Some (Some r)
  | _ => None
  end.

Definition merge_duplicate_cart_items (db : DB) (user_id : Z) : DB :=
  let cart_items := filter (λ c, Cart.user_id c = user_id) (cart db) in
  if decide (length cart_items ≤ 1)%nat then db
  else
    let product_groups := group_items Cart.product_id cart_items in
    with_cart
      (merge_groups Cart.id Cart.quantity Cart.set_quantity product_groups
         (cart db)) db.

Definition add_to_cart (db : DB) (user_id product_id quantity : Z)
    : option (DB * Cart.t) :=
  let db := merge_duplicate_cart_items db user_id in
  found ← scalar_one_or_none
      (filter (λ c, Cart.user_id c = user_id ∧ Cart.product_id c = product_id)
         (cart db));
  match found with
  | Some cart_item =>
      let q := Cart.quantity cart_item + quantity in
      Some (with_cart
              (update_quantity Cart.id Cart.set_quantity (Cart.id cart_item) q
                 (cart db)) db,
            Cart.set_quantity q cart_item)
  | None =>
      let cart_item :=
        Cart.mk (next_id (Cart.id <$> cart db)) user_id product_id quantity in
      Some (with_cart (cart db ++ [cart_item]) db, cart_item)
  end.

Definition get_user_cart (db : DB) (user_id : Z) : DB * list Cart.t :=
  let db := merge_duplicate_cart_items db user_id in
  (db, filter (λ c, Cart.user_id c = user_id) (cart db)).

Definition update_cart_item_quantity (db : DB) (cart_id quantity : Z) : DB :=
  if decide (quantity ≤ 0) then
    with_cart (delete_row Cart.id cart_id (cart db)) db
  else
    with_cart
      (update_quantity Cart.id Cart.set_quantity cart_id quantity (cart db))
      db.

Definition remove_from_cart (db : DB) (cart_id : Z) : DB :=
  with_cart (delete_row Cart.id cart_id (cart db)) db.

Definition clear_user_cart (db : DB) (user_id : Z) : DB :=
  with_cart (filter (λ c, Cart.user_id c ≠ user_id) (cart db)) db.

(** ** Orders *)

Definition processing : string := "processing".
Definition completed : string := "completed".

(** [order_by(Order.created_at.desc())] followed by [.first()]: a row with
    the greatest [created_at]; among equal timestamps the one stored
    first. *)
Fixpoint most_recent (rows : list Order.t) : option Order.t :=
  match rows with
  | [] => None
  | o :: rest =>
      match most_recent rest with
      | Some o' =>
          if decide (Order.created_at o < Order.created_at o') then Some o'
          else Some o
      | None => Some o
      end
  end.

Definition processing_orders (db : DB) (user_id : Z) : list Order.t :=
  filter (λ o, Order.user_id o = user_id ∧ Order.status o = processing)
    (orders db).

(** [product.is_available and product.stock_quantity >= cart_item.quantity] *)
Definition in_stock (product : Product.t) (cart_item : Cart.t) : bool :=
  Product.is_available product
  && bool_decide (Cart.quantity cart_item ≤ Product.stock_quantity product).

(** The line of an accepted entry in the existing order (the query for
    [existing_items] and the branch on it): the first row of the order for
    the product at that price gets the quantity on top and the further rows
    found are deleted, or a new row is added. *)
Definition add_line (order_id product_id quantity price : Z)
    (table : list OrderItem.t) : list OrderItem.t :=
  let existing_items :=
    filter (λ i, OrderItem.order_id i = order_id
                 ∧ OrderItem.product_id i = product_id
                 ∧ OrderItem.price_at_order i = price) table in
  match existing_items with
  | first_item :: duplicates =>
      delete_rows OrderItem.id duplicates
        (update_quantity OrderItem.id OrderItem.set_quantity
           (OrderItem.id first_item) (OrderItem.quantity first_item + quantity)
           table)
  | [] =>
      table ++
      [OrderItem.mk (next_id (OrderItem.id <$> table)) order_id product_id
         quantity price]
  end.

(** The body of the loop of the branch [if existing_order]. *)
Definition amend_item (existing_order : Order.t) (st : DB * Z)
    (cart_item : Cart.t) : DB * Z :=
  let '(db, total_price_add) := st in
  let product_id := Cart.product_id cart_item in
  match get_product_by_id db product_id with
  | Some product =>
      if in_stock product cart_item then
        let item_price := Product.price product * Cart.quantity cart_item in
        let db :=
          with_order_items
            (add_line (Order.id existing_order) product_id
               (Cart.quantity cart_item) (Product.price product)
               (order_items db)) db in
        (update_stock db product_id (- Cart.quantity cart_item),
         total_price_add + item_price)
      else st
  | None => st
  end.

(** An entry of [order_items_list]. *)
Record item_data := mk_item_data {
  d_product_id : Z;
  d_quantity : Z;
  d_price_at_order : Z }.

(** The body of the first loop of the branch [else]. *)
Definition collect_item (st : DB * Z * list item_data) (cart_item : Cart.t)
    : DB * Z * list item_data :=
  let '(db, total_price, order_items_list) := st in
  let product_id := Cart.product_id cart_item in
  match get_product_by_id db product_id with
  | Some product =>
      if in_stock product cart_item then
        let item_price := Product.price product * Cart.quantity cart_item in
        (update_stock db product_id (- Cart.quantity cart_item),
         total_price + item_price,
         order_items_list ++
           [mk_item_data product_id (Cart.quantity cart_item)
              (Product.price product)])
      else st
  | None => st
  end.

(** [session.add(OrderItem(order_id=order.id, **item_data))] for each entry,
    flushed in that order. *)
Definition add_order_items (order_id : Z) (order_items_list : list item_data)
    (table : list OrderItem.t) : list OrderItem.t :=
  foldl (λ t d, t ++ [OrderItem.mk (next_id (OrderItem.id <$> t)) order_id
                        (d_product_id d) (d_quantity d) (d_price_at_order d)])
    table order_items_list.

(** [now] is the reading of [datetime.utcnow] that becomes [created_at]. *)
Definition create_order (db : DB) (user_id : Z) (cart_items : list Cart.t)
    (contact_info : option string) (delivery_method : string)
    (delivery_fee : Z) (now : Z) : DB * Order.t :=
  match most_recent (processing_orders db user_id) with
  | Some existing_order =>
      let '(db, total_price_add) :=
        foldl (amend_item existing_order) (db, 0) cart_items in
      let total_price := Order.total_price existing_order + total_price_add in
      let db :=
        with_orders
          ((λ o, if decide (Order.id o = Order.id existing_order)
                 then Order.set_total_price total_price o else o)
             <$> orders db) db in
      (clear_user_cart db user_id,
       Order.set_total_price total_price existing_order)
  | None =>
      let '(db, total_price, order_items_list) :=
        foldl collect_item (db, 0, []) cart_items in
      let total_price := total_price + delivery_fee in
      let order :=
        Order.mk (next_id (Order.id <$> orders db)) user_id total_price
          processing delivery_method delivery_fee contact_info now in
      let db := with_orders (orders db ++ [order]) db in
      let db :=
        with_order_items
          (add_order_items (Order.id order) order_items_list (order_items db))
          db in
      (clear_user_cart db user_id, order)
  end.

(** [Order.id] is the primary key: the query has at most one row. *)
Definition get_order_by_id (db : DB) (order_id : Z) : option Order.t :=
  head (filter (λ o, Order.id o = order_id) (orders db)).

Definition merge_duplicate_order_items (db : DB) (order_id : Z) : DB :=
  let items :=
    filter (λ i, OrderItem.order_id i = order_id) (order_items db) in
  let product_groups :=
    group_items (λ i, (OrderItem.product_id i, OrderItem.price_at_order i))
      items in
  with_order_items
    (merge_groups OrderItem.id OrderItem.quantity OrderItem.set_quantity
       product_groups (order_items db)) db.

Definition update_order_status (db : DB) (order_id : Z) (status : string)
    : DB :=
  with_orders
    ((λ o, if decide (Order.id o = order_id) then Order.set_status status o
           else o) <$> orders db) db.

(** The statement [delete(Order).where(Order.id == order_id)] removes rows of
    [orders] only.  The [cascade] of [Order.items] is an option of the ORM
    relationship: it acts when a loaded object is passed to
    [session.delete], not on a DELETE statement; the foreign key
    [order_items.order_id] is declared without [ondelete], and the SQLite
    engine of [database.py] does not turn foreign-key enforcement on.  So
    the rows of [order_items] stay. *)
Definition delete_order (db : DB) (order_id : Z) : DB * bool :=
  match get_order_by_id db order_id with
  | None => (db, false)
  | Some order =>
      let items :=
        filter (λ i, OrderItem.order_id i = order_id) (order_items db) in
      let db :=
        foldl (λ db item, update_stock db (OrderItem.product_id item)
                            (OrderItem.quantity item)) db items in
      (with_orders (filter (λ o, Order.id o ≠ order_id) (orders db)) db, true)
  end.

(** ** Requests

    The operations as the handlers of [core/handlers] call them, one
    session per request. *)

Inductive request :=
  | AddToCart (user_id product_id quantity : Z)
  | GetUserCart (user_id : Z)
  | UpdateCartItemQuantity (cart_id quantity : Z)
  | RemoveFromCart (cart_id : Z)
  | ClearUserCart (user_id : Z)
  | CreateOrder (user_id : Z) (contact_info : option string)
      (delivery_method : string) (delivery_fee : Z) (now : Z)
  | UpdateOrderStatus (order_id : Z) (status : string)
  | DeleteOrder (order_id : Z)
  | MergeDuplicateOrderItems (order_id : Z)
  | CreateModel (cost_price : Z)
  | UpdateModel (model_id : Z) (kw : Model.kwargs)
  | DeleteModel (model_id : Z)
  | CreateProduct (price stock_quantity : Z)
  | UpdateProduct (product_id : Z) (kw : Product.kwargs)
  | UpdateStock (product_id quantity_change : Z)
  | DeleteProduct (product_id : Z).

(** [CreateOrder] is [confirm_order] of [core/handlers/user.py]: the cart is
    read with [get_user_cart], and nothing is ordered from an empty cart.
    When [add_to_cart] raises, what its repair step committed stays. *)
Definition handle (db : DB) (r : request) : DB :=
  match r with
  | AddToCart u p q =>
      match add_to_cart db u p q with
      | Some (db', _) => db'
      | None => merge_duplicate_cart_items db u
      end
  | GetUserCart u => (get_user_cart db u).1
  | UpdateCartItemQuantity c q => update_cart_item_quantity db c q
  | RemoveFromCart c => remove_from_cart db c
  | ClearUserCart u => clear_user_cart db u
  | CreateOrder u contact method fee now =>
      let '(db', cart_items) := get_user_cart db u in
      match cart_items with
      | [] => db'
      | _ => (create_order db' u cart_items contact method fee now).1
      end
  | UpdateOrderStatus o s => update_order_status db o s
  | DeleteOrder o => (delete_order db o).1
  | MergeDuplicateOrderItems o => merge_duplicate_order_items db o
  | CreateModel cost => (create_model db cost).1
  | UpdateModel m kw => update_model db m kw
  | DeleteModel m => delete_model db m
  | CreateProduct price stock => (create_product db price stock).1
  | UpdateProduct p kw => update_product db p kw
  | UpdateStock p d => update_stock db p d
  | DeleteProduct p => delete_product db p
  end.

Definition run (db : DB) (rs : list request) : DB := foldl handle db rs.

(** The requests that change the catalog. *)
Definition catalog_request (r : request) : bool :=
  match r with
  | CreateModel _ | UpdateModel _ _ | DeleteModel _
  | CreateProduct _ _ | UpdateProduct _ _ | UpdateStock _ _
  | DeleteProduct _ => true
  | _ => false
  end.

(** ** Vocabulary of the specification *)

(** The rows of the cart of a user for one product. *)
Definition cart_rows (db : DB) (user_id product_id : Z) : list Cart.t :=
  filter (λ c, Cart.user_id c = user_id ∧ Cart.product_id c = product_id)
    (cart db).

(** The line items of an order for one (product, price_at_order). *)
Definition line_items (db : DB) (order_id product_id price : Z)
    : list OrderItem.t :=
  filter (λ i, OrderItem.order_id i = order_id
               ∧ (OrderItem.product_id i, OrderItem.price_at_order i)
                 = (product_id, price))
    (order_items db).

(** Primary keys as a table holds them: in ascending order, hence unique. *)
Definition keyed (ids : list Z) : Prop := StronglySorted Z.lt ids.

Definition well_keyed (db : DB) : Prop :=
  keyed (Cart.id <$> cart db)
  ∧ keyed (Order.id <$> orders db)
  ∧ keyed (OrderItem.id <$> order_items db).

(** I1: the cart of a user has at most one row per product. *)
Definition cart_unique (db : DB) : Prop :=
  ∀ user_id product_id, (length (cart_rows db user_id product_id) ≤ 1)%nat.

(** I3: a user has at most one order in status [processing]. *)
Definition single_active_order (db : DB) : Prop :=
  ∀ user_id, (length (processing_orders db user_id) ≤ 1)%nat.

(** Units of a product taken by a list of cart entries. *)
Definition reserved (taken : list Cart.t) (product_id : Z) : Z :=
  sum_quantity Cart.quantity
    (filter (λ c, Cart.product_id c = product_id) taken).

(** The cart entries a checkout accepts, in the order it examines them: the
    product exists, is available, and what is left of its stock after the
    entries accepted before covers the quantity. *)
Fixpoint accepted_from (ps : gmap Z Product.t) (taken : list Cart.t)
    (cart_items : list Cart.t) : list Cart.t :=
  match cart_items with
  | [] => []
  | c :: rest =>
      match ps !! Cart.product_id c with
      | Some p =>
          if Product.is_available p
             && bool_decide (Cart.quantity c
                             ≤ Product.stock_quantity p
                               - reserved taken (Cart.product_id c))
          then c :: accepted_from ps (taken ++ [c]) rest
          else accepted_from ps taken rest
      | None => accepted_from ps taken rest
      end
  end.

Definition accepted (ps : gmap Z Product.t) (cart_items : list Cart.t)
    : list Cart.t :=
  accepted_from ps [] cart_items.

(** A product row once the units of [taken] have left its stock. *)
Definition take_stock (taken : list Cart.t) (product_id : Z)
    (p : Product.t) : Product.t :=
  Product.mk (Product.price p)
    (Product.stock_quantity p - reserved taken product_id)
    (Product.is_available p).

(** The check of one entry against the catalog as it stands. *)
Definition accepts (ps : gmap Z Product.t) (c : Cart.t) : bool :=
  from_option (λ p, in_stock p c) false (ps !! Cart.product_id c).

Definition unit_price (ps : gmap Z Product.t) (product_id : Z) : Z :=
  from_option Product.price 0 (ps !! product_id).

(** price × quantity, summed over a list of cart entries. *)
Definition items_total (ps : gmap Z Product.t) (cs : list Cart.t) : Z :=
  foldr (λ c acc, unit_price ps (Cart.product_id c) * Cart.quantity c + acc)
    0 cs.

(** The line-item key a cart entry is booked under: its product at the
    catalog price. *)
Definition entry_key (ps : gmap Z Product.t) (c : Cart.t) : Z * Z :=
  (Cart.product_id c, unit_price ps (Cart.product_id c)).

(** The quantity held by the first row of a query result, 0 for none. *)
Definition first_quantity (rows : list OrderItem.t) : Z :=
  match rows with
  | [] => 0
  | first_item :: _ => OrderItem.quantity first_item
  end.

(** The columns of an order other than [total_price]. *)
Definition order_frame (o : Order.t)
    : Z * Z * string * string * Z * option string * Z :=
  (Order.id o, Order.user_id o, Order.status o, Order.delivery_method o,
   Order.delivery_fee o, Order.contact_info o, Order.created_at o).

(** The sum of a list of quantities. *)
Definition total (quantities : list Z) : Z := foldr Z.add 0 quantities.

(** [add_to_cart] called once per quantity, for one user and product. *)
Definition add_all_to_cart (db : DB) (user_id product_id : Z)
    (quantities : list Z) : option DB :=
  foldl (λ st q, db ← st; fst <$> add_to_cart db user_id product_id q)
    (Some db) quantities.

(** ** Example states *)

(** Scenario A: product 1 is X (price 10, stock 5), product 2 is Y (price 8);
    user 1 holds 3 of X and 1 of Y. *)
Definition scenario_A : DB :=
  mkDB ∅ (<[1 := Product.mk 10 5 true]> (<[2 := Product.mk 8 4 true]> ∅))
    [Cart.mk 1 1 1 3; Cart.mk 2 1 2 1] [] [].

(** Scenario D: order 7 with two line items, X quantity 5 and Y quantity 1. *)
Definition scenario_D : DB :=
  mkDB ∅ (<[1 := Product.mk 10 0 true]> (<[2 := Product.mk 8 3 true]> ∅))
    []
    [Order.mk 7 1 58 processing "pickup" 0 None 100]
    [OrderItem.mk 1 7 1 5 10; OrderItem.mk 2 7 2 1 8].

(** Scenario B: user 1 has the active order 7 of total 38 and 2 more of X in
    the cart; X has 2 left in stock. *)
Definition scenario_B : DB :=
  mkDB ∅ (<[1 := Product.mk 10 2 true]> (<[2 := Product.mk 8 3 true]> ∅))
    [Cart.mk 3 1 1 2]
    [Order.mk 7 1 38 processing "pickup" 0 None 100]
    [OrderItem.mk 1 7 1 3 10; OrderItem.mk 2 7 2 1 8].

(** Scenario E: product 3 is Z, out of stock, and the cart of user 1 holds
    one X and one Z. *)
Definition scenario_E : DB :=
  mkDB ∅ (<[1 := Product.mk 10 5 true]> (<[3 := Product.mk 5 0 true]> ∅))
    [Cart.mk 1 1 1 1; Cart.mk 2 1 3 1] [] [].

(** A cart that holds the same product in two rows. *)
Definition duplicated_cart : DB :=
  mkDB ∅ ∅ [Cart.mk 1 1 7 2; Cart.mk 2 1 7 3] [] [].

(** A second checkout after the first order was completed, and the first
    order then set back to [processing] from the admin's status keyboard. *)
Definition reopen_trace : list request :=
  [ CreateProduct 10 5;
    AddToCart 1 1 1;
    CreateOrder 1 None "pickup" 0 100;
    UpdateOrderStatus 1 completed;
    AddToCart 1 1 1;
    CreateOrder 1 None "pickup" 0 200;
    UpdateOrderStatus 1 processing ].

(** ** Users *)

Module User.
Record t := mk {
  id : Z;
  telegram_id : Z;
  username : option string;
  first_name : option string;
  last_name : option string;
  is_banned : bool }.

Definition set_is_banned (b : bool) (u : t) : t :=
  mk (id u) (telegram_id u) (username u) (first_name u) (last_name u) b.
End User.

Definition get_user_by_telegram_id (users : list User.t) (telegram_id : Z)
    : option (option User.t) :=
  scalar_one_or_none (filter (λ u, User.telegram_id u = telegram_id) users).

Definition get_or_create_user (users : list User.t) (telegram_id : Z)
    (username first_name last_name : option string)
    : option (list User.t * User.t) :=
  found ← scalar_one_or_none
      (filter (λ u, User.telegram_id u = telegram_id) users);
  match found with
  | Some user => Some (users, user)
  | None =>
      let user :=
        User.mk (next_id (User.id <$> users)) telegram_id username first_name
          last_name false in
      Some (users ++ [user], user)
  end.

(** [update(User).where(User.id == user_id).values(is_banned=ban)] *)
Definition ban_user (users : list User.t) (user_id : Z) (ban : bool)
    : list User.t :=
  (λ u, if decide (User.id u = user_id) then User.set_is_banned ban u else u)
    <$> users.

(** ** Bot settings *)

Module BotSettings.
Record t := mk {
  id : Z;
  setting_key : string;
  setting_value : string }.

Definition set_setting_value (v : string) (s : t) : t :=
  mk (id s) (setting_key s) v.
End BotSettings.

Definition get_setting (settings : list BotSettings.t) (key : string)
    : option (option string) :=
  setting ← scalar_one_or_none
      (filter (λ s, BotSettings.setting_key s = key) settings);
  match setting with
  | Some setting => Some (Some (BotSettings.setting_value setting))
  | None => Some None
  end.

Definition update_setting (settings : list BotSettings.t)
    (key value : string) : option (list BotSettings.t) :=
  setting ← scalar_one_or_none
      (filter (λ s, BotSettings.setting_key s = key) settings);
  match setting with
  | Some _ =>
      Some ((λ s, if decide (BotSettings.setting_key s = key)
                  then BotSettings.set_setting_value value s else s)
              <$> settings)
  | None =>
      Some (settings ++
            [BotSettings.mk (next_id (BotSettings.id <$> settings)) key
               value])
  end.

(** [str.lower] on the letters of ASCII.  A string is its UTF-8 bytes; the
    bytes of a character outside ASCII stay as they are, and no such
    character has a lower-case form made of the letters of ['true'], so
    the comparison of [get_maintenance_mode] is the one of the code. *)
Definition lower_ascii (c : Ascii.ascii) : Ascii.ascii :=
  let n := Ascii.nat_of_ascii c in
  if ((65 <=? n) && (n <=? 90))%nat then Ascii.ascii_of_nat (n + 32) else c.

Fixpoint lower (s : string) : string :=
  match s with
  | EmptyString => EmptyString
  | String c rest => String (lower_ascii c) (lower rest)
  end.

Definition maintenance_mode : string := "maintenance_mode".

(** ['true' if enabled else 'false'] *)
Definition flag (enabled : bool) : string :=
  if enabled then "true" else "false".

Definition get_maintenance_mode (settings : list BotSettings.t)
    : option (list BotSettings.t * bool) :=
  setting ← scalar_one_or_none
      (filter (λ s, BotSettings.setting_key s = maintenance_mode) settings);
  match setting with
  | None =>
      Some (settings ++
            [BotSettings.mk (next_id (BotSettings.id <$> settings))
               maintenance_mode "false"],
            false)
  | Some setting =>
      Some (settings,
            bool_decide (lower (BotSettings.setting_value setting) = "true"))
  end.

(** The row found is changed through its attribute: an UPDATE of the row
    with its primary key. *)
Definition set_maintenance_mode (settings : list BotSettings.t)
    (enabled : bool) : option (list BotSettings.t) :=
  setting ← scalar_one_or_none
      (filter (λ s, BotSettings.setting_key s = maintenance_mode) settings);
  match setting with
  | Some setting =>
      Some ((λ s, if decide (BotSettings.id s = BotSettings.id setting)
                  then BotSettings.set_setting_value (flag enabled) s else s)
              <$> settings)
  | None =>
      Some (settings ++
            [BotSettings.mk (next_id (BotSettings.id <$> settings))
               maintenance_mode (flag enabled)])
  end.

(** ** The guards of the user handlers ([core/handlers/user.py])

    The tables a guard reads, next to the tables of the shop. *)
Record Database := mkDatabase {
  shop : DB;
  users : list User.t;
  bot_settings : list BotSettings.t }.

(** What a guarded handler comes to: the reply of [check_banned], the reply
    of [check_maintenance], or the result of the handler. *)
Inductive outcome (A : Type) :=
  | Banned
  | Maintenance
  | Ran (a : A).
Arguments Banned {A}.
Arguments Maintenance {A}.
Arguments Ran {A} a.

(** A handler: a function of the database that may raise. *)
Definition handler (A : Type) : Type := Database → option (Database * A).

Definition ran {A} (func : handler A) : handler (outcome A) :=
  λ d, '(d, a) ← func d; Some (d, Ran a).

(** [username in [admin_username, support_username]], the two names read
    from the environment; a user without a username has [None]. *)
Definition is_admin (admin_username support_username : string)
    (username : option string) : bool :=
  bool_decide (username ∈ [Some admin_username; Some support_username]).

Definition check_banned {A} (func : handler (outcome A)) (telegram_id : Z)
    : handler (outcome A) :=
  λ d,
    user ← get_user_by_telegram_id (users d) telegram_id;
    match user with
    | Some user => if User.is_banned user then Some (d, Banned) else func d
    | None => func d
    end.

Definition check_maintenance {A} (admin_username support_username : string)
    (func : handler (outcome A)) (username : option string)
    : handler (outcome A) :=
  λ d,
    if is_admin admin_username support_username username then func d
    else
      '(settings, maintenance_enabled) ←
        get_maintenance_mode (bot_settings d);
      let d := mkDatabase (shop d) (users d) settings in
      if maintenance_enabled : bool then Some (d, Maintenance) else func d.

(** A handler under [@check_maintenance] and [@check_banned], in this
    order, for an update of the user [telegram_id] named [username]. *)
Definition guarded {A} (admin_username support_username : string)
    (func : handler A) (telegram_id : Z) (username : option string)
    : handler (outcome A) :=
  check_maintenance admin_username support_username
    (check_banned (ran func) telegram_id) username.

(** The unique columns of the two tables, and their primary keys. *)
Definition users_ok (users : list User.t) : Prop :=
  NoDup (User.telegram_id <$> users) ∧ keyed (User.id <$> users).

Definition settings_ok (settings : list BotSettings.t) : Prop :=
  NoDup (BotSettings.setting_key <$> settings)
  ∧ keyed (BotSettings.id <$> settings).

(** ** Statistics *)

Definition get_model_by_id (db : DB) (model_id : Z) : option Model.t :=
  models db !! model_id.





Section product_model.
(** The column [model_id] of the table of products, by product key. *)
Variable model_id : Z → Z.




End product_model.

(** [sum(item.quantity * item.price_at_order for item in items)] *)
Definition lines_total (items : list OrderItem.t) : Z :=
  foldr (λ item acc,
           OrderItem.quantity item * OrderItem.price_at_order item + acc)
    0 items.

(** The line items of an order. *)
Definition items_of (db : DB) (order_id : Z) : list OrderItem.t :=
  filter (λ i, OrderItem.order_id i = order_id) (order_items db).

(** ** Repairing the orders ([cmd_fix_orders] of [core/handlers/admin.py]) *)

(** [order_by(Order.created_at.desc())]: the rows by falling [created_at];
    rows of equal time stay in the order of the table. *)
Fixpoint insert_by_created_at (o : Order.t) (sorted : list Order.t)
    : list Order.t :=
  match sorted with
  | [] => [o]
  | o' :: rest =>
      if decide (Order.created_at o < Order.created_at o')
      then o' :: insert_by_created_at o rest
      else o :: sorted
  end.

Definition order_by_created_at_desc (rows : list Order.t) : list Order.t :=
  foldr insert_by_created_at [] rows.

Definition get_user_orders (db : DB) (user_id : Z) : list Order.t :=
  order_by_created_at_desc (filter (λ o, Order.user_id o = user_id) (orders db)).

Definition get_all_orders (db : DB) : list Order.t :=
  order_by_created_at_desc (orders db).

(** The body of the loop over [product_groups.items()]; the state is the
    table of line items and [fixed_count]. *)
Definition fix_group (st : list OrderItem.t * nat)
    (g : Z * Z * list OrderItem.t) : list OrderItem.t * nat :=
  let '(table, fixed_count) := st in
  let group_items := g.2 in
  if decide (1 < length group_items)%nat then
    match group_items with
    | first_item :: rest =>
        let total_quantity := sum_quantity OrderItem.quantity group_items in
        (delete_rows OrderItem.id rest
           (update_quantity OrderItem.id OrderItem.set_quantity
              (OrderItem.id first_item) total_quantity table),
         S fixed_count)
    | [] => st
    end
  else st.

(** The body of the loop over [all_orders].  [order] is the object loaded
    before the loop; its total is written to the row of its key. *)
Definition fix_order (st : DB * nat) (order : Order.t) : DB * nat :=
  let '(db, fixed_count) := st in
  let items :=
    filter (λ i, OrderItem.order_id i = Order.id order) (order_items db) in
  let product_groups :=
    group_items (λ i, (OrderItem.product_id i, OrderItem.price_at_order i))
      items in
  let '(table, fixed_count) :=
    foldl fix_group (order_items db, fixed_count) product_groups in
  let db := with_order_items table db in
  let updated_items :=
    filter (λ i, OrderItem.order_id i = Order.id order) (order_items db) in
  let new_total := lines_total updated_items + Order.delivery_fee order in
  (with_orders
     ((λ o, if decide (Order.id o = Order.id order)
            then Order.set_total_price new_total o else o) <$> orders db) db,
   fixed_count).

(** The repaired database and the [fixed_count] of the reply. *)
Definition cmd_fix_orders (db : DB) : DB * nat :=
  foldl fix_order (db, 0%nat) (get_all_orders db).

(** quantity × weight, summed over rows. *)
Definition weighted {Row} (row_quantity weight : Row → Z) (rows : list Row)
    : Z :=
  foldr (λ r acc, row_quantity r * weight r + acc) 0 rows.

(** The total of an order is the one of its line items and its fee. *)
Definition total_consistent (db : DB) (o : Order.t) : Prop :=
  Order.total_price o
  = lines_total (items_of db (Order.id o)) + Order.delivery_fee o.

(** Every order has the total of its lines and no line twice. *)
Definition repaired (db : DB) : Prop :=
  ∀ o, o ∈ orders db →
    total_consistent db o
    ∧ ∀ p price, (length (line_items db (Order.id o) p price) ≤ 1)%nat.

(** What the loop of [cmd_fix_orders] has reached on the database [db0]
    once the orders with the keys [seen] are through. *)
Definition fix_inv (db0 db : DB) (seen : list Z) : Prop :=
  keyed (OrderItem.id <$> order_items db)
  ∧ order_frame <$> orders db = order_frame <$> orders db0
  ∧ (models db, products db, cart db) = (models db0, products db0, cart db0)
  ∧ (∀ x p price,
       sum_quantity OrderItem.quantity (line_items db x p price)
       = sum_quantity OrderItem.quantity (line_items db0 x p price))
  ∧ (∀ x, lines_total (items_of db x) = lines_total (items_of db0 x))
  ∧ (∀ x, x ∉ seen → items_of db x = items_of db0 x)
  ∧ (∀ o, o ∈ orders db → Order.id o ∈ seen →
       total_consistent db o
       ∧ ∀ p price,
           (length (line_items db (Order.id o) p price) ≤ 1)%nat).

(** Order 7 with the line of product 1 at price 10 in two rows and a total
    that is off. *)
Definition scenario_split_line : DB :=
  mkDB ∅ (<[1 := Product.mk 10 0 true]> (<[2 := Product.mk 8 3 true]> ∅))
    []
    [Order.mk 7 1 99 processing "delivery" 5 None 100]
    [OrderItem.mk 1 7 1 2 10; OrderItem.mk 2 7 1 3 10;
     OrderItem.mk 3 7 2 1 8].


(** ** The quantity dialogue ([core/handlers/user.py])

    [context.user_data]: the keys the dialogue reads and writes; the key
    ['last_bot_message'] of the chat is left out. *)
Module UserData.
Record t := mk {
  state : option string;
  product_id : option Z;
  available_slots : option Z;
  product_stock : option Z;
  delivery_method : option string }.

(** [context.user_data.clear()] *)
Definition clear : t := mk None None None None None.
End UserData.

(** What running a handler on a database comes to: the database it leaves
    and its result, [None] when an exception ended it.  Every operation of
    [crud.py] commits, so what was done before the exception stays. *)
Definition action (A : Type) : Type := Database → Database * option A.

Definition pure {A} (a : A) : action A := λ d, (d, Some a).

Definition raise {A} : action A := λ d, (d, None).

Definition and_then {A B} (m : action A) (k : A → action B) : action B :=
  λ d,
    match m d with
    | (d, Some a) => k a d
    | (d, None) => (d, None)
    end.

Notation "'let*' x ':=' m 'in' k" := (and_then m (λ x, k))
  (at level 10, x name, m at level 100, k at level 200, only parsing).

(** A SELECT. *)
Definition query {A} (f : DB → A) : action A := λ d, (d, Some (f (shop d))).

(** An attribute of an object that may be [None]: [AttributeError]. *)
Definition attr {A} (x : option A) : action A :=
  match x with
  | Some a => pure a
  | None => raise
  end.

Definition with_shop (db : DB) (d : Database) : Database :=
  mkDatabase db (users d) (bot_settings d).

(** The operations of [crud.py] as actions. *)
Definition find_user (telegram_id : Z) : action (option User.t) :=
  λ d, (d, get_user_by_telegram_id (users d) telegram_id).

Definition user_cart (user_id : Z) : action (list Cart.t) :=
  λ d,
    let '(db, cart_items) := get_user_cart (shop d) user_id in
    (with_shop db d, Some cart_items).

Definition put_in_cart (user_id product_id quantity : Z) : action Cart.t :=
  λ d,
    match add_to_cart (shop d) user_id product_id quantity with
    | Some (db, cart_item) => (with_shop db d, Some cart_item)
    | None =>
        (with_shop (merge_duplicate_cart_items (shop d) user_id) d, None)
    end.

Definition place_order (user_id : Z) (cart_items : list Cart.t)
    (contact_info : option string) (delivery_method : string)
    (delivery_fee now : Z) : action Order.t :=
  λ d,
    let '(db, order) :=
      create_order (shop d) user_id cart_items contact_info delivery_method
        delivery_fee now in
    (with_shop db d, Some order).

Definition awaiting_product_quantity : string := "awaiting_product_quantity".
Definition awaiting_contact_info : string := "awaiting_contact_info".

(** [sum(item.quantity for item in cart_items)] over the cart of a user. *)
Definition cart_total (db : DB) (user_id : Z) : Z :=
  sum_quantity Cart.quantity
    (filter (λ c, Cart.user_id c = user_id) (cart db)).

(** The units in the active order of a user: the first order in status
    ['processing'] that the query without [order_by] returns. *)
Definition order_total (db : DB) (user_id : Z) : Z :=
  match head (processing_orders db user_id) with
  | Some active_order =>
      sum_quantity OrderItem.quantity (items_of db (Order.id active_order))
  | None => 0
  end.

Section handlers.
(** The column [model_id] of the table of products, by product key. *)
Variable model_id : Z → Z.
(** [ADMIN_USERNAME] and [SUPPORT_USERNAME] of the environment. *)
Variable admin_username support_username : string.
(** The amount [5.0] in the unit of the money columns. *)
Variable five : Z.
(** [admin.handle_admin_message], the dialogue of the administrator. *)
Variable handle_admin_message : UserData.t → action UserData.t.

(** The handler after [int(query.data.split("_")[1])] gave [product_id]. *)
Definition show_product_detail (telegram_id product_id : Z)
    (user_data : UserData.t) : action UserData.t :=
  let* product := query (λ db, get_product_by_id db product_id) in
  let* product := attr product in
  let* model := query (λ db, get_model_by_id db (model_id product_id)) in
  let* user := find_user telegram_id in
  let* user := attr user in
  let* cart_items := user_cart (User.id user) in
  let cart_total := sum_quantity Cart.quantity cart_items in
  let* active_order :=
    query (λ db, head (processing_orders db (User.id user))) in
  let* order_total :=
    match active_order with
    | Some active_order =>
        query (λ db, sum_quantity OrderItem.quantity
                       (items_of db (Order.id active_order)))
    | None => pure 0
    end in
  let total_items := cart_total + order_total in
  let available_slots := 10 - total_items in
  let* model := attr model in
  if decide (0 < available_slots) then
    pure (UserData.mk (Some awaiting_product_quantity) (Some product_id)
            (Some available_slots) (Some (Product.stock_quantity product))
            (UserData.delivery_method user_data))
  else pure user_data.

(** The branch of [handle_message] for the state
    ['awaiting_product_quantity'] once [int] has read [quantity]. *)
Definition add_quantity (telegram_id quantity : Z) (user_data : UserData.t)
    : action UserData.t :=
  let product_id := UserData.product_id user_data in
  let available_slots := default 10 (UserData.available_slots user_data) in
  let product_stock := default 999 (UserData.product_stock user_data) in
  if decide (quantity ≤ 0) then pure user_data
  else if decide (available_slots < quantity) then pure user_data
  else if decide (product_stock < quantity) then pure user_data
  else
    let* user := find_user telegram_id in
    let* product :=
      query (λ db, product_id ≫= get_product_by_id db) in
    let* product := attr product in
    let* product_id := attr product_id in
    let* model := query (λ db, get_model_by_id db (model_id product_id)) in
    let* user := attr user in
    let* cart_item := put_in_cart (User.id user) product_id quantity in
    let* model := attr model in
    pure UserData.clear.

(** The branch for the state ['awaiting_contact_info']. *)
Definition take_contact_info (telegram_id : Z) (contact_info : string)
    (now : Z) (user_data : UserData.t) : action UserData.t :=
  let delivery_method :=
    default "pickup" (UserData.delivery_method user_data) in
  let* user := find_user telegram_id in
  let* user := attr user in
  let* cart_items := user_cart (User.id user) in
  match cart_items with
  | [] => pure UserData.clear
  | _ =>
      let delivery_fee :=
        if decide (delivery_method = "delivery") then five else 0 in
      let* order :=
        place_order (User.id user) cart_items (Some contact_info)
          delivery_method delivery_fee now in
      pure UserData.clear
  end.

(** [handle_message] for a message whose text, stripped, is [text];
    [number] is what [int] makes of it, [None] for a [ValueError]; [now]
    is the time of the server. *)
Definition handle_message (telegram_id : Z) (username : option string)
    (text : string) (number : option Z) (now : Z) (user_data : UserData.t)
    : action UserData.t :=
  let state := UserData.state user_data in
  if bool_decide (state ≠ None ∧ state ≠ Some "")
     && is_admin admin_username support_username username
  then handle_admin_message user_data
  else if decide (state = Some awaiting_product_quantity) then
    match number with
    | Some quantity => add_quantity telegram_id quantity user_data
    | None => pure user_data
    end
  else if decide (state = Some awaiting_contact_info) then
    take_contact_info telegram_id text now user_data
  else pure user_data.
End handlers.

(** The user 1, registered under the telegram id 500, holds 3 units of
    product 1 (price 10, stock 5, of model 1) and has no order. *)
Definition scenario_dialogue : Database :=
  mkDatabase
    (mkDB (<[1 := Model.mk 4 true]> ∅) (<[1 := Product.mk 10 5 true]> ∅)
       [Cart.mk 1 1 1 3] [] [])
    [User.mk 1 500 None None None false] [].

(** ** Stock that is never negative

    The stock a request writes into the catalog is not negative: what the
    dialogue of the administrator checks before it creates a product or
    sets its stock ([handle_admin_message] of [core/handlers/admin.py]). *)
Definition writes_stock_ok (r : request) : Prop :=
  match r with
  | CreateProduct _ stock_quantity => 0 ≤ stock_quantity
  | UpdateProduct _ kw =>
      match Product.kw_stock_quantity kw with
      | Some stock_quantity => 0 ≤ stock_quantity
      | None => True
      end
  | _ => True
  end.

Definition stock_nonneg (db : DB) : Prop :=
  ∀ pid p, products db !! pid = Some p → 0 ≤ Product.stock_quantity p.

(** ** Showing the cart ([show_cart_internal] of [core/handlers/user.py]) *)

Section cart_display.
(** The column [model_id] of the table of products, by product key. *)
Variable model_id : Z → Z.

(** The body of the loop over [cart_items]; the state is the database,
    [items_dict], [valid_items_data] and [total].  [items_dict] and
    [valid_items_data] hold the same objects, so the quantity added to
    [prev_item] shows in both, and the commit of [remove_from_cart] writes
    it to the row of [prev_item]. *)
Definition show_cart_item (st : DB * gmap Z Cart.t * list Cart.t * Z)
    (item : Cart.t) : DB * gmap Z Cart.t * list Cart.t * Z :=
  let '(db, items_dict, valid_items_data, total) := st in
  match get_product_by_id db (Cart.product_id item) with
  | None =>
      (remove_from_cart db (Cart.id item), items_dict, valid_items_data,
       total)
  | Some product =>
      match get_model_by_id db (model_id (Cart.product_id item)) with
      | None =>
          (remove_from_cart db (Cart.id item), items_dict, valid_items_data,
           total)
      | Some model =>
          match items_dict !! Cart.product_id item with
          | Some prev_item =>
              let quantity :=
                Cart.quantity prev_item + Cart.quantity item in
              let db :=
                with_cart
                  (update_quantity Cart.id Cart.set_quantity
                     (Cart.id prev_item) quantity (cart db)) db in
              (remove_from_cart db (Cart.id item),
               <[Cart.product_id item := Cart.set_quantity quantity prev_item]>
                 items_dict,
               (λ c, if decide (Cart.id c = Cart.id prev_item)
                     then Cart.set_quantity quantity c else c)
                 <$> valid_items_data,
               total)
          | None =>
              let item_total := Product.price product * Cart.quantity item in
              (db, <[Cart.product_id item := item]> items_dict,
               valid_items_data ++ [item], total + item_total)
          end
      end
  end.

(** The rows the message shows, and the total it shows for them. *)
Definition show_cart_internal (user_id : Z) : action (list Cart.t * Z) :=
  let* user := find_user user_id in
  let* user := attr user in
  let* cart_items := user_cart (User.id user) in
  match cart_items with
  | [] => pure ([], 0)
  | _ =>
      λ d,
        let '(db, items_dict, valid_items_data, total) :=
          foldl show_cart_item (shop d, ∅, [], 0) cart_items in
        (with_shop db d, Some (valid_items_data, total))
  end.

(** The product of a cart row and the model of the product are in the
    catalog. *)
Definition in_catalog (db : DB) (c : Cart.t) : Prop :=
  is_Some (products db !! Cart.product_id c)
  ∧ is_Some (models db !! model_id (Cart.product_id c)).

Global Instance in_catalog_dec db c : Decision (in_catalog db c) :=
  and_dec _ _.
End cart_display.

(** User 1 (telegram 500) holds product 1, whose model 1 is gone, and
    product 2 of model 2; user 2 holds product 1 as well. *)
Definition scenario_dangling : Database :=
  mkDatabase
    (mkDB (<[2 := Model.mk 3 true]> ∅)
       (<[1 := Product.mk 10 5 true]> (<[2 := Product.mk 8 4 true]> ∅))
       [Cart.mk 1 1 1 3; Cart.mk 2 1 2 1; Cart.mk 3 2 1 1] [] [])
    [User.mk 1 500 None None None false] [].

(** ** Units of stock are conserved *)

(** The units of a product in the line items. *)
Definition sold (db : DB) (product_id : Z) : Z :=
  sum_quantity OrderItem.quantity
    (filter (λ i, OrderItem.product_id i = product_id) (order_items db)).

(** The units of a product in the catalog: in stock and in line items. *)
Definition units (db : DB) (product_id : Z) : option Z :=
  (λ p, Product.stock_quantity p + sold db product_id)
    <$> products db !! product_id.

(** No order has a product at one price in two line items. *)
Definition lines_unique (db : DB) : Prop :=
  ∀ order_id p price, (length (line_items db order_id p price) ≤ 1)%nat.

(** Every line item belongs to an order of the table. *)
Definition lines_refer (db : DB) : Prop :=
  ∀ i, i ∈ order_items db → OrderItem.order_id i ∈ Order.id <$> orders db.

Definition books_ok (db : DB) : Prop :=
  well_keyed db ∧ lines_unique db ∧ lines_refer db.

(** The requests that delete no order. *)
Definition keeps_orders (r : request) : bool :=
  match r with
  | DeleteOrder _ => false
  | _ => true
  end.

(** The requests of the shop: no order is deleted and the catalog is not
    changed. *)
Definition conserving (r : request) : bool :=
  keeps_orders r && negb (catalog_request r).

(** ** Callback data ([keyboards/inline.py], [core.py], the two routers)

    A button carries a string, its [callback_data].  Pressing it sends the
    string back; [core.py] hands it to the administrator's handler when it
    matches the pattern of that handler and to the customer's handler
    otherwise; the router compares it with the known names and prefixes;
    the function that is called takes the string apart again, and that is
    its first statement.

    A keyboard is modelled as the list of the [callback_data] of its
    buttons, row after row (every row has one button); labels are left
    out, and so is the one button that carries a [url]. *)

(** [str(n)] of an [int], as the [f"...{id}"] of a button formats it:
    decimal digits, with a minus sign before a negative number. *)
Definition str (n : Z) : string := pretty n.

(** [data.startswith(prefix)] *)
Definition startswith (data prefix : string) : bool :=
  String.prefix prefix data.

(** [data.split(sep)] for a separator of one character: the pieces between
    the separators, of which there is always at least one. *)
Fixpoint split (sep : Ascii.ascii) (data : string) : list string :=
  match data with
  | EmptyString => [EmptyString]
  | String c data =>
      if Ascii.eqb c sep then EmptyString :: split sep data
      else
        match split sep data with
        | piece :: pieces => String c piece :: pieces
        | [] => [String c EmptyString]
        end
  end.

(** [int(text)], with [None] for [ValueError], on a sign followed by ASCII
    digits.  Python accepts more: white space around the number and digits
    outside ASCII (and an underscore between two digits, which no piece of
    [split("_")] contains); for those this function gives [None], so only
    a result [Some n] is used below. *)
Definition digit (c : Ascii.ascii) : option Z :=
  let n := Z.of_nat (Ascii.nat_of_ascii c) in
  if bool_decide (48 ≤ n ≤ 57) then Some (n - 48) else None.

Fixpoint digits (text : string) (acc : Z) : option Z :=
  match text with
  | EmptyString => Some acc
  | String c text =>
      match digit c with
      | Some d => digits text (10 * acc + d)
      | None => None
      end
  end.

Definition int (text : string) : option Z :=
  match text with
  | EmptyString => None
  | String c rest =>
      if Ascii.eqb c "-"%char then
        match rest with
        | EmptyString => None
        | _ => Z.opp <$> digits rest 0
        end
      else if Ascii.eqb c "+"%char then
        match rest with
        | EmptyString => None
        | _ => digits rest 0
        end
      else digits text 0
  end.

(** *** The keyboards of [keyboards/inline.py] *)

Definition get_main_menu_kb (is_admin : bool) : list string :=
  ["catalog"; "cart"; "my_orders"; "support"].

Definition get_back_to_menu_kb : list string := ["catalog"; "main_menu"].

Definition get_after_add_to_cart_kb : list string := ["cart"; "main_menu"].

Definition get_models_kb (models : list (Z * Model.t)) : list string :=
  ((λ model, "model_" +:+ str model.1) <$> models) ++ ["main_menu"].

Definition get_products_kb (products : list (Z * Product.t)) (model_id : Z)
    : list string :=
  ((λ product, "product_" +:+ str product.1) <$> products)
  ++ ["catalog"; "main_menu"].

Definition get_product_quantity_kb (product_id : Z) : list string :=
  ["back_to_products"; "main_menu"].

(** [cart_items_data] is a list of triples of which the keyboard reads the
    cart row's [id]; the list is also tested for being empty. *)
Definition get_cart_kb (cart_items_data : list Cart.t) (has_items : bool)
    : list string :=
  (if has_items && bool_decide (cart_items_data ≠ []) then
     ((λ item, "removecart_" +:+ str (Cart.id item)) <$> cart_items_data)
     ++ ["checkout"; "clear_cart"]
   else [])
  ++ ["catalog"; "main_menu"].

Definition get_delivery_method_kb : list string :=
  ["delivery_pickup"; "delivery_delivery"; "cart"].

Definition get_confirm_order_kb (delivery_method : string) : list string :=
  ["confirm_order_" +:+ delivery_method; "checkout"; "cart"].

(** The orders come as pairs with their user (left) or alone (right); the
    callback data are the same. *)
Definition get_orders_kb
    (orders : list (Order.t * option User.t) + list Order.t) : list string :=
  match orders with
  | inl orders => (λ row, "order_" +:+ str (Order.id row.1)) <$> orders
  | inr orders => (λ order, "order_" +:+ str (Order.id order)) <$> orders
  end
  ++ ["main_menu"].

Definition get_order_detail_kb (order_id : Z) (is_admin is_processing : bool)
    : list string :=
  if is_admin then
    ["change_status_" +:+ str order_id; "admin_orders"; "admin_panel"]
  else
    (if is_processing then ["catalog"] else []) ++ ["my_orders"; "main_menu"].

Definition get_admin_panel_kb : list string :=
  ["admin_orders"; "admin_products"; "admin_users"; "admin_stats";
   "admin_backup"; "main_menu"].

Definition get_admin_products_kb : list string :=
  ["admin_add_model"; "admin_add_product"; "admin_view_models";
   "admin_panel"].

Definition get_order_status_kb (order_id : Z) : list string :=
  ["setstatus_" +:+ str order_id +:+ "_processing";
   "setstatus_" +:+ str order_id +:+ "_completed";
   "delete_order_" +:+ str order_id;
   "admin_orders"].

Definition get_admin_users_kb (users : list User.t) : list string :=
  ((λ user, "admin_user_" +:+ str (User.id user)) <$> take 10 users)
  ++ ["admin_panel"].

Definition get_admin_user_actions_kb (user_id : Z) (is_banned : bool)
    : list string :=
  [if is_banned then "admin_unban_" +:+ str user_id
   else "admin_ban_" +:+ str user_id;
   "admin_users"].

Definition get_support_kb (support_username : string) : list string :=
  ["main_menu"].

(** *** The keyboards that the handlers of [handlers/admin.py] build
    themselves, each named after its handler. *)

Definition start_add_product_keyboard (models : list (Z * Model.t))
    : list string :=
  ((λ model, "select_model_" +:+ str model.1) <$> models)
  ++ ["admin_products"].

Definition show_models_list_keyboard (models : list (Z * Model.t))
    : list string :=
  ((λ model, "view_model_" +:+ str model.1) <$> models) ++ ["admin_products"].

Definition show_model_detail_keyboard (model_id : Z) : list string :=
  ["view_flavors_" +:+ str model_id;
   "edit_model_description_" +:+ str model_id;
   "confirm_delete_model_" +:+ str model_id;
   "admin_view_models"].

Definition show_model_flavors_keyboard (products : list (Z * Product.t))
    (model_id : Z) : list string :=
  ((λ product, "view_flavor_detail_" +:+ str product.1) <$> products)
  ++ ["view_model_" +:+ str model_id].

(** [model_id] is the [id] of the model the product belongs to. *)
Definition show_flavor_detail_keyboard (product_id model_id : Z)
    : list string :=
  ["edit_flavor_price_" +:+ str product_id;
   "edit_flavor_stock_" +:+ str product_id;
   "confirm_delete_flavor_" +:+ str product_id;
   "view_flavors_" +:+ str model_id].

Definition confirm_delete_model_keyboard (model_id : Z) : list string :=
  ["admin_delete_model_" +:+ str model_id; "view_model_" +:+ str model_id].

Definition confirm_delete_flavor_keyboard (product_id : Z) : list string :=
  ["admin_delete_product_" +:+ str product_id;
   "view_flavor_detail_" +:+ str product_id].

(** [get_products_by_model] is the answer of that query for each model. *)
Definition show_products_for_delete_keyboard (models : list (Z * Model.t))
    (get_products_by_model : Z → list (Z * Product.t)) : list string :=
  ((λ model, "show_flavors_" +:+ str model.1)
     <$> filter (λ model, get_products_by_model model.1 ≠ []) models)
  ++ ["admin_products"].

Definition cmd_reset_db_keyboard : list string :=
  ["confirm_reset_db"; "admin_panel"].

(** *** The routers *)

(** What a router does with the data: no branch takes them, or the function
    of the branch raises while it takes them apart, or it goes on with what
    it read. *)
Inductive routed (A : Type) :=
  | NoBranch
  | Raises
  | Calls (call : A).
Arguments NoBranch {A}.
Arguments Raises {A}.
Arguments Calls {A} call.

(** [int(field)] and [field] for a piece [parts[k]] that may be missing. *)
Definition with_int {A} (field : option string) (call : Z → A) : routed A :=
  match field ≫= int with
  | Some n => Calls (call n)
  | None => Raises
  end.

Definition with_piece {A} (field : option string) (call : string → A)
    : routed A :=
  match field with
  | Some piece => Calls (call piece)
  | None => Raises
  end.

(** The functions [handle_callback] of [handlers/user.py] calls, with what
    each reads from the data in its first statement. *)
Module UserCall.
Inductive t :=
  | show_main_menu
  | show_catalog
  | show_model_products (model_id : Z)
  | show_product_detail (product_id : Z)
  | show_cart
  | remove_from_cart (cart_id : Z)
  | clear_cart
  | checkout
  | select_delivery_method (delivery_method : string)
  | confirm_order (delivery_method : string)
  | show_my_orders
  | show_order_detail (order_id : Z)
  | show_support.
End UserCall.

Definition handle_callback (data : string) : routed UserCall.t :=
  let parts := split "_"%char data in
  if (data =? "main_menu")%string then Calls UserCall.show_main_menu
  else if (data =? "catalog")%string then Calls UserCall.show_catalog
  else if startswith data "model_" then
    with_int (parts !! 1%nat) UserCall.show_model_products
  else if startswith data "product_" then
    with_int (parts !! 1%nat) UserCall.show_product_detail
  else if (data =? "back_to_products")%string then Calls UserCall.show_catalog
  else if (data =? "cart")%string then Calls UserCall.show_cart
  else if startswith data "removecart_" then
    with_int (parts !! 1%nat) UserCall.remove_from_cart
  else if (data =? "clear_cart")%string then Calls UserCall.clear_cart
  else if (data =? "checkout")%string then Calls UserCall.checkout
  else if startswith data "delivery_" then
    with_piece (parts !! 1%nat) UserCall.select_delivery_method
  else if startswith data "confirm_order_" then
    with_piece (parts !! 2%nat) UserCall.confirm_order
  else if (data =? "my_orders")%string then Calls UserCall.show_my_orders
  else if startswith data "order_" && negb (startswith data "order_status")
  then with_int (parts !! 1%nat) UserCall.show_order_detail
  else if (data =? "support")%string then Calls UserCall.show_support
  else NoBranch.

(** The functions [handle_admin_callback] of [handlers/admin.py] calls
    (before [show_admin_products] the branch also clears the state of the
    conversation). *)
Module AdminCall.
Inductive t :=
  | show_admin_panel
  | show_admin_orders
  | change_order_status_menu (order_id : Z)
  | set_order_status (order_id : Z) (new_status : string)
  | delete_order_confirm (order_id : Z)
  | show_admin_products
  | start_add_model
  | start_add_product
  | show_models_list
  | show_model_detail (model_id : Z)
  | show_model_flavors (model_id : Z)
  | show_flavor_detail (product_id : Z)
  | start_edit_flavor_price (product_id : Z)
  | start_edit_flavor_stock (product_id : Z)
  | start_edit_model_description (model_id : Z)
  | confirm_delete_model (model_id : Z)
  | confirm_delete_flavor (product_id : Z)
  | select_model_for_product (model_id : Z)
  | delete_model_confirm (model_id : Z)
  | delete_product_confirm (product_id : Z)
  | show_admin_users
  | show_admin_user_detail (user_id : Z)
  | admin_ban_user (user_id : Z)
  | admin_unban_user (user_id : Z)
  | show_admin_stats
  | confirm_reset_db
  | admin_backup_db.
End AdminCall.

(** [set_order_status] reads [int(parts[1])] and then [parts[2]]. *)
Definition set_order_status_args (parts : list string)
    : routed AdminCall.t :=
  match parts !! 1%nat ≫= int with
  | Some order_id =>
      with_piece (parts !! 2%nat) (AdminCall.set_order_status order_id)
  | None => Raises
  end.

Definition handle_admin_callback (data : string) : routed AdminCall.t :=
  let parts := split "_"%char data in
  if (data =? "admin_panel")%string then Calls AdminCall.show_admin_panel
  else if (data =? "admin_orders")%string then
    Calls AdminCall.show_admin_orders
  else if startswith data "change_status_" then
    with_int (parts !! 2%nat) AdminCall.change_order_status_menu
  else if startswith data "setstatus_" then set_order_status_args parts
  else if startswith data "delete_order_" then
    with_int (parts !! 2%nat) AdminCall.delete_order_confirm
  else if (data =? "admin_products")%string then
    Calls AdminCall.show_admin_products
  else if (data =? "admin_add_model")%string then
    Calls AdminCall.start_add_model
  else if (data =? "admin_add_product")%string then
    Calls AdminCall.start_add_product
  else if (data =? "admin_view_models")%string then
    Calls AdminCall.show_models_list
  else if startswith data "view_model_" then
    with_int (parts !! 2%nat) AdminCall.show_model_detail
  else if startswith data "view_flavors_" then
    with_int (parts !! 2%nat) AdminCall.show_model_flavors
  else if startswith data "view_flavor_detail_" then
    with_int (parts !! 3%nat) AdminCall.show_flavor_detail
  else if startswith data "edit_flavor_price_" then
    with_int (last parts) AdminCall.start_edit_flavor_price
  else if startswith data "edit_flavor_stock_" then
    with_int (last parts) AdminCall.start_edit_flavor_stock
  else if startswith data "edit_model_description_" then
    with_int (last parts) AdminCall.start_edit_model_description
  else if startswith data "confirm_delete_model_" then
    with_int (parts !! 3%nat) AdminCall.confirm_delete_model
  else if startswith data "confirm_delete_flavor_" then
    with_int (parts !! 3%nat) AdminCall.confirm_delete_flavor
  else if startswith data "select_model_" then
    with_int (parts !! 2%nat) AdminCall.select_model_for_product
  else if startswith data "admin_delete_model_" then
    with_int (last parts) AdminCall.delete_model_confirm
  else if startswith data "admin_delete_product_" then
    with_int (last parts) AdminCall.delete_product_confirm
  else if (data =? "admin_users")%string then Calls AdminCall.show_admin_users
  else if startswith data "admin_user_" then
    with_int (parts !! 2%nat) AdminCall.show_admin_user_detail
  else if startswith data "admin_ban_" then
    with_int (parts !! 2%nat) AdminCall.admin_ban_user
  else if startswith data "admin_unban_" then
    with_int (parts !! 2%nat) AdminCall.admin_unban_user
  else if (data =? "admin_stats")%string then Calls AdminCall.show_admin_stats
  else if (data =? "confirm_reset_db")%string then
    Calls AdminCall.confirm_reset_db
  else if (data =? "admin_backup")%string then Calls AdminCall.admin_backup_db
  else NoBranch.

(** *** The dispatcher ([core.py])

    The administrator's handler is registered first, with a pattern: an
    alternative of anchored prefixes, matched at the start of the data.
    The customer's handler is registered after it, without a pattern, and
    gets what the first one does not match. *)
Definition pattern : list string :=
  ["admin_"; "change_status_"; "setstatus_"; "select_model_"; "view_";
   "confirm_delete_"; "confirm_reset_db"; "delete_order_"; "edit_"].

(** Which handler gets the data, and what it does with them.
    [handle_admin_callback] is under [@admin_required]: [ByAdmin None] is
    the refusal of that decorator.  [handle_callback] is under
    [@check_maintenance] and [@check_banned], see [guarded]: [ByUser r]
    says what its body does once they let the update through. *)
Inductive handled :=
  | ByAdmin (r : option (routed AdminCall.t))
  | ByUser (r : routed UserCall.t).

Section dispatcher.
Variables admin_username support_username : string.

Definition admin_required {A} (func : A) (username : option string)
    : option A :=
  if is_admin admin_username support_username username then Some func
  else None.

Definition callback_query (username : option string) (data : string)
    : handled :=
  if existsb (startswith data) pattern then
    ByAdmin (admin_required (handle_admin_callback data) username)
  else ByUser (handle_callback data).

End dispatcher.

(** * Proofs *)

(** ** Lists of rows *)

Lemma filter_ext_in {A} (P Q : A → Prop) `{!∀ x, Decision (P x)}
    `{!∀ x, Decision (Q x)} (l : list A) :
  (∀ x, x ∈ l → (P x ↔ Q x)) → filter P l = filter Q l.
Proof.
  induction l as [|x l IH]; intros HPQ; [done|].
  rewrite !filter_cons.
  assert (P x ↔ Q x) as Hx by (apply HPQ; left).
  rewrite IH by (intros y Hy; apply HPQ; by right).
  destruct (decide (P x)), (decide (Q x)); tauto.
Qed.

Lemma filter_all {A} (P : A → Prop) `{!∀ x, Decision (P x)} (l : list A) :
  (∀ x, x ∈ l → P x) → filter P l = l.
Proof.
  induction l as [|x l IH]; intros HP; [done|].
  rewrite filter_cons_True by (apply HP; left).
  f_equal. apply IH. intros y Hy. apply HP. by right.
Qed.

Lemma filter_none {A} (P : A → Prop) `{!∀ x, Decision (P x)} (l : list A) :
  (∀ x, x ∈ l → ¬ P x) → filter P l = [].
Proof.
  induction l as [|x l IH]; intros HP; [done|].
  rewrite filter_cons_False by (apply HP; left).
  apply IH. intros y Hy. apply HP. by right.
Qed.

Lemma NoDup_fmap_eq {A B} (f : A → B) (l : list A) x y :
  NoDup (f <$> l) → x ∈ l → y ∈ l → f x = f y → x = y.
Proof.
  induction l as [|z l IH]; intros Hnd Hx Hy Hxy; [by inversion Hx|].
  rewrite fmap_cons in Hnd. apply NoDup_cons in Hnd as [Hz Hnd].
  apply elem_of_cons in Hx as [->|Hx]; apply elem_of_cons in Hy as [->|Hy].
  - done.
  - exfalso. apply Hz. rewrite Hxy. by apply list_elem_of_fmap_2.
  - exfalso. apply Hz. rewrite <- Hxy. by apply list_elem_of_fmap_2.
  - by apply IH.
Qed.

Lemma elem_of_keys {A B} (l : list (A * B)) k v : (k, v) ∈ l → k ∈ l.*1.
Proof. intros Hin. by apply (list_elem_of_fmap_2 fst l (k, v)). Qed.

Lemma next_id_above (ids : list Z) x : x ∈ ids → x < next_id ids.
Proof.
  unfold next_id. induction ids as [|y ids IH]; intros Hx; [by inversion Hx|].
  apply elem_of_cons in Hx as [->|Hx]; simpl; [lia|].
  specialize (IH Hx). lia.
Qed.

Lemma next_id_fresh (ids : list Z) : next_id ids ∉ ids.
Proof. intros Hin. apply next_id_above in Hin. lia. Qed.

Lemma NoDup_snoc_next_id (ids : list Z) :
  NoDup ids → NoDup (ids ++ [next_id ids]).
Proof.
  intros Hnd. apply NoDup_app. split_and!; [done| |apply NoDup_singleton].
  intros x Hx Hx'. apply list_elem_of_singleton in Hx'. subst.
  by apply next_id_fresh in Hx.
Qed.

(** ** The merge loop, for any table *)

Section merge_duplicates_facts.
Context {Row K : Type} `{EqDecision K}.
Variable row_id : Row → Z.
Variable row_quantity : Row → Z.
Variable set_row_quantity : Z → Row → Row.
Hypothesis row_id_set : ∀ q r, row_id (set_row_quantity q r) = row_id r.
Hypothesis set_same : ∀ r, set_row_quantity (row_quantity r) r = r.

Local Abbreviation update_quantity := (update_quantity row_id set_row_quantity).
Local Abbreviation delete_row := (delete_row row_id).
Local Abbreviation delete_rows := (delete_rows row_id).
Local Abbreviation coalesce := (coalesce set_row_quantity).
Local Abbreviation sum_quantity := (sum_quantity row_quantity).
Local Abbreviation merge_group :=
  (merge_group row_id row_quantity set_row_quantity).
Local Abbreviation merge_groups :=
  (merge_groups row_id row_quantity set_row_quantity).

Lemma update_quantity_absent rid q (t : list Row) :
  rid ∉ row_id <$> t → update_quantity rid q t = t.
Proof.
  induction t as [|r t IH]; intros Hnot; [done|].
  rewrite fmap_cons in Hnot. apply not_elem_of_cons in Hnot as [Hne Hnot].
  unfold update_quantity in *. rewrite fmap_cons, IH by done.
  by rewrite decide_False by done.
Qed.

Lemma update_quantity_ids rid q (t : list Row) :
  row_id <$> update_quantity rid q t = row_id <$> t.
Proof.
  unfold update_quantity. rewrite <- list_fmap_compose.
  apply list_fmap_ext. intros _ r _. simpl.
  destruct (decide (row_id r = rid)); by rewrite ?row_id_set.
Qed.

Lemma delete_rows_filter (items t : list Row) :
  delete_rows items t = filter (λ r, row_id r ∉ row_id <$> items) t.
Proof.
  revert t. induction items as [|i items IH]; intros t.
  - simpl. symmetry. apply filter_all. intros r _. apply not_elem_of_nil.
  - unfold delete_rows in *. simpl. rewrite IH. unfold delete_row.
    rewrite list_filter_filter. apply list_filter_iff. intros r.
    rewrite not_elem_of_cons. tauto.
Qed.

Lemma delete_rows_sublist (items t : list Row) :
  delete_rows items t `sublist_of` t.
Proof. rewrite delete_rows_filter. apply sublist_filter. Qed.

Section coalesce_facts.
Context (P : Row → Prop) `{!∀ r, Decision (P r)}.
Hypothesis P_set : ∀ q r, P (set_row_quantity q r) ↔ P r.

(** Updating the first row of a group and deleting the others, by primary
    key, is [coalesce] when the keys of the table are unique. *)
Lemma update_delete_coalesce (t : list Row) first_item rest q :
  NoDup (row_id <$> t) →
  filter P t = first_item :: rest →
  delete_rows rest (update_quantity (row_id first_item) q t)
  = coalesce P q t.
Proof.
  rewrite delete_rows_filter.
  induction t as [|r t IH]; intros Hnd Hfil; [done|].
  rewrite fmap_cons in Hnd. apply NoDup_cons in Hnd as [Hr Hnd].
  rewrite filter_cons in Hfil. simpl.
  destruct (decide (P r)) as [HP|HP].
  - injection Hfil as <- <-.
    change ((λ r0, if decide (row_id r0 = row_id r)
                   then set_row_quantity q r0 else r0) <$> t)
      with (update_quantity (row_id r) q t).
    rewrite decide_True by done.
    rewrite update_quantity_absent by done.
    rewrite filter_cons_True.
    2:{ rewrite row_id_set. intros Hin.
        apply list_elem_of_fmap in Hin as (r' & Heq & Hr').
        apply list_elem_of_filter in Hr' as [_ Hr'].
        apply Hr. rewrite Heq. by apply list_elem_of_fmap_2. }
    f_equal. apply filter_ext_in. intros x Hx. split.
    + intros Hnot HPx. apply Hnot. apply list_elem_of_fmap_2.
      by apply list_elem_of_filter.
    + intros HPx Hin. apply list_elem_of_fmap in Hin as (r' & Heq & Hr').
      apply list_elem_of_filter in Hr' as [HPr' Hr'].
      assert (x = r') as -> by (by eapply (NoDup_fmap_eq row_id)).
      done.
  - assert (first_item ∈ t) as Hfirst.
    { eapply (proj1 (list_elem_of_filter P t first_item)).
      rewrite Hfil. left. }
    rewrite decide_False.
    2:{ intros Heq. apply Hr. rewrite Heq. by apply list_elem_of_fmap_2. }
    rewrite filter_cons_True.
    2:{ intros Hin. apply list_elem_of_fmap in Hin as (r' & Heq & Hr').
        apply Hr. rewrite Heq. apply list_elem_of_fmap_2.
        eapply (proj1 (list_elem_of_filter P t r')).
        rewrite Hfil. by right. }
    f_equal. by apply IH.
Qed.

Lemma coalesce_none q (t : list Row) : filter P t = [] → coalesce P q t = t.
Proof.
  induction t as [|r t IH]; intros Hfil; [done|].
  rewrite filter_cons in Hfil. simpl.
  destruct (decide (P r)); [done|]. f_equal. by apply IH.
Qed.

Lemma coalesce_single (t : list Row) r :
  filter P t = [r] → coalesce P (row_quantity r) t = t.
Proof.
  induction t as [|r' t IH]; intros Hfil; [done|].
  rewrite filter_cons in Hfil. simpl.
  destruct (decide (P r')) as [HP|HP].
  - injection Hfil as -> Hnil. rewrite set_same. f_equal.
    apply filter_all. intros x Hx HPx.
    exact (filter_nil_not_elem_of _ _ _ Hnil HPx Hx).
  - f_equal. by apply IH.
Qed.

Lemma filter_coalesce q (t : list Row) :
  filter P (coalesce P q t)
  = match filter P t with
    | [] => []
    | first_item :: _ => [set_row_quantity q first_item]
    end.
Proof.
  induction t as [|r t IH]; [done|].
  rewrite filter_cons. simpl. destruct (decide (P r)) as [HP|HP].
  - rewrite filter_cons_True by (by apply P_set). f_equal.
    apply filter_none. intros x Hx. by apply list_elem_of_filter in Hx as [? _].
  - by rewrite filter_cons_False.
Qed.

Lemma filter_coalesce_other (Q : Row → Prop) `{!∀ r, Decision (Q r)} q
    (t : list Row) :
  (∀ r, Q r → ¬ P r) → filter Q (coalesce P q t) = filter Q t.
Proof.
  intros HQ. induction t as [|r t IH]; [done|].
  simpl. destruct (decide (P r)) as [HP|HP].
  - rewrite filter_cons_False
      by (intros HQr; apply HQ in HQr; by apply HQr, P_set).
    rewrite filter_cons_False by (intros HQr; by apply HQ in HQr).
    rewrite list_filter_filter. apply list_filter_iff. intros x.
    specialize (HQ x). tauto.
  - rewrite !filter_cons, IH. done.
Qed.

Lemma coalesce_ids_sublist q (t : list Row) :
  row_id <$> coalesce P q t `sublist_of` row_id <$> t.
Proof.
  induction t as [|r t IH]; [done|].
  simpl. destruct (decide (P r)).
  - rewrite !fmap_cons, row_id_set. apply sublist_skip.
    apply fmap_sublist, sublist_filter.
  - rewrite !fmap_cons. by apply sublist_skip.
Qed.

Lemma merge_group_coalesce (t : list Row) :
  NoDup (row_id <$> t) →
  merge_group (filter P t) t = coalesce P (sum_quantity (filter P t)) t.
Proof.
  intros Hnd. unfold merge_group.
  destruct (filter P t) as [|first_item [|second rest]] eqn:Hfil.
  - symmetry. by apply coalesce_none.
  - simpl. rewrite Z.add_0_r. symmetry. by apply coalesce_single.
  - rewrite decide_True by (simpl; lia). by apply update_delete_coalesce.
Qed.

End coalesce_facts.

Section grouping_facts.
Variable key : Row → K.
Variable sel : Row → Prop.
Context `{!∀ r, Decision (sel r)}.
Hypothesis key_set : ∀ q r, key (set_row_quantity q r) = key r.
Hypothesis sel_set : ∀ q r, sel (set_row_quantity q r) ↔ sel r.

Local Abbreviation group_insert := (group_insert key).
Local Abbreviation group_items := (group_items key).
Local Abbreviation is_grouping := (is_grouping key).

Lemma group_insert_keys item (groups : list (K * list Row)) :
  (group_insert item groups).*1
  = if decide (key item ∈ groups.*1) then groups.*1
    else groups.*1 ++ [key item].
Proof.
  induction groups as [|[k its] groups IH]; [done|].
  change (group_insert item ((k, its) :: groups))
    with (if decide (key item = k) then (k, its ++ [item]) :: groups
          else (k, its) :: group_insert item groups).
  destruct (decide (key item = k)) as [->|Hne]; rewrite !fmap_cons.
  - simpl. rewrite decide_True; [done|left].
  - rewrite IH. simpl.
    destruct (decide (key item ∈ groups.*1)) as [Hin|Hin].
    + rewrite decide_True; [done|by right].
    + rewrite decide_False; [done|].
      intros [?|?]%elem_of_cons; done.
Qed.

Lemma group_insert_elem item (groups : list (K * list Row)) k its :
  NoDup groups.*1 →
  (k, its) ∈ group_insert item groups →
  (k ≠ key item ∧ (k, its) ∈ groups)
  ∨ (k = key item
     ∧ ((∃ its0, (k, its0) ∈ groups ∧ its = its0 ++ [item])
        ∨ ((k ∉ groups.*1) ∧ its = [item]))).
Proof.
  induction groups as [|[k0 its0] groups IH]; intros Hnd Hin.
  - simpl in Hin. apply list_elem_of_singleton in Hin.
    injection Hin as -> ->.
    right. split; [done|]. right.
    split; [simpl; apply not_elem_of_nil|done].
  - rewrite fmap_cons in Hnd. apply NoDup_cons in Hnd as [Hk0 Hnd].
    simpl in Hin. destruct (decide (key item = k0)) as [Heq|Hne].
    + apply elem_of_cons in Hin as [Hin|Hin].
      * injection Hin as -> ->. right. split; [done|]. left.
        exists its0. split; [left|done].
      * left. split; [|by right]. intros ->. apply Hk0. rewrite <- Heq.
        by eapply elem_of_keys.
    + apply elem_of_cons in Hin as [Hin|Hin].
      * injection Hin as -> ->. left. split; [done|left].
      * destruct (IH Hnd Hin) as [[? ?]|[-> [(its1 & ? & ->)|[Hk ->]]]].
        -- left. split; [done|by right].
        -- right. split; [done|]. left. exists its1. split; [by right|done].
        -- right. split; [done|]. right. split; [|done].
           simpl. intros [?|?]%elem_of_cons; done.
Qed.

Lemma is_grouping_insert item groups done :
  is_grouping groups done →
  is_grouping (group_insert item groups) (done ++ [item]).
Proof.
  intros (Hnd & Hmem & Hcov). split_and!.
  - rewrite group_insert_keys. case_decide; [done|].
    apply NoDup_app. split_and!; [done| |apply NoDup_singleton].
    intros k Hk ->%list_elem_of_singleton. done.
  - intros k its Hin. rewrite filter_app, filter_cons, filter_nil.
    apply group_insert_elem in Hin as
      [[Hne Hin]|[-> [(its0 & Hin & ->)|[Hk ->]]]]; [| | |done].
    + destruct (Hmem _ _ Hin) as [-> Hnil].
      rewrite decide_False by done. by rewrite app_nil_r.
    + destruct (Hmem _ _ Hin) as [-> _]. rewrite decide_True by done.
      split; [done|]. by intros [? ?]%app_eq_nil.
    + rewrite decide_True by done. split; [|done].
      rewrite filter_none; [done|]. intros r Hr Hkey. apply Hk.
      rewrite <- Hkey. by apply Hcov.
  - intros r Hr. rewrite group_insert_keys.
    apply elem_of_app in Hr as [Hr| ->%list_elem_of_singleton].
    + case_decide; [by apply Hcov|]. apply elem_of_app. left. by apply Hcov.
    + case_decide; [done|]. apply elem_of_app. right. left.
Qed.

Lemma is_grouping_foldl items : ∀ groups done,
  is_grouping groups done →
  is_grouping (foldl (λ g item, group_insert item g) groups items)
    (done ++ items).
Proof.
  induction items as [|item items IH]; intros groups done Hg.
  - by rewrite app_nil_r.
  - simpl. rewrite cons_middle, app_assoc. apply IH.
    by apply is_grouping_insert.
Qed.

Lemma group_items_grouping items : is_grouping (group_items items) items.
Proof.
  apply (is_grouping_foldl items [] []). split_and!.
  - apply NoDup_nil_2.
  - intros k its Hin. by apply elem_of_nil in Hin.
  - intros r Hr. by apply elem_of_nil in Hr.
Qed.

Lemma merge_groups_small (groups : list (K * list Row)) (t : list Row) :
  (∀ g, g ∈ groups → (length g.2 ≤ 1)%nat) → merge_groups groups t = t.
Proof.
  induction groups as [|g groups IH]; intros Hsmall; [done|].
  assert (length g.2 ≤ 1)%nat as Hg by (apply Hsmall; left).
  unfold merge_groups in *. simpl. unfold merge_group at 2.
  rewrite decide_False by lia.
  apply IH. intros g' Hg'. apply Hsmall. by right.
Qed.

(** The loop over the groups, one group after the other. *)
Lemma merge_groups_spec (groups : list (K * list Row)) : ∀ t : list Row,
  NoDup (row_id <$> t) →
  NoDup groups.*1 →
  (∀ k its, (k, its) ∈ groups → its = filter (λ r, sel r ∧ key r = k) t) →
  (∀ k, k ∈ groups.*1 →
     filter (λ r, sel r ∧ key r = k) (merge_groups groups t)
     = match filter (λ r, sel r ∧ key r = k) t with
       | [] => []
       | first_item :: _ =>
           [set_row_quantity
              (sum_quantity (filter (λ r, sel r ∧ key r = k) t)) first_item]
       end)
  ∧ (∀ (Q : Row → Prop) `{!∀ r, Decision (Q r)},
       (∀ r k, Q r → k ∈ groups.*1 → ¬ (sel r ∧ key r = k)) →
       filter Q (merge_groups groups t) = filter Q t)
  ∧ row_id <$> merge_groups groups t `sublist_of` row_id <$> t.
Proof.
  induction groups as [|[k0 its0] groups IH]; intros t Hnd Hkeys Hits.
  { split_and!; [|done|done]. intros k Hk. by apply elem_of_nil in Hk. }
  rewrite fmap_cons in Hkeys. apply NoDup_cons in Hkeys as [Hk0 Hkeys].
  assert (∀ q r, (sel (set_row_quantity q r) ∧ key (set_row_quantity q r) = k0)
                 ↔ (sel r ∧ key r = k0)) as HPset.
  { intros q r. by rewrite key_set, sel_set. }
  assert (merge_groups ((k0, its0) :: groups) t
          = merge_groups groups
              (coalesce (λ r, sel r ∧ key r = k0)
                 (sum_quantity (filter (λ r, sel r ∧ key r = k0) t)) t))
    as ->.
  { unfold merge_groups. simpl. f_equal.
    rewrite (Hits k0 its0) by left.
    by apply (merge_group_coalesce (λ r, sel r ∧ key r = k0)). }
  set (t1 := coalesce _ _ t).
  assert (row_id <$> t1 `sublist_of` row_id <$> t) as Hsub
    by apply coalesce_ids_sublist.
  assert (∀ (Q : Row → Prop) `{!∀ r, Decision (Q r)},
            (∀ r, Q r → ¬ (sel r ∧ key r = k0)) → filter Q t1 = filter Q t)
    as Hother.
  { intros Q ? HQ. by apply filter_coalesce_other. }
  assert (∀ k, k ∈ groups.*1 →
            filter (λ r, sel r ∧ key r = k) t1
            = filter (λ r, sel r ∧ key r = k) t) as Hsame.
  { intros k Hk. apply Hother. intros r [_ Hr] [_ Hr0].
    apply Hk0. by rewrite <- Hr0, Hr. }
  destruct (IH t1) as (IH1 & IH2 & IH3).
  { by eapply sublist_NoDup. }
  { done. }
  { intros k its Hin. rewrite Hsame.
    - apply Hits. by right.
    - by eapply elem_of_keys. }
  split_and!.
  - intros k Hk. destruct (decide (k = k0)) as [->|Hne].
    + rewrite IH2.
      * by apply filter_coalesce.
      * intros r k [_ Hr] Hk' [_ Hr']. apply Hk0. by rewrite <- Hr, Hr'.
    + apply elem_of_cons in Hk as [?|Hk]; [done|].
      rewrite IH1 by done. by rewrite Hsame.
  - intros Q ? HQ. rewrite IH2.
    + apply Hother. intros r Hr. apply (HQ r k0 Hr). left.
    + intros r k Hr Hk. apply (HQ r k Hr). by right.
  - by etrans.
Qed.

(** The whole repair of the rows selected by [sel] in a table with unique
    primary keys: per key, the first row holds the total and is alone; the
    other rows of the table are as they were. *)
Lemma merge_items_spec (t : list Row) :
  NoDup (row_id <$> t) →
  let t' := merge_groups (group_items (filter sel t)) t in
  (∀ k, filter (λ r, sel r ∧ key r = k) t'
        = match filter (λ r, sel r ∧ key r = k) t with
          | [] => []
          | first_item :: _ =>
              [set_row_quantity
                 (sum_quantity (filter (λ r, sel r ∧ key r = k) t))
                 first_item]
          end)
  ∧ filter (λ r, ¬ sel r) t' = filter (λ r, ¬ sel r) t
  ∧ row_id <$> t' `sublist_of` row_id <$> t.
Proof.
  intros Hnd t'.
  destruct (group_items_grouping (filter sel t)) as (Hkeys & Hmem & Hcov).
  assert (∀ k, filter (λ r, key r = k) (filter sel t)
               = filter (λ r, sel r ∧ key r = k) t) as Hfil.
  { intros k. rewrite list_filter_filter. apply list_filter_iff.
    intros r. tauto. }
  destruct (merge_groups_spec (group_items (filter sel t)) t)
    as (H1 & H2 & H3); [done|done| |].
  { intros k its Hin. rewrite <- Hfil. by apply Hmem. }
  split_and!; [|apply H2; tauto|done].
  intros k. destruct (decide (k ∈ (group_items (filter sel t)).*1))
    as [Hk|Hk]; [by apply H1|].
  assert (filter (λ r, sel r ∧ key r = k) t = []) as Hnil.
  { apply filter_none. intros r Hr [Hsel Hkey]. apply Hk. rewrite <- Hkey.
    apply Hcov. by apply list_elem_of_filter. }
  unfold t'. rewrite H2, Hnil; [done|].
  intros r k' [_ Hr] Hk' [_ Hr']. apply Hk. by rewrite <- Hr, Hr'.
Qed.

(** Nothing to repair: the loop changes nothing. *)
Lemma merge_items_unique (t : list Row) :
  (∀ k, (length (filter (λ r, sel r ∧ key r = k) t) ≤ 1)%nat) →
  merge_groups (group_items (filter sel t)) t = t.
Proof.
  intros Huniq. apply merge_groups_small. intros [k its] Hin.
  destruct (group_items_grouping (filter sel t)) as (_ & Hmem & _).
  destruct (Hmem _ _ Hin) as [-> _]. simpl.
  rewrite list_filter_filter.
  erewrite (list_filter_iff _ (λ r, sel r ∧ key r = k)); [apply Huniq|].
  intros r. tauto.
Qed.

End grouping_facts.
End merge_duplicates_facts.

(** ** The cart *)

Lemma with_cart_same db : with_cart (cart db) db = db.
Proof. by destruct db. Qed.

Lemma cart_set_same c : Cart.set_quantity (Cart.quantity c) c = c.
Proof. by destruct c. Qed.

Lemma filter_length_le {A} (P Q : A → Prop) `{!∀ x, Decision (P x)}
    `{!∀ x, Decision (Q x)} (l : list A) :
  (∀ x, P x → Q x) → (length (filter P l) ≤ length (filter Q l))%nat.
Proof.
  intros HPQ. induction l as [|x l IH]; [done|].
  rewrite !filter_cons. destruct (decide (P x)) as [HP|HP].
  - rewrite decide_True by auto. simpl. lia.
  - destruct (decide (Q x)); simpl; lia.
Qed.

(** The early return of [merge_duplicate_cart_items] is the loop on a cart
    in which the loop has nothing to do. *)
Lemma merge_duplicate_cart_items_loop db u :
  merge_duplicate_cart_items db u
  = with_cart
      (merge_groups Cart.id Cart.quantity Cart.set_quantity
         (group_items Cart.product_id
            (filter (λ c, Cart.user_id c = u) (cart db)))
         (cart db)) db.
Proof.
  unfold merge_duplicate_cart_items. case_decide as Hlen; [|done].
  rewrite (merge_items_unique Cart.id Cart.quantity Cart.set_quantity
             Cart.product_id (λ c, Cart.user_id c = u)).
  - by rewrite with_cart_same.
  - intros k. etrans; [|exact Hlen]. apply filter_length_le. tauto.
Qed.

Lemma merge_duplicate_cart_items_spec db u :
  NoDup (Cart.id <$> cart db) →
  let db' := merge_duplicate_cart_items db u in
  (∀ p, cart_rows db' u p
        = match cart_rows db u p with
          | [] => []
          | first_item :: _ =>
              [Cart.set_quantity
                 (sum_quantity Cart.quantity (cart_rows db u p)) first_item]
          end)
  ∧ filter (λ c, Cart.user_id c ≠ u) (cart db')
    = filter (λ c, Cart.user_id c ≠ u) (cart db)
  ∧ Cart.id <$> cart db' `sublist_of` Cart.id <$> cart db
  ∧ products db' = products db
  ∧ orders db' = orders db
  ∧ order_items db' = order_items db.
Proof.
  intros Hnd db'. unfold db'. rewrite merge_duplicate_cart_items_loop.
  destruct (merge_items_spec Cart.id Cart.quantity Cart.set_quantity
              (λ _ _, eq_refl) cart_set_same Cart.product_id
              (λ c, Cart.user_id c = u) (λ _ _, eq_refl)
              (λ _ _, reflexivity _) (cart db) Hnd) as (H1 & H2 & H3).
  split_and!; [intros p; apply H1|done..].
Qed.

Lemma merge_duplicate_cart_items_NoDup db u :
  NoDup (Cart.id <$> cart db) →
  NoDup (Cart.id <$> cart (merge_duplicate_cart_items db u)).
Proof.
  intros Hnd.
  destruct (merge_duplicate_cart_items_spec db u Hnd) as (_ & _ & Hsub & _).
  by eapply sublist_NoDup.
Qed.

Lemma merge_duplicate_cart_items_unique db u p :
  NoDup (Cart.id <$> cart db) →
  (length (cart_rows (merge_duplicate_cart_items db u) u p) ≤ 1)%nat.
Proof.
  intros Hnd.
  destruct (merge_duplicate_cart_items_spec db u Hnd) as (Hrows & _).
  rewrite Hrows. destruct (cart_rows db u p); simpl; lia.
Qed.

Lemma merge_duplicate_cart_items_sum db u p :
  NoDup (Cart.id <$> cart db) →
  sum_quantity Cart.quantity (cart_rows (merge_duplicate_cart_items db u) u p)
  = sum_quantity Cart.quantity (cart_rows db u p).
Proof.
  intros Hnd.
  destruct (merge_duplicate_cart_items_spec db u Hnd) as (Hrows & _).
  rewrite Hrows. destruct (cart_rows db u p); simpl; lia.
Qed.

(** Writing the quantity of the one row found by a query. *)
Lemma update_quantity_found {Row} (row_id : Row → Z)
    (set_row_quantity : Z → Row → Row) (P : Row → Prop)
    `{!∀ r, Decision (P r)} (t : list Row) r q :
  (∀ q r, row_id (set_row_quantity q r) = row_id r) →
  NoDup (row_id <$> t) →
  filter P t = [r] →
  update_quantity row_id set_row_quantity (row_id r) q t
  = coalesce set_row_quantity P q t.
Proof.
  intros Hid Hnd Hfil.
  by rewrite <- (update_delete_coalesce row_id set_row_quantity Hid P t r []).
Qed.

Lemma update_quantity_filter_length {Row} (row_id : Row → Z)
    (set_row_quantity : Z → Row → Row) (P : Row → Prop)
    `{!∀ r, Decision (P r)} (t : list Row) rid q :
  (∀ q r, P (set_row_quantity q r) ↔ P r) →
  length (filter P (update_quantity row_id set_row_quantity rid q t))
  = length (filter P t).
Proof.
  intros HP. induction t as [|r t IH]; [done|].
  unfold update_quantity in *. rewrite fmap_cons, !filter_cons.
  destruct (decide (row_id r = rid)).
  - destruct (decide (P r)) as [Hr|Hr].
    + rewrite decide_True by (by apply HP). simpl. by rewrite IH.
    + rewrite decide_False by (by rewrite HP). done.
  - destruct (decide (P r)); simpl; by rewrite IH.
Qed.

Lemma add_to_cart_spec db u p q :
  NoDup (Cart.id <$> cart db) →
  ∃ db' row,
    add_to_cart db u p q = Some (db', row)
    ∧ cart_rows db' u p = [row]
    ∧ Cart.quantity row = sum_quantity Cart.quantity (cart_rows db u p) + q
    ∧ NoDup (Cart.id <$> cart db')
    ∧ (∀ p', (length (cart_rows db' u p') ≤ 1)%nat)
    ∧ products db' = products db
    ∧ orders db' = orders db
    ∧ order_items db' = order_items db.
Proof.
  intros Hnd. unfold add_to_cart.
  pose proof (merge_duplicate_cart_items_NoDup db u Hnd) as Hnd1.
  pose proof (merge_duplicate_cart_items_sum db u p Hnd) as Hsum.
  pose proof (λ p', merge_duplicate_cart_items_unique db u p' Hnd) as Huniq.
  destruct (merge_duplicate_cart_items_spec db u Hnd)
    as (_ & _ & _ & Hps & Hos & His).
  set (db1 := merge_duplicate_cart_items db u) in *.
  fold (cart_rows db1 u p).
  destruct (cart_rows db1 u p) as [|row [|row' rows]] eqn:Hrows.
  - simpl. eexists _, _. split; [done|]. unfold cart_rows in *. simpl.
    split_and!; try done.
    + rewrite filter_app, Hrows, filter_cons_True, filter_nil; done.
    + rewrite <- Hsum. simpl. lia.
    + rewrite fmap_app. by apply NoDup_snoc_next_id.
    + intros p'. rewrite filter_app, length_app, filter_cons, filter_nil.
      destruct (decide (p' = p)) as [->|Hne].
      * rewrite Hrows. case_decide; simpl; lia.
      * rewrite decide_False by (simpl; intros [_ ?]; congruence). simpl.
        specialize (Huniq p'). lia.
  - simpl. eexists _, _. split; [done|]. unfold cart_rows in *. simpl.
    rewrite (update_quantity_found Cart.id Cart.set_quantity
               (λ c, Cart.user_id c = u ∧ Cart.product_id c = p))
      by done.
    split_and!; try done.
    + rewrite filter_coalesce by done. by rewrite Hrows.
    + rewrite <- Hsum. simpl. lia.
    + eapply sublist_NoDup; [exact Hnd1|]. by apply coalesce_ids_sublist.
    + intros p'. destruct (decide (p' = p)) as [->|Hne].
      * rewrite filter_coalesce by done. by rewrite Hrows.
      * rewrite filter_coalesce_other; [apply Huniq|done|].
        intros c [_ Hc] [_ Hc']. congruence.
  - specialize (Huniq p). rewrite Hrows in Huniq.
    simpl in Huniq. lia.
Qed.

Lemma add_all_to_cart_sum qs : ∀ db u p,
  NoDup (Cart.id <$> cart db) →
  ∃ db',
    add_all_to_cart db u p qs = Some db'
    ∧ NoDup (Cart.id <$> cart db')
    ∧ sum_quantity Cart.quantity (cart_rows db' u p)
      = sum_quantity Cart.quantity (cart_rows db u p) + total qs
    ∧ (qs ≠ [] ∨ length (cart_rows db u p) = 1%nat →
       length (cart_rows db' u p) = 1%nat).
Proof.
  induction qs as [|q qs IH]; intros db u p Hnd.
  - exists db. simpl. split_and!; [done|done|lia|]. intros [?|?]; done.
  - destruct (add_to_cart_spec db u p q Hnd)
      as (db1 & row & Hadd & Hrows & Hq & Hnd1 & _).
    destruct (IH db1 u p Hnd1) as (db' & Hall & Hnd' & Hsum & Hlen).
    exists db'. unfold add_all_to_cart in *. simpl. rewrite Hadd. simpl.
    split_and!; [done|done| |].
    + rewrite Hsum, Hrows. simpl. lia.
    + intros _. apply Hlen. right. by rewrite Hrows.
Qed.

(** C2 (P1, cart uniqueness).  Any non-empty sequence of [add_to_cart] calls
    for one user and product, from any cart whose primary keys are unique
    (duplicate rows for the product included), succeeds and leaves exactly
    one row for that user and product; its quantity is the sum of the
    quantities added plus the quantity the cart held for the product. *)
Theorem add_to_cart_accumulates db u p qs :
  NoDup (Cart.id <$> cart db) →
  qs ≠ [] →
  ∃ db' row,
    add_all_to_cart db u p qs = Some db'
    ∧ cart_rows db' u p = [row]
    ∧ Cart.quantity row
      = sum_quantity Cart.quantity (cart_rows db u p) + total qs.
Proof.
  intros Hnd Hqs.
  destruct (add_all_to_cart_sum qs db u p Hnd) as (db' & Hall & _ & Hsum & Hlen).
  specialize (Hlen (or_introl Hqs)).
  destruct (cart_rows db' u p) as [|row [|]] eqn:Hrows; try done.
  exists db', row. split_and!; [done|done|]. rewrite <- Hsum. simpl. lia.
Qed.

Lemma add_to_cart_accumulates_witness :
  ∃ db' row,
    add_all_to_cart duplicated_cart 1 7 [3; 3] = Some db'
    ∧ cart_rows db' 1 7 = [row]
    ∧ Cart.quantity row
      = sum_quantity Cart.quantity (cart_rows duplicated_cart 1 7)
        + total [3; 3].
Proof. apply add_to_cart_accumulates; [compute_done|done]. Defined.

(** Scenario C: adding 3 of X twice gives one row of 6, not two rows of 3. *)
Example add_to_cart_scenario_C :
  cart <$> add_all_to_cart empty_db 1 1 [3; 3] = Some [Cart.mk 1 1 1 6].
Proof. reflexivity. Qed.

Lemma update_cart_item_quantity_rows db cart_id q u p :
  (length (cart_rows (update_cart_item_quantity db cart_id q) u p)
   ≤ length (cart_rows db u p))%nat.
Proof.
  unfold update_cart_item_quantity, cart_rows. case_decide; simpl.
  - unfold delete_row. rewrite list_filter_filter.
    apply filter_length_le. tauto.
  - by rewrite update_quantity_filter_length.
Qed.

Lemma remove_from_cart_rows db cart_id u p :
  (length (cart_rows (remove_from_cart db cart_id) u p)
   ≤ length (cart_rows db u p))%nat.
Proof.
  unfold remove_from_cart, cart_rows, delete_row. simpl.
  rewrite list_filter_filter. apply filter_length_le. tauto.
Qed.

Lemma clear_user_cart_rows db u u' p :
  cart_rows (clear_user_cart db u) u p = []
  ∧ (length (cart_rows (clear_user_cart db u) u' p)
     ≤ length (cart_rows db u' p))%nat.
Proof.
  unfold clear_user_cart, cart_rows. simpl. rewrite !list_filter_filter.
  split; [apply filter_none; intros c _; tauto|].
  apply filter_length_le. tauto.
Qed.

(** C8, as the code has it.  [add_to_cart] and [get_user_cart] run the repair:
    after either, the cart of the user has at most one row per product.
    [update_cart_item_quantity], [remove_from_cart] and [clear_user_cart] do
    not run it; they add no row, and [clear_user_cart] leaves the user
    without rows. *)
Theorem cart_unique_after_access db u :
  NoDup (Cart.id <$> cart db) →
  (∀ p q, ∃ db' row,
     add_to_cart db u p q = Some (db', row)
     ∧ ∀ p', (length (cart_rows db' u p') ≤ 1)%nat)
  ∧ (∀ p', (length (cart_rows (get_user_cart db u).1 u p') ≤ 1)%nat)
  ∧ (∀ p', (length (filter (λ c, Cart.product_id c = p')
                      (get_user_cart db u).2) ≤ 1)%nat)
  ∧ (∀ cart_id q u' p',
       (length (cart_rows (update_cart_item_quantity db cart_id q) u' p')
        ≤ length (cart_rows db u' p'))%nat)
  ∧ (∀ cart_id u' p',
       (length (cart_rows (remove_from_cart db cart_id) u' p')
        ≤ length (cart_rows db u' p'))%nat)
  ∧ (∀ p', cart_rows (clear_user_cart db u) u p' = []).
Proof.
  intros Hnd. split_and!.
  - intros p q.
    destruct (add_to_cart_spec db u p q Hnd) as (db' & row & ? & _ & _ & _ & ? & _).
    by exists db', row.
  - intros p'. by apply merge_duplicate_cart_items_unique.
  - intros p'. simpl. rewrite list_filter_filter.
    etrans; [|apply (merge_duplicate_cart_items_unique db u p' Hnd)].
    apply filter_length_le. tauto.
  - intros cart_id q u' p'. apply update_cart_item_quantity_rows.
  - intros cart_id u' p'. apply remove_from_cart_rows.
  - intros p'. apply (clear_user_cart_rows db u u p').
Qed.

Lemma cart_unique_after_access_witness :
  (∀ p q, ∃ db' row,
     add_to_cart duplicated_cart 1 p q = Some (db', row)
     ∧ ∀ p', (length (cart_rows db' 1 p') ≤ 1)%nat)
  ∧ (∀ p', (length (cart_rows (get_user_cart duplicated_cart 1).1 1 p')
            ≤ 1)%nat).
Proof.
  destruct (cart_unique_after_access duplicated_cart 1) as (H1 & H2 & _);
    [compute_done|].
  by split.
Defined.

(** C8 as stated fails: [update_cart_item_quantity] does not run the repair,
    and a cart with two rows for a product still has two rows after it. *)
Lemma update_quantity_keeps_duplicates :
  cart_rows (update_cart_item_quantity duplicated_cart 1 5) 1 7
  = [Cart.mk 1 1 7 5; Cart.mk 2 1 7 3]
  ∧ ¬ (length (cart_rows (update_cart_item_quantity duplicated_cart 1 5) 1 7)
       ≤ 1)%nat.
Proof. split; [reflexivity|]. vm_compute. lia. Qed.

(** ** Line items of an order *)

Lemma order_item_set_same i :
  OrderItem.set_quantity (OrderItem.quantity i) i = i.
Proof. by destruct i. Qed.

Lemma with_order_items_same db : with_order_items (order_items db) db = db.
Proof. by destruct db. Qed.

(** In a table stored in ascending key order the first row of a query has
    the least key. *)
Lemma filter_first_least {Row} (row_id : Row → Z) (P : Row → Prop)
    `{!∀ r, Decision (P r)} (t : list Row) first_item rest :
  StronglySorted Z.lt (row_id <$> t) →
  filter P t = first_item :: rest →
  ∀ r, r ∈ rest → row_id first_item < row_id r.
Proof.
  induction t as [|r0 t IH]; intros Hs Hfil r Hr; [done|].
  rewrite fmap_cons in Hs. apply StronglySorted_inv in Hs as [Hs Hall].
  rewrite filter_cons in Hfil. destruct (decide (P r0)).
  - injection Hfil as <- <-. apply list_elem_of_filter in Hr as [_ Hr].
    rewrite Forall_forall in Hall. apply Hall.
    by apply list_elem_of_fmap_2.
  - by eapply IH.
Qed.

(** C7.  [merge_duplicate_order_items] on an order, in a table with unique
    primary keys: for every (product, price_at_order) the rows of the order
    become the first of them, holding the sum of their quantities, the rest
    being deleted; so no two line items of the order share (product,
    price_at_order), the quantity per (product, price_at_order) is kept,
    and a second run changes nothing.  The first row is the one with the
    lowest id.  Rows of other orders and the other tables are untouched. *)
Theorem merge_duplicate_order_items_spec db o :
  NoDup (OrderItem.id <$> order_items db) →
  let db' := merge_duplicate_order_items db o in
  (∀ p price,
     line_items db' o p price
     = match line_items db o p price with
       | [] => []
       | first_item :: _ =>
           [OrderItem.set_quantity
              (sum_quantity OrderItem.quantity (line_items db o p price))
              first_item]
       end)
  ∧ (∀ p price, (length (line_items db' o p price) ≤ 1)%nat)
  ∧ (∀ p price,
       sum_quantity OrderItem.quantity (line_items db' o p price)
       = sum_quantity OrderItem.quantity (line_items db o p price))
  ∧ merge_duplicate_order_items db' o = db'
  ∧ (StronglySorted Z.lt (OrderItem.id <$> order_items db) →
     ∀ p price first_item rest,
       line_items db o p price = first_item :: rest →
       ∀ i, i ∈ rest → OrderItem.id first_item < OrderItem.id i)
  ∧ filter (λ i, OrderItem.order_id i ≠ o) (order_items db')
    = filter (λ i, OrderItem.order_id i ≠ o) (order_items db)
  ∧ products db' = products db
  ∧ cart db' = cart db
  ∧ orders db' = orders db.
Proof.
  intros Hnd db'.
  destruct (merge_items_spec OrderItem.id OrderItem.quantity
              OrderItem.set_quantity (λ _ _, eq_refl) order_item_set_same
              (λ i, (OrderItem.product_id i, OrderItem.price_at_order i))
              (λ i, OrderItem.order_id i = o) (λ _ _, eq_refl)
              (λ _ _, reflexivity _) (order_items db) Hnd) as (H1 & H2 & H3).
  assert (∀ p price,
            line_items db' o p price
            = match line_items db o p price with
              | [] => []
              | first_item :: _ =>
                  [OrderItem.set_quantity
                     (sum_quantity OrderItem.quantity
                        (line_items db o p price)) first_item]
              end) as Hrows.
  { intros p price. apply (H1 (p, price)). }
  assert (∀ p price, (length (line_items db' o p price) ≤ 1)%nat) as Huniq.
  { intros p price. rewrite Hrows.
    destruct (line_items db o p price); simpl; lia. }
  split_and!; try done.
  - intros p price. rewrite Hrows.
    destruct (line_items db o p price); simpl; lia.
  - unfold merge_duplicate_order_items at 1.
    rewrite (merge_items_unique OrderItem.id OrderItem.quantity
               OrderItem.set_quantity
               (λ i, (OrderItem.product_id i, OrderItem.price_at_order i))
               (λ i, OrderItem.order_id i = o)).
    + apply with_order_items_same.
    + intros [p price]. apply Huniq.
  - intros Hs p price first_item rest Hfil.
    by eapply (filter_first_least OrderItem.id).
Qed.

Lemma merge_duplicate_order_items_spec_witness :
  let db :=
    with_order_items
      [OrderItem.mk 1 7 1 3 10; OrderItem.mk 2 7 2 1 8;
       OrderItem.mk 3 7 1 2 10; OrderItem.mk 4 7 1 1 12] scenario_D in
  line_items (merge_duplicate_order_items db 7) 7 1 10
  = [OrderItem.mk 1 7 1 5 10].
Proof.
  intros db.
  destruct (merge_duplicate_order_items_spec db 7) as (H & _);
    [compute_done|].
  rewrite H. reflexivity.
Defined.

(** ** The catalog *)

(** C6 (P6, non-negative stock).  [update_stock] on a product that exists
    sets its stock to [max 0 (stock + delta)], which is never below zero,
    whatever the stock and the delta; price and availability, the other
    products and the other tables are untouched. *)
Theorem update_stock_clamps db product_id delta p :
  products db !! product_id = Some p →
  let db' := update_stock db product_id delta in
  ∃ p',
    products db' !! product_id = Some p'
    ∧ Product.stock_quantity p' = Z.max 0 (Product.stock_quantity p + delta)
    ∧ 0 ≤ Product.stock_quantity p'
    ∧ Product.price p' = Product.price p
    ∧ Product.is_available p' = Product.is_available p
    ∧ (∀ other, other ≠ product_id →
         products db' !! other = products db !! other)
    ∧ cart db' = cart db
    ∧ orders db' = orders db
    ∧ order_items db' = order_items db.
Proof.
  intros Hp db'. unfold db', update_stock, get_product_by_id, update_product.
  rewrite Hp. simpl.
  eexists. rewrite lookup_alter_eq, Hp. simpl.
  split_and!; [done|done|simpl; lia|done|done| |done|done|done].
  intros other Hne. by rewrite lookup_alter_ne.
Qed.

Lemma update_stock_clamps_witness :
  ∃ p',
    products (update_stock scenario_A 1 (-9)) !! 1 = Some p'
    ∧ Product.stock_quantity p' = Z.max 0 (5 + -9)
    ∧ 0 ≤ Product.stock_quantity p'.
Proof.
  destruct (update_stock_clamps scenario_A 1 (-9) (Product.mk 10 5 true))
    as (p' & H1 & H2 & H3 & _); [reflexivity|].
  by exists p'.
Defined.

Lemma update_stock_missing db product_id delta :
  products db !! product_id = None → update_stock db product_id delta = db.
Proof. intros Hp. unfold update_stock, get_product_by_id. by rewrite Hp. Qed.

Lemma handle_catalog_order_items db r :
  catalog_request r = true → order_items (handle db r) = order_items db.
Proof.
  destruct r; try done. intros _. simpl.
  unfold update_stock. by destruct (get_product_by_id _ _).
Qed.

(** C9 (P5, price snapshot).  [update_product], whatever columns it sets,
    leaves the table of line items as it is, and so does every sequence of
    catalog requests (creating, updating and deleting models and products,
    restocking): no [price_at_order] changes. *)
Theorem price_at_order_frame db rs :
  forallb catalog_request rs = true →
  order_items (run db rs) = order_items db
  ∧ OrderItem.price_at_order <$> order_items (run db rs)
    = OrderItem.price_at_order <$> order_items db
  ∧ (∀ product_id kw,
       order_items (update_product db product_id kw) = order_items db).
Proof.
  intros Hrs.
  assert (order_items (run db rs) = order_items db) as Heq.
  { revert db. induction rs as [|r rs IH]; intros db; [done|].
    simpl in Hrs. apply andb_prop in Hrs as [Hr Hrs].
    unfold run in *. simpl. rewrite IH by done.
    by apply handle_catalog_order_items. }
  by rewrite Heq.
Qed.

Lemma price_at_order_frame_witness :
  let rs :=
    [UpdateProduct 1 (Product.mk_kwargs (Some 99) None None);
     UpdateStock 2 (-1); DeleteProduct 2; CreateProduct 5 5;
     CreateModel 3; DeleteModel 1] in
  order_items (run scenario_D rs) = order_items scenario_D
  ∧ Product.price <$> products (run scenario_D rs) !! 1 = Some 99.
Proof.
  intros rs. split; [|reflexivity].
  by apply (price_at_order_frame scenario_D rs).
Defined.

(** ** Checkout: stock and totals *)

Lemma sum_quantity_app {Row} (f : Row → Z) (l1 l2 : list Row) :
  sum_quantity f (l1 ++ l2) = sum_quantity f l1 + sum_quantity f l2.
Proof. induction l1 as [|r l1 IH]; simpl; lia. Qed.

Lemma reserved_snoc taken c product_id :
  reserved (taken ++ [c]) product_id
  = reserved taken product_id
    + (if decide (Cart.product_id c = product_id) then Cart.quantity c
       else 0).
Proof.
  unfold reserved. rewrite filter_app, sum_quantity_app, filter_cons.
  case_decide; simpl; lia.
Qed.

Lemma items_total_app ps (l1 l2 : list Cart.t) :
  items_total ps (l1 ++ l2) = items_total ps l1 + items_total ps l2.
Proof. induction l1 as [|c l1 IH]; simpl; lia. Qed.

Lemma update_stock_take (ps0 : gmap Z Product.t) taken db c p :
  (∀ pid, products db !! pid = take_stock taken pid <$> ps0 !! pid) →
  products db !! Cart.product_id c = Some p →
  in_stock p c = true →
  ∀ pid,
    products (update_stock db (Cart.product_id c) (- Cart.quantity c)) !! pid
    = take_stock (taken ++ [c]) pid <$> ps0 !! pid.
Proof.
  intros Hinv Hp Hin pid. unfold update_stock, get_product_by_id.
  rewrite Hp. unfold update_product. simpl.
  apply andb_prop in Hin as [_ Hq%bool_decide_eq_true].
  destruct (decide (pid = Cart.product_id c)) as [->|Hne].
  - rewrite lookup_alter_eq, Hp. rewrite Hinv in Hp.
    destruct (ps0 !! Cart.product_id c) as [p0|]; [|done].
    injection Hp as <-. simpl in *. unfold take_stock, Product.values. simpl.
    rewrite reserved_snoc, decide_True by done. do 2 f_equal. lia.
  - rewrite lookup_alter_ne by done. rewrite Hinv.
    destruct (ps0 !! pid) as [p0|]; [|done]. simpl. unfold take_stock.
    rewrite reserved_snoc, decide_False by done. do 3 f_equal. lia.
Qed.

(** How [accepted_from] reads the guard on the current catalog. *)
Lemma accepted_from_step (ps0 ps : gmap Z Product.t) taken c rest :
  (∀ pid, ps !! pid = take_stock taken pid <$> ps0 !! pid) →
  accepted_from ps0 taken (c :: rest)
  = match ps !! Cart.product_id c with
    | Some p =>
        if in_stock p c then c :: accepted_from ps0 (taken ++ [c]) rest
        else accepted_from ps0 taken rest
    | None => accepted_from ps0 taken rest
    end.
Proof.
  intros Hinv. simpl. rewrite Hinv.
  by destruct (ps0 !! Cart.product_id c).
Qed.

Lemma unit_price_take (ps0 ps : gmap Z Product.t) taken product_id p :
  (∀ pid, ps !! pid = take_stock taken pid <$> ps0 !! pid) →
  ps !! product_id = Some p →
  Product.price p = unit_price ps0 product_id.
Proof.
  intros Hinv Hp. rewrite Hinv in Hp. unfold unit_price.
  destruct (ps0 !! product_id); [|done]. by injection Hp as <-.
Qed.

(** The first loop of the create path. *)
Lemma collect_items_spec (ps0 : gmap Z Product.t) cart_items :
  ∀ taken db total_price lst,
  (∀ pid, products db !! pid = take_stock taken pid <$> ps0 !! pid) →
  let A := accepted_from ps0 taken cart_items in
  ∃ db',
    foldl collect_item (db, total_price, lst) cart_items
    = (db', total_price + items_total ps0 A,
       lst ++ ((λ c, mk_item_data (Cart.product_id c) (Cart.quantity c)
                       (unit_price ps0 (Cart.product_id c))) <$> A))
    ∧ (∀ pid,
         products db' !! pid = take_stock (taken ++ A) pid <$> ps0 !! pid)
    ∧ cart db' = cart db
    ∧ orders db' = orders db
    ∧ order_items db' = order_items db.
Proof.
  induction cart_items as [|c rest IH]; intros taken db total_price lst Hinv.
  - exists db. simpl. rewrite Z.add_0_r, !app_nil_r. done.
  - intros A. unfold A.
    rewrite (accepted_from_step ps0 (products db) taken) by done.
    simpl. unfold get_product_by_id.
    destruct (products db !! Cart.product_id c) as [p|] eqn:Hp;
      [destruct (in_stock p c) eqn:Hin|]; [|by apply IH..].
    pose proof (update_stock_take ps0 taken db c p Hinv Hp Hin) as Hinv'.
    destruct (IH (taken ++ [c])
                (update_stock db (Cart.product_id c) (- Cart.quantity c))
                (total_price + Product.price p * Cart.quantity c)
                (lst ++ [mk_item_data (Cart.product_id c) (Cart.quantity c)
                           (Product.price p)]) Hinv')
      as (db' & Hfold & Hinv'' & Hc & Ho & Hi).
    exists db'. rewrite Hfold.
    rewrite (unit_price_take ps0 (products db) taken _ p) by done.
    split_and!.
    + simpl. rewrite <- app_assoc. simpl. do 2 f_equal. lia.
    + intros pid. rewrite Hinv''. by rewrite <- app_assoc.
    + rewrite Hc. unfold update_stock. by destruct (get_product_by_id _ _).
    + rewrite Ho. unfold update_stock. by destruct (get_product_by_id _ _).
    + rewrite Hi. unfold update_stock. by destruct (get_product_by_id _ _).
Qed.

(** The loop of the amend path: totals, stock, and the tables it leaves
    alone. *)
Lemma amend_items_spec eo (ps0 : gmap Z Product.t) cart_items :
  ∀ taken db total_price_add,
  (∀ pid, products db !! pid = take_stock taken pid <$> ps0 !! pid) →
  let A := accepted_from ps0 taken cart_items in
  ∃ db',
    foldl (amend_item eo) (db, total_price_add) cart_items
    = (db', total_price_add + items_total ps0 A)
    ∧ (∀ pid,
         products db' !! pid = take_stock (taken ++ A) pid <$> ps0 !! pid)
    ∧ cart db' = cart db
    ∧ orders db' = orders db.
Proof.
  induction cart_items as [|c rest IH]; intros taken db total_price_add Hinv.
  - exists db. simpl. rewrite Z.add_0_r, !app_nil_r. done.
  - intros A. unfold A.
    rewrite (accepted_from_step ps0 (products db) taken) by done.
    simpl. unfold get_product_by_id.
    destruct (products db !! Cart.product_id c) as [p|] eqn:Hp;
      [destruct (in_stock p c) eqn:Hin|]; [|by apply IH..].
    set (db1 := with_order_items _ db).
    pose proof (update_stock_take ps0 taken db1 c p Hinv Hp Hin) as Hinv'.
    destruct (IH (taken ++ [c])
                (update_stock db1 (Cart.product_id c) (- Cart.quantity c))
                (total_price_add + Product.price p * Cart.quantity c) Hinv')
      as (db' & Hfold & Hinv'' & Hc & Ho).
    exists db'. rewrite Hfold.
    rewrite (unit_price_take ps0 (products db) taken _ p) by done.
    split_and!.
    + simpl. f_equal. lia.
    + intros pid. rewrite Hinv''. by rewrite <- app_assoc.
    + rewrite Hc. unfold update_stock. by destruct (get_product_by_id _ _).
    + rewrite Ho. unfold update_stock. by destruct (get_product_by_id _ _).
Qed.

Lemma take_stock_nil (ps : gmap Z Product.t) :
  ∀ pid : Z, ps !! pid = take_stock [] pid <$> ps !! pid.
Proof.
  intros pid. destruct (ps !! pid) as [[]|]; [|done]. simpl.
  unfold take_stock, reserved. simpl. do 2 f_equal. lia.
Qed.

(** With one entry per product, what a checkout accepts is decided by the
    catalog as it stands when the checkout starts. *)
Lemma accepted_from_distinct ps cart_items : ∀ taken,
  NoDup (Cart.product_id <$> cart_items) →
  (∀ c, c ∈ cart_items → reserved taken (Cart.product_id c) = 0) →
  accepted_from ps taken cart_items
  = filter (λ c, accepts ps c = true) cart_items.
Proof.
  induction cart_items as [|c rest IH]; intros taken Hnd Hres; [done|].
  rewrite fmap_cons in Hnd. apply NoDup_cons in Hnd as [Hc Hnd].
  assert (∀ taken', (∀ c', c' ∈ rest →
                       reserved taken' (Cart.product_id c')
                       = reserved taken (Cart.product_id c')) →
            accepted_from ps taken' rest
            = filter (λ c, accepts ps c = true) rest) as Hrest.
  { intros taken' Hsame. apply IH; [done|]. intros c' Hc'.
    rewrite Hsame by done. apply Hres. by right. }
  simpl. rewrite filter_cons. rewrite (Hres c) by left.
  destruct (ps !! Cart.product_id c) as [p|] eqn:Hp.
  - assert (accepts ps c = in_stock p c) as Hacc
      by (unfold accepts; by rewrite Hp).
    unfold in_stock in Hacc. rewrite Z.sub_0_r.
    destruct (Product.is_available p
              && bool_decide (Cart.quantity c ≤ Product.stock_quantity p)).
    + rewrite decide_True by done. f_equal. apply Hrest. intros c' Hc'.
      rewrite reserved_snoc, decide_False; [lia|].
      intros Heq. apply Hc. rewrite Heq. by apply list_elem_of_fmap_2.
    + rewrite decide_False by (by rewrite Hacc). by apply Hrest.
  - assert (accepts ps c = false) as Hacc
      by (unfold accepts; by rewrite Hp).
    rewrite decide_False by (by rewrite Hacc). by apply Hrest.
Qed.

(** ** Checkout: the create path *)

Lemma most_recent_None rows : most_recent rows = None ↔ rows = [].
Proof.
  split; [|by intros ->]. destruct rows as [|o rows]; [done|]. simpl.
  destruct (most_recent rows); [case_decide|]; done.
Qed.

Lemma most_recent_elem rows o : most_recent rows = Some o → o ∈ rows.
Proof.
  revert o. induction rows as [|o' rows IH]; intros o Ho; [done|].
  simpl in Ho. destruct (most_recent rows) as [o''|].
  - case_decide; injection Ho as <-; [right; by apply IH|left].
  - injection Ho as <-. left.
Qed.

Lemma add_order_items_app order_id lst : ∀ t,
  ∃ rows,
    add_order_items order_id lst t = t ++ rows
    ∧ (λ i, (OrderItem.order_id i, OrderItem.product_id i,
             OrderItem.quantity i, OrderItem.price_at_order i)) <$> rows
      = (λ d, (order_id, d_product_id d, d_quantity d, d_price_at_order d))
          <$> lst.
Proof.
  induction lst as [|d lst IH]; intros t.
  - exists []. by rewrite app_nil_r.
  - unfold add_order_items in *. simpl.
    destruct (IH (t ++ [OrderItem.mk (next_id (OrderItem.id <$> t)) order_id
                          (d_product_id d) (d_quantity d)
                          (d_price_at_order d)]))
      as (rows & -> & Hrows).
    eexists (_ :: rows). rewrite <- app_assoc. split; [done|].
    rewrite !fmap_cons, Hrows. done.
Qed.

(** C3.  Without an order in status [processing], [create_order] creates one:
    its total is the sum of price × quantity over the accepted cart entries
    plus the delivery fee; it records one line item per accepted entry, at
    the product's current price; the stock of every product goes down by
    the accepted quantities; the cart of the user is cleared.  With one
    cart entry per product the accepted entries are those that pass the
    availability and stock check on the catalog as it stands. *)
Theorem create_order_new db u cart_items contact method fee now :
  processing_orders db u = [] →
  let A := accepted (products db) cart_items in
  let r := create_order db u cart_items contact method fee now in
  r.2 = Order.mk (next_id (Order.id <$> orders db)) u
          (items_total (products db) A + fee) processing method fee contact
          now
  ∧ orders r.1 = orders db ++ [r.2]
  ∧ (∃ rows,
       order_items r.1 = order_items db ++ rows
       ∧ (λ i, (OrderItem.order_id i, OrderItem.product_id i,
                OrderItem.quantity i, OrderItem.price_at_order i)) <$> rows
         = (λ c, (Order.id r.2, Cart.product_id c, Cart.quantity c,
                  unit_price (products db) (Cart.product_id c))) <$> A)
  ∧ (∀ pid, products r.1 !! pid = take_stock A pid <$> products db !! pid)
  ∧ cart r.1 = filter (λ c, Cart.user_id c ≠ u) (cart db)
  ∧ (NoDup (Cart.product_id <$> cart_items) →
     A = filter (λ c, accepts (products db) c = true) cart_items).
Proof.
  intros Hnone A r. unfold r, create_order. rewrite Hnone. simpl.
  destruct (collect_items_spec (products db) cart_items [] db 0 []
              (take_stock_nil (products db)))
    as (db' & -> & Hps & Hcart & Hos & His).
  fold (accepted (products db) cart_items). fold A. simpl.
  rewrite Hos.
  destruct (add_order_items_app (next_id (Order.id <$> orders db))
              ((λ c, mk_item_data (Cart.product_id c) (Cart.quantity c)
                       (unit_price (products db) (Cart.product_id c)))
                 <$> A) (order_items db')) as (rows & Hadd & Hrows).
  split_and!; [done|done| |done|by rewrite Hcart|].
  - exists rows. rewrite <- His. split; [done|].
    rewrite Hrows, <- list_fmap_compose. done.
  - intros Hnd. apply accepted_from_distinct; [done|]. done.
Qed.

Lemma create_order_new_witness :
  let r := create_order scenario_A 1 (cart scenario_A) None "pickup" 0 100 in
  Order.total_price r.2 = 38
  ∧ Product.stock_quantity <$> products r.1 !! 1 = Some 2.
Proof.
  intros r.
  destruct (create_order_new scenario_A 1 (cart scenario_A) None "pickup" 0
              100) as (Ho & _ & _ & Hp & _); [reflexivity|].
  unfold r. rewrite Ho, Hp. split; reflexivity.
Defined.

(** Scenario A, by running the model. *)
Example create_order_scenario_A :
  let r := create_order scenario_A 1 (cart scenario_A) None "pickup" 0 100 in
  Order.total_price r.2 = 3 * 10 + 1 * 8 + 0
  ∧ Product.stock_quantity <$> products r.1 !! 1 = Some 2
  ∧ cart r.1 = []
  ∧ order_items r.1 = [OrderItem.mk 1 1 1 3 10; OrderItem.mk 2 1 2 1 8].
Proof. by vm_compute. Qed.

(** ** Checkout: the amend path *)

Lemma update_stock_order_items db product_id delta :
  order_items (update_stock db product_id delta) = order_items db.
Proof. unfold update_stock. by destruct (get_product_by_id _ _). Qed.

Lemma update_stock_orders db product_id delta :
  orders (update_stock db product_id delta) = orders db.
Proof. unfold update_stock. by destruct (get_product_by_id _ _). Qed.

Lemma update_stock_cart db product_id delta :
  cart (update_stock db product_id delta) = cart db.
Proof. unfold update_stock. by destruct (get_product_by_id _ _). Qed.

(** What [add_line] does to a table with unique primary keys: the order has
    one row for the product at that price afterwards, holding the quantity
    of the first such row before plus the quantity added; every other query
    sees the rows it saw before. *)
Lemma add_line_spec o p q price (t : list OrderItem.t) :
  NoDup (OrderItem.id <$> t) →
  let P := λ i, OrderItem.order_id i = o
                ∧ (OrderItem.product_id i, OrderItem.price_at_order i)
                  = (p, price) in
  let t' := add_line o p q price t in
  (∃ row, filter P t' = [row]
          ∧ OrderItem.quantity row = first_quantity (filter P t) + q)
  ∧ (∀ (Q : OrderItem.t → Prop) (HQ : ∀ i, Decision (Q i)),
       (∀ i, Q i → ¬ P i) → filter Q t' = filter Q t)
  ∧ NoDup (OrderItem.id <$> t').
Proof.
  intros Hnd P t'. unfold t', add_line.
  assert (filter (λ i, OrderItem.order_id i = o
                       ∧ OrderItem.product_id i = p
                       ∧ OrderItem.price_at_order i = price) t
          = filter P t) as ->.
  { apply list_filter_iff. intros i. unfold P. split.
    - intros (? & ? & ?). split; [done|]. by f_equal.
    - intros (? & [= ? ?]). done. }
  destruct (filter P t) as [|first_item duplicates] eqn:Hfil.
  - split_and!.
    + eexists. rewrite filter_app, Hfil, filter_cons_True by done.
      split; [done|]. simpl. lia.
    + intros Q ? HQ. rewrite filter_app, filter_cons_False, filter_nil.
      * by rewrite app_nil_r.
      * intros HQn. apply HQ in HQn. apply HQn. by unfold P.
    + rewrite fmap_app. by apply NoDup_snoc_next_id.
  - rewrite (update_delete_coalesce OrderItem.id OrderItem.set_quantity
               (λ _ _, eq_refl) P t first_item duplicates) by done.
    split_and!.
    + eexists. rewrite filter_coalesce, Hfil by done. done.
    + intros Q ? HQ. by apply filter_coalesce_other.
    + eapply sublist_NoDup; [exact Hnd|].
      by apply coalesce_ids_sublist.
Qed.

(** The line items after the loop of the amend path. *)
Lemma amend_items_lines eo (ps0 : gmap Z Product.t) cart_items :
  ∀ taken db total_price_add,
  (∀ pid, products db !! pid = take_stock taken pid <$> ps0 !! pid) →
  NoDup (OrderItem.id <$> order_items db) →
  let A := accepted_from ps0 taken cart_items in
  let db' := (foldl (amend_item eo) (db, total_price_add) cart_items).1 in
  NoDup (OrderItem.id <$> order_items db')
  ∧ filter (λ i, OrderItem.order_id i ≠ Order.id eo) (order_items db')
    = filter (λ i, OrderItem.order_id i ≠ Order.id eo) (order_items db)
  ∧ ∀ p price,
      match filter (λ c, entry_key ps0 c = (p, price)) A with
      | [] =>
          line_items db' (Order.id eo) p price
          = line_items db (Order.id eo) p price
      | added =>
          ∃ row,
            line_items db' (Order.id eo) p price = [row]
            ∧ OrderItem.quantity row
              = first_quantity (line_items db (Order.id eo) p price)
                + sum_quantity Cart.quantity added
      end.
Proof.
  induction cart_items as [|c rest IH];
    intros taken db total_price_add Hinv Hnd.
  { simpl. done. }
  intros A db'. unfold A, db'.
  rewrite (accepted_from_step ps0 (products db) taken) by done.
  simpl. unfold get_product_by_id.
  destruct (products db !! Cart.product_id c) as [pr|] eqn:Hp;
    [destruct (in_stock pr c) eqn:Hin|]; [|by apply IH..].
  set (t1 := add_line _ _ _ _ _).
  set (db1 := update_stock (with_order_items t1 db) _ _).
  destruct (add_line_spec (Order.id eo) (Cart.product_id c)
              (Cart.quantity c) (Product.price pr) (order_items db) Hnd)
    as ((row1 & Hrow1 & Hq1) & Hother & Hnd1).
  fold t1 in Hrow1, Hother, Hnd1.
  assert (order_items db1 = t1) as Hitems1
    by (unfold db1; by rewrite update_stock_order_items).
  destruct (IH (taken ++ [c]) db1
              (total_price_add + Product.price pr * Cart.quantity c))
    as (IH1 & IH2 & IH3).
  { by apply (update_stock_take ps0 taken (with_order_items t1 db) c pr). }
  { by rewrite Hitems1. }
  pose proof (unit_price_take ps0 (products db) taken _ pr Hinv Hp) as Hprice.
  split_and!; [done| |].
  - rewrite IH2, Hitems1. apply Hother. intros i Hi [Ho _]. done.
  - intros p price. specialize (IH3 p price). rewrite filter_cons.
    destruct (decide (entry_key ps0 c = (p, price))) as [Hk|Hne].
    + unfold entry_key in Hk. rewrite <- Hprice in Hk.
      injection Hk as <- <-.
      unfold line_items in *. rewrite Hitems1, Hrow1 in IH3.
      destruct (filter _ (accepted_from ps0 (taken ++ [c]) rest))
        as [|c' added'].
      * exists row1. rewrite IH3. split; [done|].
        etrans; [exact Hq1|]. simpl. lia.
      * destruct IH3 as (row & Hrow & Hq). exists row. split; [done|].
        etrans; [exact Hq|]. simpl in *. lia.
    + assert (line_items db1 (Order.id eo) p price
              = line_items db (Order.id eo) p price) as Hsame.
      { unfold line_items. rewrite Hitems1. apply Hother.
        intros i [_ Hi] [_ Hi']. apply Hne. unfold entry_key.
        rewrite <- Hprice. congruence. }
      by rewrite Hsame in IH3.
Qed.

Lemma accepts_false (ps : gmap Z Product.t) c :
  match ps !! Cart.product_id c with
  | None => True
  | Some p =>
      Product.is_available p = false
      ∨ Product.stock_quantity p < Cart.quantity c
  end →
  accepts ps c = false.
Proof.
  unfold accepts. destruct (ps !! Cart.product_id c) as [p|]; [|done].
  simpl. unfold in_stock. intros [->|Hlt]; [done|].
  rewrite bool_decide_eq_false_2 by lia. apply andb_false_r.
Qed.

Lemma amend_item_skip eo db total_price_add c :
  accepts (products db) c = false →
  amend_item eo (db, total_price_add) c = (db, total_price_add).
Proof.
  unfold accepts, amend_item, get_product_by_id.
  destruct (products db !! Cart.product_id c); simpl; [|done].
  by intros ->.
Qed.

Lemma collect_item_skip db total_price lst c :
  accepts (products db) c = false →
  collect_item (db, total_price, lst) c = (db, total_price, lst).
Proof.
  unfold accepts, collect_item, get_product_by_id.
  destruct (products db !! Cart.product_id c); simpl; [|done].
  by intros ->.
Qed.

Lemma create_order_skip db u l1 e l2 contact method fee now :
  accepts (products (create_order db u l1 contact method fee now).1) e
  = false →
  create_order db u (l1 ++ e :: l2) contact method fee now
  = create_order db u (l1 ++ l2) contact method fee now.
Proof.
  intros Hrej. unfold create_order in *.
  destruct (most_recent (processing_orders db u)) as [eo|].
  - rewrite !foldl_app. simpl.
    destruct (foldl (amend_item eo) (db, 0) l1) as [db1 t1].
    simpl in Hrej. by rewrite amend_item_skip.
  - rewrite !foldl_app. simpl.
    destruct (foldl collect_item (db, 0, []) l1) as [[db1 t1] lst1].
    simpl in Hrej. by rewrite collect_item_skip.
Qed.

(** The catalog [create_order] leaves behind, on either path. *)
Lemma create_order_products db u cart_items contact method fee now pid :
  products (create_order db u cart_items contact method fee now).1 !! pid
  = take_stock (accepted (products db) cart_items) pid <$> products db !! pid.
Proof.
  unfold create_order.
  destruct (most_recent (processing_orders db u)) as [eo|].
  - destruct (amend_items_spec eo (products db) cart_items [] db 0
                (take_stock_nil (products db)))
      as (db' & -> & Hps & _).
    simpl. apply Hps.
  - destruct (collect_items_spec (products db) cart_items [] db 0 []
                (take_stock_nil (products db)))
      as (db' & -> & Hps & _).
    simpl. apply Hps.
Qed.

Lemma accepted_from_elem ps cart_items : ∀ taken c,
  c ∈ accepted_from ps taken cart_items → c ∈ cart_items.
Proof.
  induction cart_items as [|c' rest IH]; intros taken c Hc; [done|].
  simpl in Hc.
  destruct (ps !! Cart.product_id c') as [p|]; [|right; by eapply IH].
  destruct (_ && _); [|right; by eapply IH].
  apply elem_of_cons in Hc as [->|Hc]; [left|right; by eapply IH].
Qed.

Lemma reserved_nonneg taken product_id :
  (∀ c, c ∈ taken → 0 ≤ Cart.quantity c) → 0 ≤ reserved taken product_id.
Proof.
  intros Hq. unfold reserved.
  induction taken as [|c taken IH]; [done|].
  rewrite filter_cons.
  assert (0 ≤ sum_quantity Cart.quantity
                (filter (λ c0, Cart.product_id c0 = product_id) taken))
    by (apply IH; intros; apply Hq; by right).
  assert (0 ≤ Cart.quantity c) by (apply Hq; left).
  case_decide; [|done]. simpl. lia.
Qed.

(** C5.  A cart entry whose product, when the loop of [create_order] comes to
    it, is missing, unavailable, or has less stock than the quantity asked
    for, is skipped on both paths: the call returns the order and the
    database it returns without that entry, so no line item, no change of
    stock and no amount comes from it; [create_order] is a total function,
    no error is raised.  The catalog the entry is checked against is the
    one the entries before it leave behind. *)
Theorem create_order_skips db u l1 e l2 contact method fee now :
  match products (create_order db u l1 contact method fee now).1
          !! Cart.product_id e with
  | None => True
  | Some p =>
      Product.is_available p = false
      ∨ Product.stock_quantity p < Cart.quantity e
  end →
  create_order db u (l1 ++ e :: l2) contact method fee now
  = create_order db u (l1 ++ l2) contact method fee now.
Proof. intros Hrej%accepts_false. by apply create_order_skip. Qed.

Lemma create_order_skips_witness :
  let db := with_cart [Cart.mk 1 1 1 3; Cart.mk 2 1 2 9] scenario_A in
  create_order db 1 [Cart.mk 1 1 1 3; Cart.mk 2 1 2 9] None "pickup" 0 100
  = create_order db 1 [Cart.mk 1 1 1 3] None "pickup" 0 100.
Proof.
  intros db.
  apply (create_order_skips db 1 [Cart.mk 1 1 1 3] (Cart.mk 2 1 2 9) []).
  vm_compute. right. reflexivity.
Defined.

(** The same skipping, read on the catalog at the start of the checkout: a
    product that is missing or unavailable then stays so, and a stock that
    is short then is still short when no entry before has a negative
    quantity. *)
Lemma create_order_skips_from_start db u l1 e l2 contact method fee now :
  match products db !! Cart.product_id e with
  | None => True
  | Some p =>
      Product.is_available p = false
      ∨ (Product.stock_quantity p < Cart.quantity e
         ∧ ∀ c, c ∈ l1 → 0 ≤ Cart.quantity c)
  end →
  create_order db u (l1 ++ e :: l2) contact method fee now
  = create_order db u (l1 ++ l2) contact method fee now.
Proof.
  intros Hrej. apply create_order_skip, accepts_false.
  rewrite create_order_products.
  destruct (products db !! Cart.product_id e) as [p|]; [|done]. simpl.
  destruct Hrej as [?|[Hlt Hq]]; [by left|right].
  assert (0 ≤ reserved (accepted (products db) l1) (Cart.product_id e)).
  { apply reserved_nonneg. intros c Hc. apply Hq.
    by eapply accepted_from_elem. }
  lia.
Qed.

(** Scenario E, by running the model: the order is made of X alone. *)
Example create_order_scenario_E :
  let r := create_order scenario_E 1 (cart scenario_E) None "pickup" 0 100 in
  Order.total_price r.2 = 10
  ∧ order_items r.1 = [OrderItem.mk 1 1 1 1 10]
  ∧ Product.stock_quantity <$> products r.1 !! 3 = Some 0
  ∧ r = create_order scenario_E 1 [Cart.mk 1 1 1 1] None "pickup" 0 100.
Proof. by vm_compute. Qed.

Lemma filter_fmap_preserve {A} (P : A → Prop) `{!∀ x, Decision (P x)}
    (f : A → A) (l : list A) :
  (∀ x, P (f x) ↔ P x) → filter P (f <$> l) = f <$> filter P l.
Proof.
  intros HP. induction l as [|x l IH]; [done|].
  rewrite fmap_cons, !filter_cons, IH.
  destruct (decide (P x)) as [Hx|Hx].
  - by rewrite decide_True by (by apply HP).
  - by rewrite decide_False by (by rewrite HP).
Qed.

Lemma filter_fmap_length_le {A} (P : A → Prop) `{!∀ x, Decision (P x)}
    (f : A → A) (l : list A) :
  (∀ x, P (f x) → P x) →
  (length (filter P (f <$> l)) ≤ length (filter P l))%nat.
Proof.
  intros HP. induction l as [|x l IH]; [done|].
  rewrite fmap_cons, !filter_cons.
  destruct (decide (P (f x))) as [Hx|Hx].
  - rewrite decide_True by auto. simpl. lia.
  - destruct (decide (P x)); simpl; lia.
Qed.

(** C10.  On the amend path the arguments [contact_info], [delivery_method],
    [delivery_fee] (and the clock) are ignored: the call returns the
    existing order with only [total_price] changed, by the sum over the
    accepted entries and without the delivery fee; in the table of orders
    only that total changes, every other column of every order is as
    before.  Stock goes down by the accepted quantities, the cart of the
    user is cleared, and the line items of other orders stay. *)
Theorem create_order_amend_frame db u cart_items contact method fee now eo :
  most_recent (processing_orders db u) = Some eo →
  let A := accepted (products db) cart_items in
  let r := create_order db u cart_items contact method fee now in
  let new_total := Order.total_price eo + items_total (products db) A in
  r.2 = Order.set_total_price new_total eo
  ∧ (Order.contact_info r.2 = Order.contact_info eo
     ∧ Order.delivery_method r.2 = Order.delivery_method eo
     ∧ Order.delivery_fee r.2 = Order.delivery_fee eo
     ∧ Order.status r.2 = Order.status eo)
  ∧ orders r.1
    = (λ o, if decide (Order.id o = Order.id eo)
            then Order.set_total_price new_total o else o) <$> orders db
  ∧ order_frame <$> orders r.1 = order_frame <$> orders db
  ∧ (∀ contact' method' fee' now',
       create_order db u cart_items contact' method' fee' now' = r)
  ∧ (∀ pid, products r.1 !! pid = take_stock A pid <$> products db !! pid)
  ∧ cart r.1 = filter (λ c, Cart.user_id c ≠ u) (cart db)
  ∧ (NoDup (OrderItem.id <$> order_items db) →
     filter (λ i, OrderItem.order_id i ≠ Order.id eo) (order_items r.1)
     = filter (λ i, OrderItem.order_id i ≠ Order.id eo) (order_items db)).
Proof.
  intros Hmr A r new_total.
  assert (∀ contact' method' fee' now',
            create_order db u cart_items contact' method' fee' now' = r)
    as Hignore.
  { intros. unfold r, create_order. by rewrite Hmr. }
  pose proof (amend_items_lines eo (products db) cart_items [] db 0
                (take_stock_nil (products db))) as Hlines.
  destruct (amend_items_spec eo (products db) cart_items [] db 0
              (take_stock_nil (products db)))
    as (db' & Hfold & Hps & Hcart & Hos).
  unfold r, create_order. rewrite Hmr, Hfold. simpl.
  rewrite Hfold in Hlines. simpl in Hlines.
  fold (accepted (products db) cart_items). fold A. fold new_total.
  rewrite Hos, Hcart.
  split_and!; try done.
  - rewrite <- list_fmap_compose. apply list_fmap_ext. intros _ o _.
    simpl. by case_decide.
  - intros Hnd. by destruct (Hlines Hnd) as (_ & ? & _).
Qed.

Lemma create_order_amend_frame_witness :
  let r := create_order scenario_B 1 (cart scenario_B) (Some "@new")
             "delivery" 5 200 in
  Order.total_price r.2 = 38 + 20
  ∧ Order.delivery_method r.2 = "pickup"
  ∧ Order.delivery_fee r.2 = 0
  ∧ Order.contact_info r.2 = None.
Proof.
  intros r.
  destruct (create_order_amend_frame scenario_B 1 (cart scenario_B)
              (Some "@new") "delivery" 5 200
              (Order.mk 7 1 38 processing "pickup" 0 None 100))
    as (Hr & _); [reflexivity|].
  unfold r. rewrite Hr. by vm_compute.
Defined.

(** ** The single active order *)

Lemma create_order_orders db u cart_items contact method fee now :
  ∃ total,
    orders (create_order db u cart_items contact method fee now).1
    = match most_recent (processing_orders db u) with
      | Some eo =>
          (λ o, if decide (Order.id o = Order.id eo)
                then Order.set_total_price total o else o) <$> orders db
      | None =>
          orders db ++
          [Order.mk (next_id (Order.id <$> orders db)) u total processing
             method fee contact now]
      end.
Proof.
  unfold create_order.
  destruct (most_recent (processing_orders db u)) as [eo|].
  - destruct (amend_items_spec eo (products db) cart_items [] db 0
                (take_stock_nil (products db)))
      as (db' & -> & _ & _ & Hos).
    eexists. simpl. by rewrite Hos.
  - destruct (collect_items_spec (products db) cart_items [] db 0 []
                (take_stock_nil (products db)))
      as (db' & -> & _ & _ & Hos & _).
    eexists. simpl. by rewrite Hos.
Qed.

Lemma create_order_preserves_single_active db u cart_items contact method
    fee now :
  single_active_order db →
  single_active_order
    (create_order db u cart_items contact method fee now).1.
Proof.
  intros Hinv u'. unfold processing_orders at 1.
  destruct (create_order_orders db u cart_items contact method fee now)
    as (total & ->).
  destruct (most_recent (processing_orders db u)) as [eo|] eqn:Hmr.
  - rewrite filter_fmap_preserve, length_fmap; [apply Hinv|].
    intros o. by case_decide.
  - apply most_recent_None in Hmr. rewrite filter_app, length_app.
    rewrite filter_cons, filter_nil. simpl.
    destruct (decide (u = u')) as [<-|Hne].
    + unfold processing_orders in Hmr. rewrite Hmr. simpl.
      case_decide; simpl; lia.
    + rewrite decide_False by (intros [? _]; done). simpl.
      specialize (Hinv u'). unfold processing_orders in Hinv. lia.
Qed.

Lemma single_active_order_orders db db' :
  orders db' = orders db → single_active_order db → single_active_order db'.
Proof.
  intros Heq Hinv u. unfold processing_orders. rewrite Heq. apply Hinv.
Qed.

Lemma merge_duplicate_cart_items_orders db u :
  orders (merge_duplicate_cart_items db u) = orders db.
Proof. unfold merge_duplicate_cart_items. by case_decide. Qed.

Lemma add_to_cart_orders db u p q db' row :
  add_to_cart db u p q = Some (db', row) → orders db' = orders db.
Proof.
  unfold add_to_cart. intros Hadd.
  destruct (scalar_one_or_none _) as [[c|]|]; simplify_eq/=;
    apply merge_duplicate_cart_items_orders.
Qed.

Lemma restock_frame (items : list OrderItem.t) : ∀ db,
  let db' :=
    foldl (λ db item, update_stock db (OrderItem.product_id item)
                        (OrderItem.quantity item)) db items in
  orders db' = orders db ∧ cart db' = cart db
  ∧ order_items db' = order_items db.
Proof.
  induction items as [|i items IH]; intros db; [done|].
  simpl. destruct (IH (update_stock db (OrderItem.product_id i)
                         (OrderItem.quantity i))) as (-> & -> & ->).
  by rewrite update_stock_orders, update_stock_cart,
    update_stock_order_items.
Qed.

(** Every request other than setting a status to [processing] keeps the
    invariant. *)
Lemma handle_single_active db r :
  (∀ o, r ≠ UpdateOrderStatus o processing) →
  single_active_order db → single_active_order (handle db r).
Proof.
  intros Hr Hinv. destruct r; simpl.
  - destruct (add_to_cart db user_id product_id quantity) as [[db' row]|]
      eqn:Hadd.
    + eapply single_active_order_orders; [|done].
      by eapply add_to_cart_orders.
    + eapply single_active_order_orders; [|done].
      apply merge_duplicate_cart_items_orders.
  - eapply single_active_order_orders; [|done].
    apply merge_duplicate_cart_items_orders.
  - eapply single_active_order_orders; [|done].
    unfold update_cart_item_quantity. by case_decide.
  - by eapply single_active_order_orders.
  - by eapply single_active_order_orders.
  - assert (single_active_order (merge_duplicate_cart_items db user_id))
      as Hinv'.
    { eapply single_active_order_orders; [|done].
      apply merge_duplicate_cart_items_orders. }
    destruct (filter _ _); [done|].
    by apply create_order_preserves_single_active.
  - intros u. unfold processing_orders, update_order_status. simpl.
    etrans; [|apply (Hinv u)]. apply filter_fmap_length_le.
    intros o. case_decide; [|done]. simpl. intros [_ Hs].
    exfalso. apply (Hr order_id). by rewrite Hs.
  - intros u. unfold processing_orders, delete_order.
    destruct (get_order_by_id db order_id); [|apply Hinv]. simpl.
    destruct (restock_frame
                (filter (λ i, OrderItem.order_id i = order_id)
                   (order_items db)) db) as (-> & _).
    rewrite list_filter_filter. etrans; [|apply (Hinv u)].
    apply filter_length_le. tauto.
  - by eapply single_active_order_orders.
  - by eapply single_active_order_orders.
  - by eapply single_active_order_orders.
  - by eapply single_active_order_orders.
  - by eapply single_active_order_orders.
  - by eapply single_active_order_orders.
  - eapply single_active_order_orders; [|done]. apply update_stock_orders.
  - by eapply single_active_order_orders.
Qed.

Lemma run_single_active rs : ∀ db,
  (∀ o, UpdateOrderStatus o processing ∉ rs) →
  single_active_order db → single_active_order (run db rs).
Proof.
  induction rs as [|r rs IH]; intros db Hrs Hinv; [done|].
  unfold run in *. simpl. apply IH.
  - intros o Ho. apply (Hrs o). by right.
  - apply handle_single_active; [|done]. intros o ->. apply (Hrs o). left.
Qed.

(** C1, as the code has it.  [create_order] keeps the invariant that every
    user has at most one order in status [processing]; when the user has
    one, the call creates no order: it returns that order with its total
    raised by the sum over the accepted entries, the table of orders
    keeps its rows, the order stays the only active one of the user, and
    for every product and price an accepted entry adds to, the order ends
    with one line item holding the quantity of its first such line before
    plus the quantities added.  The invariant then holds at every
    observation point of a run of requests in which no order is set to
    [processing] by [update_order_status]: that request alone can give a
    user a second active order. *)
Theorem create_order_single_active db u cart_items contact method fee now :
  single_active_order db →
  let A := accepted (products db) cart_items in
  let r := create_order db u cart_items contact method fee now in
  single_active_order r.1
  ∧ (∀ eo, eo ∈ processing_orders db u →
       r.2 = Order.set_total_price
               (Order.total_price eo + items_total (products db) A) eo
       ∧ Order.id <$> orders r.1 = Order.id <$> orders db
       ∧ processing_orders r.1 u = [r.2]
       ∧ (NoDup (OrderItem.id <$> order_items db) →
          ∀ p price,
            match filter (λ c, entry_key (products db) c = (p, price)) A with
            | [] =>
                line_items r.1 (Order.id eo) p price
                = line_items db (Order.id eo) p price
            | added =>
                ∃ row,
                  line_items r.1 (Order.id eo) p price = [row]
                  ∧ OrderItem.quantity row
                    = first_quantity (line_items db (Order.id eo) p price)
                      + sum_quantity Cart.quantity added
            end))
  ∧ (∀ rs, (∀ o, UpdateOrderStatus o processing ∉ rs) →
           single_active_order (run db rs)).
Proof.
  intros Hinv A r.
  split; [by apply create_order_preserves_single_active|].
  split; [|intros rs Hrs; by apply run_single_active].
  intros eo Heo.
  assert (processing_orders db u = [eo]) as Hone.
  { specialize (Hinv u).
    destruct (processing_orders db u) as [|o [|o' os]]; simpl in Hinv;
      [by apply elem_of_nil in Heo| |lia].
    by apply list_elem_of_singleton in Heo as ->. }
  pose proof (amend_items_lines eo (products db) cart_items [] db 0
                (take_stock_nil (products db))) as Hlines.
  destruct (amend_items_spec eo (products db) cart_items [] db 0
              (take_stock_nil (products db)))
    as (db' & Hfold & Hps & Hcart & Hos).
  unfold r, create_order. rewrite Hone. simpl. rewrite Hfold. simpl.
  rewrite Hfold in Hlines. simpl in Hlines.
  fold (accepted (products db) cart_items). fold A.
  rewrite Hos. split_and!; [done| | |].
  - rewrite <- list_fmap_compose. apply list_fmap_ext. intros _ o _.
    simpl. by case_decide.
  - unfold processing_orders in *. simpl.
    rewrite filter_fmap_preserve by (intros o; by case_decide).
    rewrite Hone. simpl. by rewrite decide_True.
  - intros Hnd. by destruct (Hlines Hnd) as (_ & _ & ?).
Qed.

Lemma single_active_order_scenario_B : single_active_order scenario_B.
Proof.
  intros u'. unfold processing_orders. simpl.
  rewrite filter_cons, filter_nil. case_decide; simpl; lia.
Qed.

Lemma create_order_single_active_witness :
  let r := create_order scenario_B 1 (cart scenario_B) None "pickup" 0 200 in
  single_active_order r.1
  ∧ Order.id r.2 = 7
  ∧ Order.total_price r.2 = 58
  ∧ length (orders r.1) = 1%nat.
Proof.
  intros r.
  destruct (create_order_single_active scenario_B 1 (cart scenario_B) None
              "pickup" 0 200 single_active_order_scenario_B) as (Hinv & _).
  split; [exact Hinv|]. by vm_compute.
Defined.

(** Scenario B, by running the model: the total becomes 58, the stock of X
    drops to 0, the line of X holds 5, and there is still one order. *)
Example create_order_scenario_B :
  let r := create_order scenario_B 1 (cart scenario_B) None "pickup" 0 200 in
  Order.total_price r.2 = 38 + 20
  ∧ Product.stock_quantity <$> products r.1 !! 1 = Some 0
  ∧ Order.id <$> orders r.1 = [7]
  ∧ order_items r.1 = [OrderItem.mk 1 7 1 5 10; OrderItem.mk 2 7 2 1 8].
Proof. by vm_compute. Qed.

(** C1 as stated fails: the invariant does not hold at every observation
    point.  After a second checkout, setting the first, completed order back
    to [processing] (a button of the admin's status keyboard) leaves the
    user with two orders in that status. *)
Lemma reopen_breaks_single_active :
  Order.id <$> processing_orders (run empty_db reopen_trace) 1 = [1; 2]
  ∧ ¬ single_active_order (run empty_db reopen_trace).
Proof.
  split; [reflexivity|]. intros Hinv. specialize (Hinv 1).
  vm_compute in Hinv. lia.
Qed.

(** ** Deleting an order *)

Lemma restock_products (items : list OrderItem.t) : ∀ db,
  (∀ i, i ∈ items → 0 ≤ OrderItem.quantity i) →
  (∀ pid p, products db !! pid = Some p → 0 ≤ Product.stock_quantity p) →
  ∀ pid,
    products
      (foldl (λ db item, update_stock db (OrderItem.product_id item)
                           (OrderItem.quantity item)) db items) !! pid
    = (λ p, Product.mk (Product.price p)
              (Product.stock_quantity p
               + sum_quantity OrderItem.quantity
                   (filter (λ i, OrderItem.product_id i = pid) items))
              (Product.is_available p)) <$> products db !! pid.
Proof.
  induction items as [|i items IH]; intros db Hq Hstock pid.
  { simpl. destruct (products db !! pid) as [[]|]; [|done]. simpl.
    do 2 f_equal. lia. }
  assert (0 ≤ OrderItem.quantity i) as Hqi by (apply Hq; left).
  simpl. rewrite IH; [|intros; apply Hq; by right|].
  - rewrite filter_cons. unfold update_stock, get_product_by_id.
    destruct (products db !! OrderItem.product_id i) as [p|] eqn:Hp.
    + unfold update_product. simpl.
      destruct (decide (OrderItem.product_id i = pid)) as [<-|Hne].
      * rewrite lookup_alter_eq, Hp. simpl. specialize (Hstock _ _ Hp).
        unfold Product.values. simpl. do 2 f_equal. lia.
      * by rewrite lookup_alter_ne.
    + destruct (decide (OrderItem.product_id i = pid)) as [<-|Hne]; [|done].
      by rewrite Hp.
  - intros pid' p' Hp'. unfold update_stock, get_product_by_id in Hp'.
    destruct (products db !! OrderItem.product_id i) as [p|] eqn:Hp;
      [|by eapply Hstock].
    unfold update_product in Hp'. simpl in Hp'.
    destruct (decide (OrderItem.product_id i = pid')) as [<-|Hne].
    + rewrite lookup_alter_eq, Hp in Hp'. injection Hp' as <-. simpl. lia.
    + rewrite lookup_alter_ne in Hp' by done. by eapply Hstock.
Qed.

(** X16.  What [delete_order] does: nothing for an unknown order; otherwise the
    order row goes, every product gets the quantities of the order's line
    items back, and the table of line items is left as it was. *)
Lemma delete_order_spec db order_id :
  (get_order_by_id db order_id = None →
   delete_order db order_id = (db, false))
  ∧ (is_Some (get_order_by_id db order_id) →
     let r := delete_order db order_id in
     let items :=
       filter (λ i, OrderItem.order_id i = order_id) (order_items db) in
     r.2 = true
     ∧ orders r.1 = filter (λ o, Order.id o ≠ order_id) (orders db)
     ∧ order_items r.1 = order_items db
     ∧ cart r.1 = cart db
     ∧ ((∀ i, i ∈ items → 0 ≤ OrderItem.quantity i) →
        (∀ pid p, products db !! pid = Some p →
                  0 ≤ Product.stock_quantity p) →
        ∀ pid,
          products r.1 !! pid
          = (λ p, Product.mk (Product.price p)
                    (Product.stock_quantity p
                     + sum_quantity OrderItem.quantity
                         (filter (λ i, OrderItem.product_id i = pid) items))
                    (Product.is_available p)) <$> products db !! pid)).
Proof.
  split; [unfold delete_order; by intros ->|].
  intros [order Ho] r items. unfold r, delete_order. rewrite Ho. simpl.
  fold items.
  destruct (restock_frame items db) as (-> & -> & ->).
  split_and!; try done.
  intros Hq Hstock pid. by apply restock_products.
Qed.

(** C4, at Scenario D.  [delete_order] on order 7 (X quantity 5, Y quantity
    1) returns true, puts 5 back on X and 1 back on Y and removes the order
    row; the two line items of the order are still in the table. *)
Theorem delete_order_keeps_line_items :
  let r := delete_order scenario_D 7 in
  r.2 = true
  ∧ orders r.1 = []
  ∧ Product.stock_quantity <$> products r.1 !! 1 = Some (0 + 5)
  ∧ Product.stock_quantity <$> products r.1 !! 2 = Some (3 + 1)
  ∧ order_items r.1 = [OrderItem.mk 1 7 1 5 10; OrderItem.mk 2 7 2 1 8].
Proof. by vm_compute. Qed.

(** ** Primary keys

    The tables of every state reached from the empty database hold their
    rows in ascending key order, so the keys are unique there. *)

Lemma keyed_NoDup ids : keyed ids → NoDup ids.
Proof.
  induction ids as [|x ids IH]; intros Hk; [constructor|].
  apply StronglySorted_cons in Hk as [Hall Hk]. apply NoDup_cons.
  split; [|by apply IH]. intros Hin. rewrite Forall_forall in Hall.
  specialize (Hall _ Hin). lia.
Qed.

Lemma keyed_sublist l1 l2 : l1 `sublist_of` l2 → keyed l2 → keyed l1.
Proof.
  induction 1 as [|x l1 l2 Hsub IH|x l1 l2 Hsub IH]; intros Hk; [done| |].
  - apply StronglySorted_cons in Hk as [Hall Hk]. apply StronglySorted_cons.
    split; [|by apply IH]. rewrite Forall_forall in *. intros y Hy.
    apply Hall. by eapply elem_of_sublist.
  - apply StronglySorted_cons in Hk as [_ Hk]. by apply IH.
Qed.

Lemma keyed_snoc ids : keyed ids → keyed (ids ++ [next_id ids]).
Proof.
  intros Hk. apply StronglySorted_app. split_and!; [|done|].
  - intros x1 x2 H1 ->%list_elem_of_singleton. by apply next_id_above.
  - apply StronglySorted_cons. split; constructor.
Qed.

Lemma keyed_filter {Row} (row_id : Row → Z) (P : Row → Prop)
    `{!∀ r, Decision (P r)} (t : list Row) :
  keyed (row_id <$> t) → keyed (row_id <$> filter P t).
Proof. apply keyed_sublist, fmap_sublist, sublist_filter. Qed.

Lemma update_delete_ids_sublist {Row} (row_id : Row → Z)
    (set_row_quantity : Z → Row → Row) rest rid q (t : list Row) :
  (∀ q r, row_id (set_row_quantity q r) = row_id r) →
  row_id <$> delete_rows row_id rest
               (update_quantity row_id set_row_quantity rid q t)
  `sublist_of` row_id <$> t.
Proof.
  intros Hid.
  rewrite <- (update_quantity_ids row_id set_row_quantity Hid rid q t).
  apply fmap_sublist, delete_rows_sublist.
Qed.

Lemma merge_groups_ids_sublist {Row K} (row_id row_quantity : Row → Z)
    (set_row_quantity : Z → Row → Row) (groups : list (K * list Row)) :
  (∀ q r, row_id (set_row_quantity q r) = row_id r) →
  ∀ t, row_id <$> merge_groups row_id row_quantity set_row_quantity groups t
       `sublist_of` row_id <$> t.
Proof.
  intros Hid. induction groups as [|[k items] groups IH]; intros t; [done|].
  unfold merge_groups in *. simpl. etrans; [apply IH|].
  unfold merge_group. case_decide; [|done].
  destruct items as [|first_item rest]; [done|].
  by apply update_delete_ids_sublist.
Qed.

Lemma merge_duplicate_cart_items_keyed db u :
  keyed (Cart.id <$> cart db) →
  keyed (Cart.id <$> cart (merge_duplicate_cart_items db u)).
Proof.
  unfold merge_duplicate_cart_items. case_decide; [done|]. simpl.
  by apply keyed_sublist, merge_groups_ids_sublist.
Qed.

Lemma add_to_cart_keyed db u p q db' row :
  add_to_cart db u p q = Some (db', row) →
  keyed (Cart.id <$> cart db) → keyed (Cart.id <$> cart db').
Proof.
  unfold add_to_cart. intros Hadd Hk.
  apply (merge_duplicate_cart_items_keyed db u) in Hk.
  destruct (scalar_one_or_none _) as [[c|]|]; simplify_eq/=.
  - by rewrite update_quantity_ids.
  - rewrite fmap_app. by apply keyed_snoc.
Qed.

Lemma add_line_keyed o p q price (t : list OrderItem.t) :
  keyed (OrderItem.id <$> t) → keyed (OrderItem.id <$> add_line o p q price t).
Proof.
  intros Hk. unfold add_line. destruct (filter _ t) as [|first_item rest].
  - rewrite fmap_app. by apply keyed_snoc.
  - eapply keyed_sublist; [|done]. by apply update_delete_ids_sublist.
Qed.

Lemma amend_items_keyed eo cart_items : ∀ db total_price_add,
  keyed (OrderItem.id <$> order_items db) →
  keyed (OrderItem.id
           <$> order_items
                 (foldl (amend_item eo) (db, total_price_add) cart_items).1).
Proof.
  induction cart_items as [|c rest IH]; intros db total_price_add Hk; [done|].
  simpl. unfold get_product_by_id.
  destruct (products db !! Cart.product_id c) as [p|]; [|by apply IH].
  destruct (in_stock p c); [|by apply IH].
  apply IH. rewrite update_stock_order_items. simpl. by apply add_line_keyed.
Qed.

Lemma add_order_items_keyed order_id lst : ∀ t,
  keyed (OrderItem.id <$> t) →
  keyed (OrderItem.id <$> add_order_items order_id lst t).
Proof.
  induction lst as [|d lst IH]; intros t Hk; [done|].
  unfold add_order_items in *. simpl. apply IH.
  rewrite fmap_app. by apply keyed_snoc.
Qed.

Lemma create_order_well_keyed db u cart_items contact method fee now :
  well_keyed db →
  well_keyed (create_order db u cart_items contact method fee now).1.
Proof.
  intros (Hc & Ho & Hi). unfold create_order.
  destruct (most_recent (processing_orders db u)) as [eo|].
  - pose proof (amend_items_keyed eo cart_items db 0 Hi) as Hi'.
    destruct (amend_items_spec eo (products db) cart_items [] db 0
                (take_stock_nil (products db)))
      as (db' & Hfold & _ & Hcart & Hos).
    rewrite Hfold in *. simpl in *. split_and!; simpl.
    + rewrite Hcart. by apply keyed_filter.
    + rewrite Hos, <- list_fmap_compose.
      erewrite list_fmap_ext; [exact Ho|]. intros _ o _. simpl.
      by case_decide.
    + done.
  - destruct (collect_items_spec (products db) cart_items [] db 0 []
                (take_stock_nil (products db)))
      as (db' & -> & _ & Hcart & Hos & His).
    split_and!; simpl.
    + rewrite Hcart. by apply keyed_filter.
    + rewrite Hos, fmap_app. by apply keyed_snoc.
    + apply add_order_items_keyed. by rewrite His.
Qed.

Lemma handle_well_keyed db r : well_keyed db → well_keyed (handle db r).
Proof.
  intros (Hc & Ho & Hi). destruct r; simpl.
  - pose proof (merge_duplicate_cart_items_spec db user_id
                  (keyed_NoDup _ Hc)) as (_ & _ & _ & _ & Hos & His).
    destruct (add_to_cart db user_id product_id quantity) as [[db' row]|]
      eqn:Hadd.
    + destruct (add_to_cart_spec db user_id product_id quantity
                  (keyed_NoDup _ Hc))
        as (db'' & row' & Hadd' & _ & _ & _ & _ & _ & Hos' & His').
      rewrite Hadd in Hadd'. injection Hadd' as <- <-.
      split_and!; [by eapply add_to_cart_keyed|by rewrite Hos'
                  |by rewrite His'].
    + split_and!; [by apply merge_duplicate_cart_items_keyed
                  |by rewrite Hos|by rewrite His].
  - pose proof (merge_duplicate_cart_items_spec db user_id
                  (keyed_NoDup _ Hc)) as (_ & _ & _ & _ & Hos & His).
    split_and!; [by apply merge_duplicate_cart_items_keyed
                |by rewrite Hos|by rewrite His].
  - unfold update_cart_item_quantity. case_decide; split_and!; simpl;
      try done; [by apply keyed_filter|by rewrite update_quantity_ids].
  - split_and!; simpl; [by apply keyed_filter|done..].
  - split_and!; simpl; [by apply keyed_filter|done..].
  - assert (well_keyed (merge_duplicate_cart_items db user_id)) as Hwk.
    { pose proof (merge_duplicate_cart_items_spec db user_id
                    (keyed_NoDup _ Hc)) as (_ & _ & _ & _ & Hos & His).
      split_and!; [by apply merge_duplicate_cart_items_keyed
                  |by rewrite Hos|by rewrite His]. }
    destruct (filter _ _); [done|]. by apply create_order_well_keyed.
  - split_and!; simpl; [done| |done]. rewrite <- list_fmap_compose.
    erewrite list_fmap_ext; [exact Ho|]. intros _ o _. simpl. by case_decide.
  - unfold delete_order. destruct (get_order_by_id db order_id); [|done].
    simpl.
    destruct (restock_frame
                (filter (λ i, OrderItem.order_id i = order_id)
                   (order_items db)) db) as (Hos & Hcart & His).
    split_and!; simpl; [by rewrite Hcart| |by rewrite His].
    rewrite Hos. by apply keyed_filter.
  - split_and!; simpl; [done..|].
    eapply keyed_sublist; [|exact Hi]. by apply merge_groups_ids_sublist.
  - done.
  - done.
  - done.
  - done.
  - done.
  - unfold well_keyed.
    by rewrite update_stock_cart, update_stock_orders,
      update_stock_order_items.
  - done.
Qed.

(** Every state reached from the empty database is well keyed: the
    hypotheses on unique primary keys above hold at every observation
    point. *)
Lemma run_well_keyed rs : ∀ db, well_keyed db → well_keyed (run db rs).
Proof.
  induction rs as [|r rs IH]; intros db Hwk; [done|].
  unfold run in *. simpl. by apply IH, handle_well_keyed.
Qed.

Lemma empty_db_well_keyed : well_keyed empty_db.
Proof. repeat split; constructor. Qed.

(** ** The cart, one request after the other

    In a run of requests, each served to its end before the next, no cart
    ever gets a second row for a product: duplicates need two requests
    that interleave. *)

Lemma cart_rows_other db db' u u' p :
  u' ≠ u →
  filter (λ c, Cart.user_id c ≠ u) (cart db')
  = filter (λ c, Cart.user_id c ≠ u) (cart db) →
  cart_rows db' u' p = cart_rows db u' p.
Proof.
  intros Hne Heq. unfold cart_rows.
  assert (∀ l : list Cart.t,
            filter (λ c, Cart.user_id c = u' ∧ Cart.product_id c = p) l
            = filter (λ c, Cart.user_id c = u' ∧ Cart.product_id c = p)
                (filter (λ c, Cart.user_id c ≠ u) l)) as Hfil.
  { intros l. rewrite list_filter_filter. apply list_filter_iff.
    intros c. split; [|tauto]. intros [Hu Hp]. split_and!; congruence. }
  by rewrite (Hfil (cart db')), (Hfil (cart db)), Heq.
Qed.

Lemma add_to_cart_others db u p q db' row :
  NoDup (Cart.id <$> cart db) →
  add_to_cart db u p q = Some (db', row) →
  filter (λ c, Cart.user_id c ≠ u) (cart db')
  = filter (λ c, Cart.user_id c ≠ u) (cart db).
Proof.
  intros Hnd. unfold add_to_cart.
  pose proof (merge_duplicate_cart_items_NoDup db u Hnd) as Hnd1.
  destruct (merge_duplicate_cart_items_spec db u Hnd) as (_ & <- & _).
  set (db1 := merge_duplicate_cart_items db u) in *.
  destruct (filter (λ c, Cart.user_id c = u ∧ Cart.product_id c = p)
              (cart db1)) as [|c [|c' cs]] eqn:Hrows; intros Hadd;
    simplify_eq/=.
  - rewrite filter_app, filter_cons_False, filter_nil by (simpl; tauto).
    by rewrite app_nil_r.
  - rewrite (update_quantity_found Cart.id Cart.set_quantity
               (λ c, Cart.user_id c = u ∧ Cart.product_id c = p)) by done.
    apply filter_coalesce_other; [done|]. intros c' Hc' [Hu _]. done.
Qed.

Lemma create_order_cart db u cart_items contact method fee now :
  cart (create_order db u cart_items contact method fee now).1
  = filter (λ c, Cart.user_id c ≠ u) (cart db).
Proof.
  unfold create_order.
  destruct (most_recent (processing_orders db u)) as [eo|].
  - destruct (amend_items_spec eo (products db) cart_items [] db 0
                (take_stock_nil (products db)))
      as (db' & -> & _ & Hcart & _).
    simpl. by rewrite Hcart.
  - destruct (collect_items_spec (products db) cart_items [] db 0 []
                (take_stock_nil (products db)))
      as (db' & -> & _ & Hcart & _).
    simpl. by rewrite Hcart.
Qed.

Lemma cart_unique_cart db db' :
  cart db' = cart db → cart_unique db → cart_unique db'.
Proof. intros Heq Hu u p. unfold cart_rows. rewrite Heq. apply Hu. Qed.

Lemma merge_duplicate_cart_items_cart_unique db u :
  NoDup (Cart.id <$> cart db) →
  cart_unique db → cart_unique (merge_duplicate_cart_items db u).
Proof.
  intros Hnd Hu u' p. destruct (decide (u' = u)) as [->|Hne].
  - by apply merge_duplicate_cart_items_unique.
  - destruct (merge_duplicate_cart_items_spec db u Hnd) as (_ & Heq & _).
    rewrite (cart_rows_other db _ u u' p Hne Heq). apply Hu.
Qed.

Lemma handle_cart_unique db r :
  well_keyed db → cart_unique db → cart_unique (handle db r).
Proof.
  intros (Hc%keyed_NoDup & _ & _) Hu. destruct r; simpl.
  - destruct (add_to_cart_spec db user_id product_id quantity Hc)
      as (db' & row & Hadd & _ & _ & _ & Huser & _).
    rewrite Hadd. intros u' p. destruct (decide (u' = user_id)) as [->|Hne].
    + apply Huser.
    + rewrite (cart_rows_other db db' user_id u' p Hne); [apply Hu|].
      by eapply add_to_cart_others.
  - by apply merge_duplicate_cart_items_cart_unique.
  - intros u p. etrans; [apply update_cart_item_quantity_rows|apply Hu].
  - intros u p. etrans; [apply remove_from_cart_rows|apply Hu].
  - intros u p. etrans; [apply clear_user_cart_rows|apply Hu].
  - pose proof (merge_duplicate_cart_items_cart_unique db user_id Hc Hu)
      as Hu'.
    destruct (filter _ _); [done|]. intros u p. unfold cart_rows.
    rewrite create_order_cart, list_filter_filter.
    etrans; [|apply (Hu' u p)]. apply filter_length_le. tauto.
  - by eapply cart_unique_cart.
  - eapply cart_unique_cart; [|done]. unfold delete_order.
    destruct (get_order_by_id db order_id); [|done]. simpl.
    by destruct (restock_frame
                   (filter (λ i, OrderItem.order_id i = order_id)
                      (order_items db)) db) as (_ & -> & _).
  - by eapply cart_unique_cart.
  - by eapply cart_unique_cart.
  - by eapply cart_unique_cart.
  - by eapply cart_unique_cart.
  - by eapply cart_unique_cart.
  - by eapply cart_unique_cart.
  - eapply cart_unique_cart; [|done]. apply update_stock_cart.
  - by eapply cart_unique_cart.
Qed.

(** X15.  From the empty database, whatever requests are served one after
    the other, every cart has at most one row per product and the
    primary keys of the cart, the orders and the line items stay in
    ascending order. *)
Lemma run_cart_unique rs :
  cart_unique (run empty_db rs) ∧ well_keyed (run empty_db rs).
Proof.
  assert (∀ db, well_keyed db → cart_unique db →
                cart_unique (run db rs) ∧ well_keyed (run db rs)) as Hrun.
  { induction rs as [|r rs IH]; intros db Hwk Hu; [done|].
    unfold run in *. simpl.
    apply IH; [by apply handle_well_keyed|by apply handle_cart_unique]. }
  apply Hrun; [apply empty_db_well_keyed|]. intros u p. simpl. lia.
Qed.

(** ** Tables with a unique column *)

Section unique_column.
Context {Row K : Type} `{EqDecision K}.
Variable col : Row → K.

Lemma select_unique (t : list Row) k :
  NoDup (col <$> t) →
  (filter (λ r, col r = k) t = [] ∧ k ∉ col <$> t)
  ∨ ∃ r, filter (λ r, col r = k) t = [r] ∧ r ∈ t ∧ col r = k.
Proof.
  induction t as [|r t IH]; intros Hnd.
  { left. split; [done|]. by intros ?%elem_of_nil. }
  rewrite fmap_cons in Hnd. apply NoDup_cons in Hnd as [Hr Hnd].
  rewrite filter_cons. destruct (decide (col r = k)) as [<-|Hne].
  - right. exists r. split_and!; [|left|done].
    f_equal. apply filter_none. intros x Hx Heq. apply Hr.
    rewrite <- Heq. by apply list_elem_of_fmap_2.
  - destruct (IH Hnd) as [[Hnil Hk]|(x & Hx & Hin & Hcol)].
    + left. split; [done|]. rewrite fmap_cons.
      apply not_elem_of_cons. split; [done|done].
    + right. exists x. split_and!; [done|by right|done].
Qed.

Lemma select_snoc (t : list Row) r k :
  filter (λ x, col x = k) (t ++ [r])
  = filter (λ x, col x = k) t ++ (if decide (col r = k) then [r] else []).
Proof. rewrite filter_app, filter_cons. by destruct (decide _). Qed.

Lemma select_absent (t : list Row) k :
  k ∉ col <$> t → filter (λ x, col x = k) t = [].
Proof.
  intros Hk. apply filter_none. intros x Hx Heq. apply Hk.
  rewrite <- Heq. by apply list_elem_of_fmap_2.
Qed.

(** An UPDATE that leaves the column alone, seen through a selection on
    the column. *)
Lemma select_update (P : Row → Prop) `{!∀ r, Decision (P r)}
    (g : Row → Row) (t : list Row) k :
  (∀ r, col (g r) = col r) →
  filter (λ r, col r = k) ((λ r, if decide (P r) then g r else r) <$> t)
  = (λ r, if decide (P r) then g r else r) <$> filter (λ r, col r = k) t.
Proof.
  intros Hg. apply filter_fmap_preserve. intros r.
  destruct (decide (P r)); [by rewrite Hg|done].
Qed.

Lemma update_col (P : Row → Prop) `{!∀ r, Decision (P r)}
    (g : Row → Row) (t : list Row) :
  (∀ r, col (g r) = col r) →
  col <$> ((λ r, if decide (P r) then g r else r) <$> t) = col <$> t.
Proof.
  intros Hg. rewrite <- list_fmap_compose. apply list_fmap_ext.
  intros _ r _. simpl. destruct (decide (P r)); [by rewrite Hg|done].
Qed.
End unique_column.

(** ** Users *)

Lemma users_ok_snoc users tg un fn ln :
  users_ok users → tg ∉ User.telegram_id <$> users →
  users_ok (users ++ [User.mk (next_id (User.id <$> users)) tg un fn ln
                        false]).
Proof.
  intros [Hnd Hk] Htg. split.
  - rewrite fmap_app. apply NoDup_app. split_and!; [done| |].
    + intros x Hx Hx'. simpl in Hx'.
      apply list_elem_of_singleton in Hx' as ->. done.
    + apply NoDup_singleton.
  - rewrite fmap_app. simpl. by apply keyed_snoc.
Qed.

Lemma ban_user_ok users user_id b :
  users_ok users → users_ok (ban_user users user_id b).
Proof.
  intros [Hnd Hk]. unfold users_ok, ban_user.
  by rewrite !(update_col _ _ (User.set_is_banned b)) by done.
Qed.

(** X1.  [get_or_create_user] on a table whose [telegram_id] column is
    unique never raises and keeps the column unique.  It returns the row
    of the telegram id; when the id was registered the table is left as
    it was, so the names passed are dropped and the ban flag stays; when
    it was not, one row that is not banned is added; the rows of other
    telegram ids are found as before.  A second call, with whatever
    names, returns the same row and changes nothing. *)
Theorem get_or_create_user_spec users tg un fn ln :
  users_ok users →
  ∃ users' user,
    get_or_create_user users tg un fn ln = Some (users', user)
    ∧ users_ok users'
    ∧ User.telegram_id user = tg
    ∧ get_user_by_telegram_id users' tg = Some (Some user)
    ∧ (∀ u, get_user_by_telegram_id users tg = Some (Some u) →
            users' = users ∧ user = u)
    ∧ (get_user_by_telegram_id users tg = Some None →
       users' = users ++ [user]
       ∧ user = User.mk (next_id (User.id <$> users)) tg un fn ln false)
    ∧ (∀ tg', tg' ≠ tg →
         get_user_by_telegram_id users' tg'
         = get_user_by_telegram_id users tg')
    ∧ (∀ un' fn' ln',
         get_or_create_user users' tg un' fn' ln' = Some (users', user)).
Proof.
  intros Hok. pose proof Hok as [Hnd Hk].
  unfold get_or_create_user, get_user_by_telegram_id.
  destruct (select_unique User.telegram_id users tg Hnd)
    as [[Hnil Htg]|(u & Hu & Hin & Hcol)].
  - rewrite Hnil. simpl.
    set (user := User.mk _ tg un fn ln false).
    assert (filter (λ u, User.telegram_id u = tg) (users ++ [user]) = [user])
      as Hsel.
    { rewrite select_snoc, Hnil. simpl. by rewrite decide_True. }
    exists (users ++ [user]), user. split_and!; try done.
    + by apply users_ok_snoc.
    + by rewrite Hsel.
    + intros tg' Hne. rewrite select_snoc. simpl.
      rewrite decide_False by done. by rewrite app_nil_r.
    + intros un' fn' ln'. by rewrite Hsel.
  - rewrite Hu. simpl. exists users, u. split_and!; try done.
    + by rewrite Hu.
    + by intros u' [= <-].
    + intros un' fn' ln'. by rewrite Hu.
Qed.

Lemma get_or_create_user_spec_witness :
  ∃ users' user,
    get_or_create_user [User.mk 1 500 (Some "ann") None None true] 500
      (Some "anna") None None = Some (users', user)
    ∧ users' = [User.mk 1 500 (Some "ann") None None true]
    ∧ User.username user = Some "ann"
    ∧ User.is_banned user = true.
Proof.
  destruct (get_or_create_user_spec
              [User.mk 1 500 (Some "ann") None None true] 500
              (Some "anna") None None)
    as (users' & user & Hcall & _ & _ & _ & Hold & _).
  { split; [compute_done|]. repeat constructor. }
  destruct (Hold (User.mk 1 500 (Some "ann") None None true)) as [-> ->];
    [reflexivity|].
  by eexists _, _.
Defined.

Lemma ban_user_lookup users u b :
  users_ok users → u ∈ users →
  get_user_by_telegram_id (ban_user users (User.id u) b) (User.telegram_id u)
  = Some (Some (User.set_is_banned b u)).
Proof.
  intros [Hnd Hk] Hin. unfold get_user_by_telegram_id, ban_user.
  rewrite (select_update User.telegram_id _ (User.set_is_banned b)) by done.
  destruct (select_unique User.telegram_id users (User.telegram_id u) Hnd)
    as [[_ Hnot]|(x & Hx & Hxin & Hcol)].
  { exfalso. apply Hnot. by apply list_elem_of_fmap_2. }
  assert (x = u) as -> by
    by apply (NoDup_fmap_eq User.telegram_id users x u Hnd).
  rewrite Hx. simpl. by rewrite decide_True.
Qed.

(** X2.  [ban_user] sets the flag of the row with that primary key and of
    no other row: the user of the row is then found with the flag set,
    every other telegram id finds the row it found before, and a key that
    no row has changes nothing. *)
Theorem ban_user_spec users u b :
  users_ok users → u ∈ users →
  let users' := ban_user users (User.id u) b in
  users_ok users'
  ∧ get_user_by_telegram_id users' (User.telegram_id u)
    = Some (Some (User.set_is_banned b u))
  ∧ (∀ tg, tg ≠ User.telegram_id u →
       get_user_by_telegram_id users' tg = get_user_by_telegram_id users tg)
  ∧ (∀ user_id, user_id ∉ User.id <$> users →
       ban_user users user_id b = users).
Proof.
  intros Hok Hin. pose proof Hok as [Hnd Hk]. simpl.
  assert (∀ x, x ∈ users → User.id x = User.id u → x = u) as Hid.
  { intros x Hx Heq.
    by apply (NoDup_fmap_eq User.id users x u (keyed_NoDup _ Hk)). }
  split_and!.
  - by apply ban_user_ok.
  - by apply ban_user_lookup.
  - intros tg Hne. unfold get_user_by_telegram_id, ban_user.
    rewrite (select_update User.telegram_id _ (User.set_is_banned b)) by done.
    f_equal. rewrite <- (list_fmap_id (filter _ users)) at 2.
    apply list_fmap_ext. intros _ x Hx%list_elem_of_lookup_2.
    apply list_elem_of_filter in Hx as [Htg Hx]. simpl.
    destruct (decide (User.id x = User.id u)) as [Heq|]; [|done].
    apply Hid in Heq; [|done]. by subst.
  - intros user_id Hnot. unfold ban_user.
    rewrite <- (list_fmap_id users) at 2. apply list_fmap_ext.
    intros _ x Hx%list_elem_of_lookup_2. simpl.
    destruct (decide (User.id x = user_id)) as [<-|]; [|done].
    exfalso. apply Hnot. by apply list_elem_of_fmap_2.
Qed.

Lemma ban_user_spec_witness :
  get_user_by_telegram_id
    (ban_user [User.mk 1 500 None None None false;
               User.mk 2 600 None None None false] 2 true) 600
  = Some (Some (User.mk 2 600 None None None true)).
Proof.
  apply (ban_user_spec
           [User.mk 1 500 None None None false;
            User.mk 2 600 None None None false]
           (User.mk 2 600 None None None false) true).
  - split; [compute_done|]. repeat constructor; lia.
  - right. left.
Defined.

(** ** Bot settings *)

Lemma settings_ok_snoc settings key value :
  settings_ok settings → key ∉ BotSettings.setting_key <$> settings →
  settings_ok
    (settings ++
     [BotSettings.mk (next_id (BotSettings.id <$> settings)) key value]).
Proof.
  intros [Hnd Hk] Hkey. split.
  - rewrite fmap_app. apply NoDup_app. split_and!; [done| |].
    + intros x Hx Hx'. simpl in Hx'.
      apply list_elem_of_singleton in Hx' as ->. done.
    + apply NoDup_singleton.
  - rewrite fmap_app. simpl. by apply keyed_snoc.
Qed.

Lemma settings_ok_update (P : BotSettings.t → Prop)
    `{!∀ s, Decision (P s)} settings value :
  settings_ok settings →
  settings_ok
    ((λ s, if decide (P s) then BotSettings.set_setting_value value s else s)
       <$> settings).
Proof.
  intros [Hnd Hk]. unfold settings_ok.
  by rewrite !(update_col _ _ (BotSettings.set_setting_value value)) by done.
Qed.

Lemma get_setting_snoc settings key value key' :
  key ∉ BotSettings.setting_key <$> settings →
  get_setting
    (settings ++
     [BotSettings.mk (next_id (BotSettings.id <$> settings)) key value]) key'
  = if decide (key' = key) then Some (Some value)
    else get_setting settings key'.
Proof.
  intros Hkey. unfold get_setting. rewrite select_snoc. simpl.
  destruct (decide (key' = key)) as [->|Hne].
  - rewrite decide_True by done. by rewrite select_absent.
  - rewrite decide_False by done. by rewrite app_nil_r.
Qed.

(** Writing the value of the row that holds [key], by a condition [P] that
    picks this row and no other. *)
Lemma get_setting_update (P : BotSettings.t → Prop)
    `{!∀ s, Decision (P s)} settings key value key' :
  settings_ok settings →
  (∀ s, s ∈ settings → P s ↔ BotSettings.setting_key s = key) →
  key ∈ BotSettings.setting_key <$> settings →
  get_setting
    ((λ s, if decide (P s) then BotSettings.set_setting_value value s else s)
       <$> settings) key'
  = if decide (key' = key) then Some (Some value)
    else get_setting settings key'.
Proof.
  intros [Hnd Hk] HP Hkey. unfold get_setting.
  rewrite (select_update BotSettings.setting_key _
             (BotSettings.set_setting_value value)) by done.
  destruct (select_unique BotSettings.setting_key settings key' Hnd)
    as [[Hnil Hnot]|(x & Hx & Hxin & Hcol)].
  - rewrite Hnil. simpl. destruct (decide (key' = key)) as [->|]; done.
  - rewrite Hx. simpl. destruct (decide (P x)) as [HPx|HPx].
    + apply HP in HPx; [|done]. rewrite decide_True by congruence. done.
    + rewrite decide_False; [done|]. intros ->. apply HPx. by apply HP.
Qed.

(** X3.  [update_setting] on a table whose keys are unique never raises
    and keeps them unique; [get_setting] then returns the value written
    for the key and what it returned before for every other key; the
    value of a key that was set is replaced in its row, no row is
    added. *)
Theorem update_setting_get_setting settings key value :
  settings_ok settings →
  ∃ settings',
    update_setting settings key value = Some settings'
    ∧ settings_ok settings'
    ∧ get_setting settings' key = Some (Some value)
    ∧ (∀ key', key' ≠ key →
         get_setting settings' key' = get_setting settings key')
    ∧ (key ∈ BotSettings.setting_key <$> settings →
       BotSettings.id <$> settings' = BotSettings.id <$> settings).
Proof.
  intros Hok. pose proof Hok as [Hnd Hk]. unfold update_setting.
  destruct (select_unique BotSettings.setting_key settings key Hnd)
    as [[Hnil Hnot]|(x & Hx & Hxin & Hcol)].
  - rewrite Hnil. simpl. eexists. split_and!; [done| | | |done].
    + by apply settings_ok_snoc.
    + rewrite get_setting_snoc by done. by rewrite decide_True.
    + intros key' Hne. rewrite get_setting_snoc by done.
      by rewrite decide_False.
  - rewrite Hx. simpl.
    assert (key ∈ BotSettings.setting_key <$> settings) as Hkey.
    { rewrite <- Hcol. by apply list_elem_of_fmap_2. }
    eexists. split_and!; [done| | | |].
    + by apply settings_ok_update.
    + rewrite (get_setting_update _ _ key) by done. by rewrite decide_True.
    + intros key' Hne. rewrite (get_setting_update _ _ key) by done.
      by rewrite decide_False.
    + intros _.
      by rewrite (update_col _ _ (BotSettings.set_setting_value value)).
Qed.

Lemma update_setting_get_setting_witness :
  ∃ settings',
    update_setting [BotSettings.mk 1 "welcome_message" "hello"]
      "welcome_message" "hi" = Some settings'
    ∧ get_setting settings' "welcome_message" = Some (Some "hi").
Proof.
  destruct (update_setting_get_setting
              [BotSettings.mk 1 "welcome_message" "hello"]
              "welcome_message" "hi")
    as (settings' & Hcall & _ & Hget & _).
  { split; [compute_done|]. repeat constructor. }
  by exists settings'.
Defined.

Lemma lower_flag enabled :
  bool_decide (lower (flag enabled) = "true") = enabled.
Proof. by destruct enabled. Qed.

Lemma get_maintenance_mode_get_setting settings :
  settings_ok settings →
  match get_setting settings maintenance_mode with
  | Some (Some value) =>
      get_maintenance_mode settings
      = Some (settings, bool_decide (lower value = "true"))
  | Some None =>
      get_maintenance_mode settings
      = Some (settings ++
              [BotSettings.mk (next_id (BotSettings.id <$> settings))
                 maintenance_mode "false"], false)
      ∧ maintenance_mode ∉ BotSettings.setting_key <$> settings
  | None => False
  end.
Proof.
  intros [Hnd Hk]. unfold get_setting, get_maintenance_mode.
  destruct (select_unique BotSettings.setting_key settings maintenance_mode
              Hnd) as [[Hnil Hnot]|(x & Hx & Hxin & Hcol)].
  - by rewrite Hnil.
  - by rewrite Hx.
Qed.

Lemma get_maintenance_mode_total settings :
  settings_ok settings → is_Some (get_maintenance_mode settings).
Proof.
  intros Hok. pose proof (get_maintenance_mode_get_setting settings Hok) as H.
  destruct (get_setting settings maintenance_mode) as [[value|]|];
    [by rewrite H|by rewrite (proj1 H)|done].
Qed.

Lemma get_maintenance_mode_flag settings enabled :
  settings_ok settings →
  get_setting settings maintenance_mode = Some (Some (flag enabled)) →
  get_maintenance_mode settings = Some (settings, enabled).
Proof.
  intros Hok Hget.
  pose proof (get_maintenance_mode_get_setting settings Hok) as H.
  rewrite Hget in H. by rewrite lower_flag in H.
Qed.

(** X4.  [get_maintenance_mode] on a table whose keys are unique never
    raises.  It answers [True] exactly when the setting is there and its
    value is ['true'] up to the case of the letters; when the setting is
    missing it answers [False] and adds the row with ['false'].  What it
    leaves is a table with unique keys on which a second call gives the
    same answer and changes nothing, and the other settings read as
    before. *)
Theorem get_maintenance_mode_spec settings :
  settings_ok settings →
  ∃ settings' enabled,
    get_maintenance_mode settings = Some (settings', enabled)
    ∧ settings_ok settings'
    ∧ (enabled = true ↔
       ∃ value, get_setting settings maintenance_mode = Some (Some value)
                ∧ lower value = "true")
    ∧ (get_setting settings maintenance_mode = Some None →
       get_setting settings' maintenance_mode = Some (Some "false"))
    ∧ (∀ value, get_setting settings maintenance_mode = Some (Some value) →
                settings' = settings)
    ∧ (∀ key, key ≠ maintenance_mode →
         get_setting settings' key = get_setting settings key)
    ∧ get_maintenance_mode settings' = Some (settings', enabled).
Proof.
  intros Hok. pose proof (get_maintenance_mode_get_setting settings Hok) as H.
  destruct (get_setting settings maintenance_mode) as [[value|]|] eqn:Hget;
    [| |done].
  - exists settings, (bool_decide (lower value = "true")).
    split_and!; try done.
    split.
    + intros Htrue%bool_decide_eq_true. by exists value.
    + intros (v & [= <-] & Hv). by apply bool_decide_eq_true.
  - destruct H as [Hcall Hnot]. eexists _, false. split_and!; [done| | | | | |].
    + by apply settings_ok_snoc.
    + split; [done|]. by intros (v & ? & _).
    + intros _. rewrite get_setting_snoc by done. by rewrite decide_True.
    + by intros value ?.
    + intros key Hne. rewrite get_setting_snoc by done.
      by rewrite decide_False.
    + pose proof (get_maintenance_mode_get_setting _
                    (settings_ok_snoc _ maintenance_mode "false" Hok Hnot))
        as H'.
      rewrite get_setting_snoc, decide_True in H' by done. done.
Qed.

Lemma get_maintenance_mode_spec_witness :
  ∃ settings',
    get_maintenance_mode [BotSettings.mk 1 "maintenance_mode" "True"]
    = Some (settings', true).
Proof.
  destruct (get_maintenance_mode_spec
              [BotSettings.mk 1 "maintenance_mode" "True"])
    as (settings' & enabled & Hcall & _ & Hiff & _).
  { split; [compute_done|]. repeat constructor. }
  exists settings'. rewrite Hcall. do 2 f_equal. apply Hiff.
  by exists "True".
Defined.

Lemma set_maintenance_mode_settings settings enabled :
  settings_ok settings →
  ∃ settings',
    set_maintenance_mode settings enabled = Some settings'
    ∧ settings_ok settings'
    ∧ ∀ key,
        get_setting settings' key
        = if decide (key = maintenance_mode) then Some (Some (flag enabled))
          else get_setting settings key.
Proof.
  intros Hok. pose proof Hok as [Hnd Hk]. unfold set_maintenance_mode.
  destruct (select_unique BotSettings.setting_key settings maintenance_mode
              Hnd) as [[Hnil Hnot]|(x & Hx & Hxin & Hcol)].
  - rewrite Hnil. simpl. eexists. split_and!; [done| |].
    + by apply settings_ok_snoc.
    + intros key. by apply get_setting_snoc.
  - rewrite Hx. simpl.
    assert (maintenance_mode ∈ BotSettings.setting_key <$> settings) as Hkey.
    { rewrite <- Hcol. by apply list_elem_of_fmap_2. }
    assert (∀ s, s ∈ settings →
                 BotSettings.id s = BotSettings.id x
                 ↔ BotSettings.setting_key s = maintenance_mode) as HP.
    { intros s Hs. split.
      - intros Hid.
        by rewrite (NoDup_fmap_eq BotSettings.id settings s x
                      (keyed_NoDup _ Hk) Hs Hxin Hid).
      - intros Hkey'. f_equal.
        apply (NoDup_fmap_eq BotSettings.setting_key settings s x Hnd Hs
                 Hxin). congruence. }
    eexists. split_and!; [done| |].
    + by apply settings_ok_update.
    + intros key. by apply get_setting_update.
Qed.

(** X5.  [set_maintenance_mode] followed by [get_maintenance_mode]: on a
    table whose keys are unique neither raises, the mode read is the mode
    set, reading it changes nothing, and the other settings read as
    before. *)
Theorem set_maintenance_mode_get settings enabled :
  settings_ok settings →
  ∃ settings',
    set_maintenance_mode settings enabled = Some settings'
    ∧ settings_ok settings'
    ∧ get_maintenance_mode settings' = Some (settings', enabled)
    ∧ get_setting settings' maintenance_mode = Some (Some (flag enabled))
    ∧ (∀ key, key ≠ maintenance_mode →
         get_setting settings' key = get_setting settings key).
Proof.
  intros Hok.
  destruct (set_maintenance_mode_settings settings enabled Hok)
    as (settings' & Hset & Hok' & Hget).
  assert (get_setting settings' maintenance_mode
          = Some (Some (flag enabled))) as Hmode.
  { rewrite Hget. by rewrite decide_True. }
  exists settings'. split_and!; [done|done| |done|].
  - by apply get_maintenance_mode_flag.
  - intros key Hne. rewrite Hget. by rewrite decide_False.
Qed.

Lemma set_maintenance_mode_get_witness :
  ∃ settings',
    set_maintenance_mode
      [BotSettings.mk 1 "welcome_message" "hello";
       BotSettings.mk 2 "maintenance_mode" "false"] true = Some settings'
    ∧ get_maintenance_mode settings' = Some (settings', true).
Proof.
  destruct (set_maintenance_mode_get
              [BotSettings.mk 1 "welcome_message" "hello";
               BotSettings.mk 2 "maintenance_mode" "false"] true)
    as (settings' & Hcall & _ & Hget & _).
  { split; [compute_done|]. repeat constructor; lia. }
  by exists settings'.
Defined.

(** ** The guards *)

(** X6.  Once [ban_user] has set the flag of a registered user, no guarded
    handler runs for an update of this user, whatever the handler, the
    maintenance mode and the user's name, the administrator's included:
    the update is answered by one of the two guards and the tables of the
    shop and of the users stay as they are. *)
Theorem guarded_banned {A} admin_username support_username (func : handler A)
    d u username :
  users_ok (users d) → settings_ok (bot_settings d) → u ∈ users d →
  let d0 :=
    mkDatabase (shop d) (ban_user (users d) (User.id u) true)
      (bot_settings d) in
  ∃ d' r,
    guarded admin_username support_username func (User.telegram_id u)
      username d0 = Some (d', r)
    ∧ (r = Banned ∨ r = Maintenance)
    ∧ (is_admin admin_username support_username username = true →
       r = Banned ∧ d' = d0)
    ∧ shop d' = shop d ∧ users d' = users d0.
Proof.
  intros Hu Hs Hin d0.
  pose proof (ban_user_lookup (users d) u true Hu Hin) as Hget.
  assert (∀ d1, users d1 = users d0 →
            check_banned (ran func) (User.telegram_id u) d1
            = Some (d1, Banned)) as Hban.
  { intros d1 Hd1. unfold check_banned. rewrite Hd1. simpl.
    by rewrite Hget. }
  unfold guarded, check_maintenance.
  destruct (is_admin _ _ _).
  { exists d0, Banned. rewrite Hban by done. split_and!; auto. }
  simpl. destruct (get_maintenance_mode_total (bot_settings d) Hs)
    as [[settings' enabled] ->].
  simpl. destruct enabled.
  - eexists _, Maintenance. split_and!; eauto. done.
  - rewrite Hban by done. eexists _, Banned. split_and!; eauto. done.
Qed.

Lemma guarded_banned_witness :
  ∃ d',
    guarded "boss" "help" (λ d, Some (d, 7))  600 (Some "boss")
      (mkDatabase empty_db
         (ban_user [User.mk 1 500 None None None false;
                    User.mk 2 600 None None None false] 2 true) [])
    = Some (d', Banned).
Proof.
  destruct (guarded_banned "boss" "help" (λ d, Some (d, 7))
              (mkDatabase empty_db
                 [User.mk 1 500 None None None false;
                  User.mk 2 600 None None None false] [])
              (User.mk 2 600 None None None false) (Some "boss"))
    as (d' & r & Hcall & _ & Hadmin & _).
  - split; [compute_done|]. repeat constructor; lia.
  - split; [compute_done|]. constructor.
  - right. left.
  - destruct Hadmin as [-> _]; [reflexivity|]. by exists d'.
Defined.

(** X7.  After [set_maintenance_mode], a guarded handler under the mode
    set: with the mode on, an update of anyone but the administrator and
    the support account is answered by the maintenance reply and no handler
    runs, not even the ban check; with the mode off, or for these two
    accounts, the update goes to the ban check alone and the settings are
    not touched. *)
Theorem guarded_maintenance {A} admin_username support_username
    (func : handler A) d enabled telegram_id username :
  settings_ok (bot_settings d) →
  ∃ settings',
    set_maintenance_mode (bot_settings d) enabled = Some settings'
    ∧ let d0 := mkDatabase (shop d) (users d) settings' in
      guarded admin_username support_username func telegram_id username d0
      = if negb (is_admin admin_username support_username username)
           && enabled
        then Some (d0, Maintenance)
        else check_banned (ran func) telegram_id d0.
Proof.
  intros Hs.
  destruct (set_maintenance_mode_settings (bot_settings d) enabled Hs)
    as (settings' & Hset & Hok' & Hmode).
  assert (get_maintenance_mode settings' = Some (settings', enabled))
    as Hget.
  { apply get_maintenance_mode_flag; [done|].
    rewrite Hmode. by rewrite decide_True. }
  exists settings'. split; [done|]. simpl.
  unfold guarded, check_maintenance.
  destruct (is_admin _ _ _); [done|]. simpl. rewrite Hget. simpl.
  by destruct enabled.
Qed.

Lemma guarded_maintenance_witness :
  ∃ settings',
    set_maintenance_mode [BotSettings.mk 1 "maintenance_mode" "false"] true
    = Some settings'
    ∧ guarded "boss" "help" (λ d, Some (d, 7)) 600 (Some "ann")
        (mkDatabase empty_db [] settings')
      = Some (mkDatabase empty_db [] settings', Maintenance).
Proof.
  destruct (guarded_maintenance "boss" "help" (λ d, Some (d, 7))
              (mkDatabase empty_db []
                 [BotSettings.mk 1 "maintenance_mode" "false"])
              true 600 (Some "ann"))
    as (settings' & Hset & Hcall).
  { split; [compute_done|]. repeat constructor. }
  exists settings'. split; [done|]. exact Hcall.
Defined.

(** ** Statistics *)





Lemma create_order_total db u cart_items contact method fee now :
  let sold := items_total (products db) (accepted (products db) cart_items) in
  orders (create_order db u cart_items contact method fee now).1
  = match most_recent (processing_orders db u) with
    | Some eo =>
        (λ o, if decide (Order.id o = Order.id eo)
              then Order.set_total_price (Order.total_price eo + sold) o
              else o) <$> orders db
    | None =>
        orders db ++
        [Order.mk (next_id (Order.id <$> orders db)) u (sold + fee)
           processing method fee contact now]
    end.
Proof.
  unfold create_order.
  destruct (most_recent (processing_orders db u)) as [eo|].
  - destruct (amend_items_spec eo (products db) cart_items [] db 0
                (take_stock_nil (products db)))
      as (db' & -> & _ & _ & Hos).
    simpl. by rewrite Hos.
  - destruct (collect_items_spec (products db) cart_items [] db 0 []
                (take_stock_nil (products db)))
      as (db' & -> & _ & _ & Hos & _).
    simpl. by rewrite Hos.
Qed.



Lemma update_where_id_absent {Row} (row_id : Row → Z) (g : Row → Row)
    (t : list Row) rid :
  rid ∉ row_id <$> t →
  (λ r, if decide (row_id r = rid) then g r else r) <$> t = t.
Proof.
  intros Hnot. rewrite <- (list_fmap_id t) at 2. apply list_fmap_ext.
  intros _ r Hr%list_elem_of_lookup_2. simpl.
  destruct (decide (row_id r = rid)) as [<-|]; [|done].
  exfalso. apply Hnot. by apply list_elem_of_fmap_2.
Qed.

Lemma get_order_by_id_elem db o :
  keyed (Order.id <$> orders db) → o ∈ orders db →
  get_order_by_id db (Order.id o) = Some o.
Proof.
  intros Hk Hin. unfold get_order_by_id.
  destruct (select_unique Order.id (orders db) (Order.id o)
              (keyed_NoDup _ Hk)) as [[_ Hnot]|(x & Hx & Hxin & Hcol)].
  { exfalso. apply Hnot. by apply list_elem_of_fmap_2. }
  rewrite Hx. simpl. f_equal.
  by apply (NoDup_fmap_eq Order.id (orders db) x o (keyed_NoDup _ Hk)).
Qed.

(** X9.  [update_order_status] writes the status, whatever string it is,
    into the row of the order and into no other row; an order id that no
    row has changes nothing and raises nothing.  The order read back is
    the old row with the new status. *)
Theorem update_order_status_get db o status :
  keyed (Order.id <$> orders db) → o ∈ orders db →
  let db' := update_order_status db (Order.id o) status in
  get_order_by_id db' (Order.id o) = Some (Order.set_status status o)
  ∧ (∀ order_id, order_id ≠ Order.id o →
       get_order_by_id db' order_id = get_order_by_id db order_id)
  ∧ Order.id <$> orders db' = Order.id <$> orders db
  ∧ (products db', cart db', order_items db')
    = (products db, cart db, order_items db)
  ∧ (∀ order_id, order_id ∉ Order.id <$> orders db →
       update_order_status db order_id status = db).
Proof.
  intros Hk Hin. simpl. unfold update_order_status, get_order_by_id. simpl.
  split_and!.
  - rewrite (select_update Order.id _ (Order.set_status status)) by done.
    pose proof (get_order_by_id_elem db o Hk Hin) as Hget.
    unfold get_order_by_id in Hget.
    destruct (filter (λ o', Order.id o' = Order.id o) (orders db))
      as [|x xs]; [done|]. simpl in *. injection Hget as ->.
    by rewrite decide_True.
  - intros order_id Hne.
    rewrite (select_update Order.id _ (Order.set_status status)) by done.
    f_equal. rewrite <- (list_fmap_id (filter _ (orders db))) at 2.
    apply list_fmap_ext. intros _ x Hx%list_elem_of_lookup_2.
    apply list_elem_of_filter in Hx as [Hid _]. simpl.
    destruct (decide (Order.id x = Order.id o)); [congruence|done].
  - by rewrite (update_col Order.id _ (Order.set_status status)).
  - done.
  - intros order_id Hnot.
    rewrite (update_where_id_absent Order.id) by done. by destruct db.
Qed.

Lemma update_order_status_get_witness :
  get_order_by_id (update_order_status scenario_D 7 "shipped") 7
  = Some (Order.mk 7 1 58 "shipped" "pickup" 0 None 100).
Proof.
  apply (update_order_status_get scenario_D
           (Order.mk 7 1 58 processing "pickup" 0 None 100) "shipped").
  - repeat constructor.
  - left.
Defined.






(** ** Revenue and profit *)

Section product_model_facts.
Variable model_id : Z → Z.





End product_model_facts.


(** ** The value of a table through the merge loop *)

Section merge_value_facts.
Context {Row K : Type} `{EqDecision K}.
Variable row_id : Row → Z.
Variable row_quantity : Row → Z.
Variable set_row_quantity : Z → Row → Row.
Variable key : Row → K.
Variable sel : Row → Prop.
Context `{!∀ r, Decision (sel r)}.
Variable weight : Row → Z.
Hypothesis row_id_set : ∀ q r, row_id (set_row_quantity q r) = row_id r.
Hypothesis set_same : ∀ r, set_row_quantity (row_quantity r) r = r.
Hypothesis key_set : ∀ q r, key (set_row_quantity q r) = key r.
Hypothesis sel_set : ∀ q r, sel (set_row_quantity q r) ↔ sel r.
Hypothesis quantity_set : ∀ q r, row_quantity (set_row_quantity q r) = q.
Hypothesis weight_set : ∀ q r, weight (set_row_quantity q r) = weight r.
Hypothesis weight_key : ∀ r r', key r = key r' → weight r = weight r'.

Local Abbreviation weighted := (weighted row_quantity weight).
Local Abbreviation sum_quantity := (sum_quantity row_quantity).
Local Abbreviation coalesce := (coalesce set_row_quantity).
Local Abbreviation merge_groups :=
  (merge_groups row_id row_quantity set_row_quantity).

Lemma weighted_cons r rows :
  weighted (r :: rows) = row_quantity r * weight r + weighted rows.
Proof. done. Qed.

Lemma weighted_split (P Q : Row → Prop) `{!∀ r, Decision (P r)}
    `{!∀ r, Decision (Q r)} w (rows : list Row) :
  (∀ r, P r → Q r) →
  (∀ r, r ∈ rows → P r → weight r = w) →
  weighted (filter Q rows)
  = weighted (filter Q (filter (λ r, ¬ P r) rows))
    + sum_quantity (filter P rows) * w.
Proof.
  intros HPQ. induction rows as [|r rows IH]; intros Hw; [done|].
  assert (∀ r', r' ∈ rows → P r' → weight r' = w) as Hw'.
  { intros r' Hr'. apply Hw. by right. }
  specialize (IH Hw').
  rewrite (filter_cons P), (filter_cons (λ r, ¬ P r)).
  destruct (decide (P r)) as [HP|HP].
  - rewrite decide_False by tauto.
    rewrite filter_cons_True by auto. rewrite weighted_cons, IH.
    rewrite (Hw r) by (done || left).
    change (sum_quantity (r :: filter P rows))
      with (row_quantity r + sum_quantity (filter P rows)). lia.
  - rewrite decide_True by done. rewrite !filter_cons.
    destruct (decide (Q r)); [rewrite !weighted_cons|]; lia.
Qed.

Lemma weighted_coalesce (P Q : Row → Prop) `{!∀ r, Decision (P r)}
    `{!∀ r, Decision (Q r)} q (t : list Row) :
  (∀ r, P r → Q r) →
  (∀ q r, Q (set_row_quantity q r) ↔ Q r) →
  (∀ r r', P r → P r' → weight r = weight r') →
  weighted (filter Q (coalesce P q t))
  = weighted (filter Q t)
    + match filter P t with
      | [] => 0
      | first_item :: _ =>
          (q - sum_quantity (filter P t)) * weight first_item
      end.
Proof.
  intros HPQ HQset Hw. induction t as [|r t IH]; [done|].
  change (coalesce P q (r :: t))
    with (if decide (P r)
          then set_row_quantity q r :: filter (λ r, ¬ P r) t
          else r :: coalesce P q t).
  rewrite (filter_cons P). destruct (decide (P r)) as [HP|HP].
  - rewrite (filter_cons_True Q) by (apply HQset; auto).
    rewrite (filter_cons_True Q r) by auto.
    rewrite !weighted_cons, quantity_set, weight_set.
    rewrite (weighted_split P Q (weight r) t) by (done || auto).
    change (sum_quantity (r :: filter P t))
      with (row_quantity r + sum_quantity (filter P t)). lia.
  - rewrite !(filter_cons Q). destruct (decide (Q r)).
    + rewrite !weighted_cons, IH. lia.
    + apply IH.
Qed.

Lemma weighted_merge_groups (groups : list (K * list Row)) :
  ∀ t : list Row,
  NoDup (row_id <$> t) →
  NoDup groups.*1 →
  (∀ k its, (k, its) ∈ groups → its = filter (λ r, sel r ∧ key r = k) t) →
  weighted (filter sel (merge_groups groups t)) = weighted (filter sel t).
Proof.
  induction groups as [|[k0 its0] groups IH]; intros t Hnd Hkeys Hits;
    [done|].
  rewrite fmap_cons in Hkeys. apply NoDup_cons in Hkeys as [Hk0 Hkeys].
  assert (∀ q r, (sel (set_row_quantity q r) ∧ key (set_row_quantity q r) = k0)
                 ↔ (sel r ∧ key r = k0)) as HPset.
  { intros q r. by rewrite key_set, sel_set. }
  assert (merge_groups ((k0, its0) :: groups) t
          = merge_groups groups
              (coalesce (λ r, sel r ∧ key r = k0)
                 (sum_quantity (filter (λ r, sel r ∧ key r = k0) t)) t))
    as ->.
  { unfold merge_groups. simpl. f_equal.
    rewrite (Hits k0 its0) by left.
    by apply (merge_group_coalesce row_id row_quantity set_row_quantity
                row_id_set set_same (λ r, sel r ∧ key r = k0)). }
  set (t1 := coalesce _ _ t).
  rewrite IH.
  - unfold t1.
    rewrite (weighted_coalesce (λ r, sel r ∧ key r = k0) sel).
    + destruct (filter _ t); lia.
    + tauto.
    + done.
    + intros r r' [_ Hr] [_ Hr']. apply weight_key. by rewrite Hr, Hr'.
  - eapply sublist_NoDup; [done|]. by apply coalesce_ids_sublist.
  - done.
  - intros k its Hin. unfold t1.
    rewrite (filter_coalesce_other set_row_quantity _ HPset).
    + apply Hits. by right.
    + intros r [_ Hr] [_ Hr0]. apply Hk0. rewrite <- Hr0, Hr.
      by eapply elem_of_keys.
Qed.

(** The loop keeps the value of the rows it works on. *)
Lemma weighted_merge_items (t : list Row) :
  NoDup (row_id <$> t) →
  weighted (filter sel (merge_groups (group_items key (filter sel t)) t))
  = weighted (filter sel t).
Proof.
  intros Hnd.
  destruct (group_items_grouping key (filter sel t)) as (Hkeys & Hmem & _).
  apply weighted_merge_groups; [done|done|].
  intros k its Hin. destruct (Hmem _ _ Hin) as [-> _].
  rewrite list_filter_filter. apply list_filter_iff. intros r. tauto.
Qed.
End merge_value_facts.

(** ** Repairing the orders *)

Lemma insert_by_created_at_perm o sorted :
  insert_by_created_at o sorted ≡ₚ o :: sorted.
Proof.
  induction sorted as [|o' sorted IH]; [done|]. simpl.
  destruct (decide _); [|done]. rewrite IH. apply Permutation_swap.
Qed.

Lemma order_by_created_at_desc_perm rows :
  order_by_created_at_desc rows ≡ₚ rows.
Proof.
  induction rows as [|o rows IH]; [done|]. unfold order_by_created_at_desc.
  simpl. rewrite insert_by_created_at_perm. by apply Permutation_skip.
Qed.

Lemma fix_groups_merge groups : ∀ table fixed_count,
  foldl fix_group (table, fixed_count) groups
  = (merge_groups OrderItem.id OrderItem.quantity OrderItem.set_quantity
       groups table,
     (fixed_count
      + length (filter (λ g : Z * Z * list OrderItem.t,
                          (1 < length g.2)%nat) groups))%nat).
Proof.
  induction groups as [|g groups IH]; intros table n.
  { simpl. f_equal. lia. }
  change (foldl fix_group (table, n) (g :: groups))
    with (foldl fix_group (fix_group (table, n) g) groups).
  assert (fix_group (table, n) g
          = (merge_group OrderItem.id OrderItem.quantity
               OrderItem.set_quantity g.2 table,
             if decide (1 < length g.2)%nat then S n else n)) as ->.
  { unfold fix_group, merge_group.
    destruct (decide (1 < length g.2)%nat) as [Hlen|]; [|done].
    destruct g.2; [simpl in Hlen; lia|done]. }
  rewrite IH. rewrite filter_cons. unfold merge_groups. simpl. f_equal.
  destruct (decide (1 < length g.2)%nat); simpl; lia.
Qed.

Lemma fix_order_eq db n o :
  let sel := λ i, OrderItem.order_id i = Order.id o in
  let groups :=
    group_items (λ i, (OrderItem.product_id i, OrderItem.price_at_order i))
      (filter sel (order_items db)) in
  let t' :=
    merge_groups OrderItem.id OrderItem.quantity OrderItem.set_quantity
      groups (order_items db) in
  fix_order (db, n) o
  = (mkDB (models db) (products db) (cart db)
       ((λ o', if decide (Order.id o' = Order.id o)
               then Order.set_total_price
                      (lines_total (filter sel t') + Order.delivery_fee o) o'
               else o') <$> orders db)
       t',
     (n + length (filter (λ g : Z * Z * list OrderItem.t,
                            (1 < length g.2)%nat) groups))%nat).
Proof. simpl. unfold fix_order. by rewrite fix_groups_merge. Qed.

Lemma filter_and_filter {A} (P Q : A → Prop) `{!∀ x, Decision (P x)}
    `{!∀ x, Decision (Q x)} (l : list A) :
  filter (λ x, P x ∧ Q x) l = filter Q (filter P l).
Proof.
  rewrite list_filter_filter. apply list_filter_iff. intros x. tauto.
Qed.

Lemma filter_through {A} (Q R : A → Prop) `{!∀ x, Decision (Q x)}
    `{!∀ x, Decision (R x)} (l l' : list A) :
  (∀ x, Q x → R x) → filter R l = filter R l' → filter Q l = filter Q l'.
Proof.
  intros HQR Heq.
  assert (∀ l0 : list A, filter Q l0 = filter Q (filter R l0)) as Hfil.
  { intros l0. rewrite list_filter_filter. apply list_filter_iff.
    intros x. split; [auto|tauto]. }
  by rewrite (Hfil l), (Hfil l'), Heq.
Qed.

Lemma line_items_items_of db x p price :
  line_items db x p price
  = filter (λ i, (OrderItem.product_id i, OrderItem.price_at_order i)
                 = (p, price)) (items_of db x).
Proof. unfold line_items, items_of. apply filter_and_filter. Qed.

(** What the loop body does to the line items. *)
Lemma fix_order_items db n o :
  keyed (OrderItem.id <$> order_items db) →
  let db' := (fix_order (db, n) o).1 in
  keyed (OrderItem.id <$> order_items db')
  ∧ (∀ x, x ≠ Order.id o → items_of db' x = items_of db x)
  ∧ (∀ p price,
       (length (line_items db' (Order.id o) p price) ≤ 1)%nat
       ∧ sum_quantity OrderItem.quantity (line_items db' (Order.id o) p price)
         = sum_quantity OrderItem.quantity
             (line_items db (Order.id o) p price))
  ∧ lines_total (items_of db' (Order.id o))
    = lines_total (items_of db (Order.id o)).
Proof.
  intros Hk db'. subst db'.
  pose proof (fix_order_eq db n o) as Heq. cbv zeta in Heq. rewrite Heq.
  clear Heq. simpl.
  set (sel := λ i, OrderItem.order_id i = Order.id o).
  set (key := λ i, (OrderItem.product_id i, OrderItem.price_at_order i)).
  pose proof (keyed_NoDup _ Hk) as Hnd.
  destruct (merge_items_spec OrderItem.id OrderItem.quantity
              OrderItem.set_quantity (λ _ _, eq_refl) order_item_set_same
              key sel (λ _ _, eq_refl) (λ _ _, reflexivity _)
              (order_items db) Hnd) as (Hkeys & Hother & Hsub).
  split_and!.
  - by eapply keyed_sublist.
  - intros x Hne. unfold items_of. simpl.
    apply (filter_through _ (λ i, ¬ sel i)); [|done].
    intros i Hi Hsel. unfold sel in Hsel. congruence.
  - intros p price. unfold line_items. simpl.
    change (filter _ (merge_groups _ _ _ _ _))
      with (filter (λ i, sel i ∧ key i = (p, price))
              (merge_groups OrderItem.id OrderItem.quantity
                 OrderItem.set_quantity
                 (group_items key (filter sel (order_items db)))
                 (order_items db))).
    rewrite Hkeys.
    change (filter _ (order_items db))
      with (filter (λ i, sel i ∧ key i = (p, price)) (order_items db)).
    destruct (filter (λ i, sel i ∧ key i = (p, price)) (order_items db))
      as [|first_item rest]; (split; simpl; [lia|lia || done]).
  - unfold items_of. simpl.
    apply (weighted_merge_items OrderItem.id OrderItem.quantity
             OrderItem.set_quantity key sel OrderItem.price_at_order
             (λ _ _, eq_refl) order_item_set_same (λ _ _, eq_refl)
             (λ _ _, reflexivity _) (λ _ _, eq_refl) (λ _ _, eq_refl)).
    + intros r r' Hkey. unfold key in Hkey. congruence.
    + done.
Qed.

Lemma fix_order_frame db n o :
  let db' := (fix_order (db, n) o).1 in
  orders db'
  = (λ o', if decide (Order.id o' = Order.id o)
           then Order.set_total_price
                  (lines_total (items_of db' (Order.id o))
                   + Order.delivery_fee o) o'
           else o') <$> orders db
  ∧ (models db', products db', cart db') = (models db, products db, cart db).
Proof.
  intros db'. subst db'.
  pose proof (fix_order_eq db n o) as Heq. cbv zeta in Heq. by rewrite Heq.
Qed.

Lemma order_frame_same_id (l1 l2 : list Order.t) o1 o2 :
  order_frame <$> l1 = order_frame <$> l2 →
  NoDup (Order.id <$> l2) →
  o1 ∈ l1 → o2 ∈ l2 → Order.id o1 = Order.id o2 →
  order_frame o1 = order_frame o2.
Proof.
  intros Hfr Hnd H1 H2 Hid.
  assert (order_frame o1 ∈ order_frame <$> l2) as Hin.
  { rewrite <- Hfr. by apply list_elem_of_fmap_2. }
  apply list_elem_of_fmap in Hin as (o & Ho & Hoin). rewrite Ho.
  f_equal. apply (NoDup_fmap_eq Order.id l2 o o2 Hnd Hoin H2).
  rewrite <- Hid. by injection Ho.
Qed.

Lemma order_frame_ids (l1 l2 : list Order.t) :
  order_frame <$> l1 = order_frame <$> l2 → Order.id <$> l1 = Order.id <$> l2.
Proof.
  intros Hfr.
  assert (∀ l : list Order.t,
            Order.id <$> l = (λ f, f.1.1.1.1.1.1) <$> (order_frame <$> l))
    as Hid.
  { intros l. rewrite <- list_fmap_compose. by apply list_fmap_ext. }
  by rewrite !Hid, Hfr.
Qed.

Lemma fix_inv_step db0 db n o seen :
  keyed (Order.id <$> orders db0) → o ∈ orders db0 →
  fix_inv db0 db seen →
  fix_inv db0 (fix_order (db, n) o).1 (Order.id o :: seen).
Proof.
  intros Hk0 Ho (Hk & Hfr & Hrest & Hsum & Hval & Hout & Hdone).
  destruct (fix_order_items db n o Hk) as (Hk' & Hoth & Hline & Hval').
  destruct (fix_order_frame db n o) as (Hos & Hrest').
  set (db' := (fix_order (db, n) o).1) in *.
  assert (∀ x p price, x ≠ Order.id o →
            line_items db' x p price = line_items db x p price) as Hlines.
  { intros x p price Hne. by rewrite !line_items_items_of, Hoth. }
  split_and!.
  - done.
  - rewrite Hos, <- Hfr.
    by apply (update_col order_frame _ (Order.set_total_price _)).
  - by rewrite Hrest'.
  - intros x p price. destruct (decide (x = Order.id o)) as [->|Hne].
    + by rewrite (proj2 (Hline p price)).
    + by rewrite Hlines.
  - intros x. destruct (decide (x = Order.id o)) as [->|Hne].
    + by rewrite Hval'.
    + by rewrite Hoth.
  - intros x [Hne Hx]%not_elem_of_cons. rewrite Hoth by done. by apply Hout.
  - intros o' Ho' Hid. rewrite Hos in Ho'.
    apply list_elem_of_fmap in Ho' as (o'' & -> & Ho'').
    destruct (decide (Order.id o'' = Order.id o)) as [Heq|Hne].
    + assert (order_frame o'' = order_frame o) as Hframe.
      { apply (order_frame_same_id (orders db) (orders db0));
          [done|by apply keyed_NoDup|done|done|done]. }
      assert (Order.delivery_fee o'' = Order.delivery_fee o) as Hfee.
      { by injection Hframe. }
      split.
      * unfold total_consistent. simpl. by rewrite Heq, Hfee.
      * intros p price. simpl. rewrite Heq. apply Hline.
    + apply elem_of_cons in Hid as [?|Hid]; [done|].
      destruct (Hdone o'' Ho'' Hid) as [Htot Hlen]. split.
      * unfold total_consistent in *. by rewrite Hoth.
      * intros p price. by rewrite Hlines.
Qed.

Lemma fix_orders_fold db0 os : ∀ db n seen,
  keyed (Order.id <$> orders db0) → (∀ o, o ∈ os → o ∈ orders db0) →
  fix_inv db0 db seen →
  fix_inv db0 (foldl fix_order (db, n) os).1
    (reverse (Order.id <$> os) ++ seen).
Proof.
  induction os as [|o os IH]; intros db n seen Hk0 Hos Hinv; [done|].
  change (foldl fix_order (db, n) (o :: os))
    with (foldl fix_order (fix_order (db, n) o) os).
  pose proof (fix_inv_step db0 db n o seen Hk0 (Hos o ltac:(left)) Hinv)
    as Hstep.
  destruct (fix_order (db, n) o) as [db1 n1]. simpl in Hstep.
  rewrite fmap_cons, reverse_cons, <- app_assoc. simpl.
  apply IH; [done| |done]. intros o' Ho'. apply Hos. by right.
Qed.

Lemma cmd_fix_orders_inv db :
  well_keyed db →
  fix_inv db (cmd_fix_orders db).1 (reverse (Order.id <$> get_all_orders db)).
Proof.
  intros (_ & Hko & Hki). unfold cmd_fix_orders.
  rewrite <- (app_nil_r (reverse _)). apply fix_orders_fold; [done| |].
  - intros o Ho. unfold get_all_orders in Ho.
    by rewrite order_by_created_at_desc_perm in Ho.
  - split_and!; try done. intros o _ Hin. by apply elem_of_nil in Hin.
Qed.

Lemma fix_inv_repaired db0 db :
  fix_inv db0 db (reverse (Order.id <$> get_all_orders db0)) →
  repaired db
  ∧ (keyed (Cart.id <$> cart db0) → keyed (Order.id <$> orders db0) →
     well_keyed db).
Proof.
  intros (Hk & Hfr & Hrest & Hsum & Hval & Hout & Hdone). split.
  - intros o Ho. apply Hdone; [done|]. rewrite elem_of_reverse.
    unfold get_all_orders. rewrite order_by_created_at_desc_perm.
    rewrite <- (order_frame_ids _ _ Hfr). by apply list_elem_of_fmap_2.
  - intros Hkc Hko. split_and!; [|by rewrite (order_frame_ids _ _ Hfr)|done].
    by injection Hrest as _ _ ->.
Qed.



Lemma groups_small (t : list OrderItem.t) x :
  (∀ k, (length (filter (λ i, OrderItem.order_id i = x
                              ∧ (OrderItem.product_id i,
                                 OrderItem.price_at_order i) = k) t)
         ≤ 1)%nat) →
  filter (λ g : Z * Z * list OrderItem.t, (1 < length g.2)%nat)
    (group_items (λ i, (OrderItem.product_id i, OrderItem.price_at_order i))
       (filter (λ i, OrderItem.order_id i = x) t))
  = [].
Proof.
  intros Hsmall. apply filter_none. intros [k its] Hin Hlen. simpl in Hlen.
  destruct (group_items_grouping
              (λ i, (OrderItem.product_id i, OrderItem.price_at_order i))
              (filter (λ i, OrderItem.order_id i = x) t)) as (_ & Hmem & _).
  destruct (Hmem _ _ Hin) as [-> _].
  rewrite <- filter_and_filter in Hlen. specialize (Hsmall k). lia.
Qed.

(** An order without a line in two rows: the loop body recomputes its
    total and does nothing else. *)
Lemma fix_order_clean db n o :
  (∀ p price, (length (line_items db (Order.id o) p price) ≤ 1)%nat) →
  fix_order (db, n) o
  = (with_orders
       ((λ o', if decide (Order.id o' = Order.id o)
               then Order.set_total_price
                      (lines_total (items_of db (Order.id o))
                       + Order.delivery_fee o) o'
               else o') <$> orders db) db,
     n).
Proof.
  intros Hlen. pose proof (fix_order_eq db n o) as Heq. cbv zeta in Heq.
  rewrite Heq. clear Heq.
  rewrite groups_small by (intros [p price]; apply Hlen).
  rewrite (merge_items_unique OrderItem.id OrderItem.quantity
             OrderItem.set_quantity
             (λ i, (OrderItem.product_id i, OrderItem.price_at_order i))
             (λ i, OrderItem.order_id i = Order.id o))
    by (intros [p price]; apply Hlen).
  simpl. f_equal. lia.
Qed.

Lemma fix_order_fixed db n o :
  keyed (Order.id <$> orders db) → o ∈ orders db →
  total_consistent db o →
  (∀ p price, (length (line_items db (Order.id o) p price) ≤ 1)%nat) →
  fix_order (db, n) o = (db, n).
Proof.
  intros Hk Ho Htot Hlen. rewrite fix_order_clean by done. f_equal.
  rewrite <- Htot.
  assert ((λ o', if decide (Order.id o' = Order.id o)
                 then Order.set_total_price (Order.total_price o) o'
                 else o') <$> orders db = orders db) as ->.
  { rewrite <- (list_fmap_id (orders db)) at 2. apply list_fmap_ext.
    intros _ o' Ho'%list_elem_of_lookup_2. simpl.
    destruct (decide (Order.id o' = Order.id o)) as [Heq|]; [|done].
    apply (NoDup_fmap_eq Order.id (orders db) o' o (keyed_NoDup _ Hk)) in Heq;
      [|done|done].
    subst. by destruct o. }
  by destruct db.
Qed.

Lemma fix_orders_fixed db os : ∀ n,
  keyed (Order.id <$> orders db) → repaired db →
  (∀ o, o ∈ os → o ∈ orders db) →
  foldl fix_order (db, n) os = (db, n).
Proof.
  induction os as [|o os IH]; intros n Hk Hrep Hos; [done|].
  change (foldl fix_order (db, n) (o :: os))
    with (foldl fix_order (fix_order (db, n) o) os).
  destruct (Hrep o) as [Htot Hlen]; [apply Hos; left|].
  rewrite fix_order_fixed by (done || apply Hos; left).
  apply IH; [done|done|]. intros o' Ho'. apply Hos. by right.
Qed.

Lemma fix_orders_clean (os : list Order.t) : ∀ db n,
  (∀ o p price, o ∈ os →
     (length (line_items db (Order.id o) p price) ≤ 1)%nat) →
  order_items (foldl fix_order (db, n) os).1 = order_items db
  ∧ (foldl fix_order (db, n) os).2 = n.
Proof.
  induction os as [|o os IH]; intros db n Hlen; [done|].
  change (foldl fix_order (db, n) (o :: os))
    with (foldl fix_order (fix_order (db, n) o) os).
  rewrite fix_order_clean by (intros; apply Hlen; left).
  set (db1 := with_orders _ db).
  destruct (IH db1 n) as [Hitems Hn]; [|by rewrite Hitems, Hn].
  intros o' p price Ho'. unfold line_items. simpl.
  apply Hlen. by right.
Qed.

(** X14.  The count that [cmd_fix_orders] reports and its second run, on
    tables with unique primary keys.  When no order has a product at one
    price in two line items, the count is 0 and the line items are left
    as they are: only totals are written.  On a database where every
    order has the total of its lines and no line twice, the command
    changes nothing; so running it again after a first run changes
    nothing and reports 0. *)
Theorem cmd_fix_orders_again db :
  well_keyed db →
  ((∀ o p price, o ∈ orders db →
      (length (line_items db (Order.id o) p price) ≤ 1)%nat) →
   (cmd_fix_orders db).2 = 0%nat
   ∧ order_items (cmd_fix_orders db).1 = order_items db)
  ∧ (repaired db → cmd_fix_orders db = (db, 0%nat))
  ∧ cmd_fix_orders (cmd_fix_orders db).1 = ((cmd_fix_orders db).1, 0%nat).
Proof.
  intros Hwk.
  assert (∀ db o, o ∈ get_all_orders db → o ∈ orders db) as Hall.
  { intros db0 o Ho. unfold get_all_orders in Ho.
    by rewrite order_by_created_at_desc_perm in Ho. }
  assert (∀ db, well_keyed db → repaired db → cmd_fix_orders db = (db, 0%nat))
    as Hfixed.
  { intros db0 (_ & Hko & _) Hrep. unfold cmd_fix_orders.
    apply fix_orders_fixed; [done|done|apply Hall]. }
  split_and!.
  - intros Hlen.
    destruct (fix_orders_clean (get_all_orders db) db 0%nat) as [Hitems Hn].
    { intros o p price Ho. apply Hlen. by apply Hall. }
    done.
  - by apply Hfixed.
  - destruct (fix_inv_repaired db _ (cmd_fix_orders_inv db Hwk))
      as [Hrep Hwk'].
    destruct Hwk as (Hkc & Hko & Hki). by apply Hfixed; [apply Hwk'|].
Qed.

Lemma cmd_fix_orders_again_witness :
  cmd_fix_orders (cmd_fix_orders scenario_split_line).1
  = ((cmd_fix_orders scenario_split_line).1, 0%nat).
Proof.
  apply (cmd_fix_orders_again scenario_split_line).
  split_and!; repeat constructor; lia.
Defined.

(** ** The quantity dialogue *)

Lemma weighted_one {Row} (row_quantity : Row → Z) (rows : list Row) :
  weighted row_quantity (λ _, 1) rows = sum_quantity row_quantity rows.
Proof.
  induction rows as [|r rows IH]; [done|].
  unfold weighted, sum_quantity in *. simpl. rewrite IH. lia.
Qed.

Lemma cart_total_merge db u :
  NoDup (Cart.id <$> cart db) →
  cart_total (merge_duplicate_cart_items db u) u = cart_total db u.
Proof.
  intros Hnd. rewrite merge_duplicate_cart_items_loop. unfold cart_total.
  simpl. rewrite <- !weighted_one.
  apply (weighted_merge_items Cart.id Cart.quantity Cart.set_quantity
           Cart.product_id (λ c, Cart.user_id c = u) (λ _, 1)
           (λ _ _, eq_refl) cart_set_same (λ _ _, eq_refl)
           (λ _ _, reflexivity _) (λ _ _, eq_refl) (λ _ _, eq_refl)
           (λ _ _ _, eq_refl) _ Hnd).
Qed.

Lemma merge_duplicate_cart_items_models db u :
  models (merge_duplicate_cart_items db u) = models db.
Proof. unfold merge_duplicate_cart_items. by case_decide. Qed.

Lemma order_total_frame db db' u :
  orders db' = orders db → order_items db' = order_items db →
  order_total db' u = order_total db u.
Proof.
  intros Hos Hits. unfold order_total, processing_orders, items_of.
  by rewrite Hos, Hits.
Qed.

Lemma cart_total_update (t : list Cart.t) r q u :
  NoDup (Cart.id <$> t) → r ∈ t → Cart.user_id r = u →
  sum_quantity Cart.quantity
    (filter (λ c, Cart.user_id c = u)
       (update_quantity Cart.id Cart.set_quantity (Cart.id r) q t))
  = sum_quantity Cart.quantity (filter (λ c, Cart.user_id c = u) t)
    + q - Cart.quantity r.
Proof.
  intros Hnd Hin Hu. induction t as [|c t IH]; [by inversion Hin|].
  rewrite fmap_cons in Hnd. apply NoDup_cons in Hnd as [Hfresh Hnd].
  unfold update_quantity in *. rewrite fmap_cons.
  apply elem_of_cons in Hin as [<-|Hin].
  - rewrite decide_True by done.
    rewrite (update_where_id_absent Cart.id) by done.
    rewrite !filter_cons, !decide_True by done.
    unfold sum_quantity. simpl. lia.
  - rewrite decide_False.
    2:{ intros Heq. apply Hfresh. rewrite Heq.
        by apply list_elem_of_fmap_2. }
    rewrite !filter_cons. specialize (IH Hnd Hin).
    destruct (decide (Cart.user_id c = u)); [|done].
    unfold sum_quantity in *. simpl. rewrite IH. lia.
Qed.

(** [add_to_cart] raises the units in the cart of the user by the
    quantity, and never raises on a cart with unique primary keys. *)
Lemma add_to_cart_total db u p q :
  NoDup (Cart.id <$> cart db) →
  ∃ db' row,
    add_to_cart db u p q = Some (db', row)
    ∧ cart_total db' u = cart_total db u + q.
Proof.
  intros Hnd.
  pose proof (merge_duplicate_cart_items_NoDup db u Hnd) as Hnd'.
  pose proof (merge_duplicate_cart_items_unique db u p Hnd) as Hlen.
  pose proof (cart_total_merge db u Hnd) as Htot.
  unfold add_to_cart. set (dbm := merge_duplicate_cart_items db u) in *.
  unfold cart_rows in Hlen.
  destruct (filter _ (cart dbm)) as [|item [|item' rest]] eqn:Hfil;
    [| |simpl in Hlen; lia].
  - simpl. eexists _, _. split; [done|]. unfold cart_total. simpl.
    rewrite filter_app, filter_cons, decide_True, filter_nil by done.
    rewrite sum_quantity_app. fold (cart_total dbm u). rewrite Htot.
    unfold cart_total, sum_quantity. simpl. lia.
  - simpl. eexists _, _. split; [done|]. unfold cart_total. simpl.
    assert (item ∈ filter (λ c, Cart.user_id c = u ∧ Cart.product_id c = p)
                     (cart dbm)) as Hin by (rewrite Hfil; left).
    apply list_elem_of_filter in Hin as [[Hu _] Hin].
    rewrite cart_total_update by done.
    fold (cart_total dbm u). rewrite Htot. unfold cart_total. lia.
Qed.

Section handlers_facts.
Variable model_id : Z → Z.
Variable admin_username support_username : string.
Variable five : Z.
Variable handle_admin_message : UserData.t → action UserData.t.

Local Abbreviation show_product_detail := (show_product_detail model_id).
Local Abbreviation add_quantity := (add_quantity model_id).
Local Abbreviation handle_message :=
  (handle_message model_id admin_username support_username five
     handle_admin_message).

(** What [show_product_detail] comes to when it returns. *)
Lemma show_product_detail_returns d telegram_id product_id user_data d1
    user_data1 :
  NoDup (Cart.id <$> cart (shop d)) →
  show_product_detail telegram_id product_id user_data d
  = (d1, Some user_data1) →
  ∃ user product model,
    get_user_by_telegram_id (users d) telegram_id = Some (Some user)
    ∧ get_product_by_id (shop d) product_id = Some product
    ∧ get_model_by_id (shop d) (model_id product_id) = Some model
    ∧ d1 = with_shop (merge_duplicate_cart_items (shop d) (User.id user)) d
    ∧ let slots :=
        10 - (cart_total (shop d) (User.id user)
              + order_total (shop d) (User.id user)) in
      user_data1
      = if decide (0 < slots)
        then UserData.mk (Some awaiting_product_quantity) (Some product_id)
               (Some slots) (Some (Product.stock_quantity product))
               (UserData.delivery_method user_data)
        else user_data.
Proof.
  intros Hnd. unfold show_product_detail.
  unfold and_then, query, attr, find_user, user_cart, pure, raise.
  destruct (get_product_by_id (shop d) product_id) as [product|] eqn:Hp;
    [|done].
  destruct (get_model_by_id (shop d) (model_id product_id)) as [model|]
    eqn:Hm.
  2:{ destruct (get_user_by_telegram_id (users d) telegram_id)
        as [[user|]|]; [|done|done].
      unfold get_user_cart. simpl.
      by destruct (head _). }
  destruct (get_user_by_telegram_id (users d) telegram_id) as [[user|]|]
    eqn:Hu; [|done|done].
  unfold get_user_cart. simpl.
  set (u := User.id user).
  set (dbm := merge_duplicate_cart_items (shop d) u).
  assert (sum_quantity Cart.quantity
            (filter (λ c, Cart.user_id c = u) (cart dbm))
          = cart_total (shop d) u) as Hcart.
  { by apply cart_total_merge. }
  destruct (merge_duplicate_cart_items_spec (shop d) u Hnd)
    as (_ & _ & _ & _ & Hos & Hits).
  fold dbm in Hos, Hits.
  assert (match head (processing_orders dbm u) with
          | Some active_order =>
              sum_quantity OrderItem.quantity
                (items_of dbm (Order.id active_order))
          | None => 0
          end = order_total (shop d) u) as Horder.
  { by apply order_total_frame. }
  rewrite Hcart.
  destruct (head (processing_orders dbm u)) as [active_order|]; simpl;
    rewrite Horder; intros Hret;
    (exists user, product, model; split_and!; [done..| |]);
    destruct (decide _); by injection Hret as <- <-.
Qed.

(** What the branch for a quantity does once the dialogue is open on a
    product that is in the catalog with its model. *)
Lemma add_quantity_spec d telegram_id quantity user product model product_id
    slots stock delivery_method :
  NoDup (Cart.id <$> cart (shop d)) →
  get_user_by_telegram_id (users d) telegram_id = Some (Some user) →
  get_product_by_id (shop d) product_id = Some product →
  get_model_by_id (shop d) (model_id product_id) = Some model →
  let user_data :=
    UserData.mk (Some awaiting_product_quantity) (Some product_id)
      (Some slots) (Some stock) delivery_method in
  let r := add_quantity telegram_id quantity user_data d in
  if decide (0 < quantity ∧ quantity ≤ slots ∧ quantity ≤ stock)
  then
    r.2 = Some UserData.clear
    ∧ (∃ row,
         add_to_cart (shop d) (User.id user) product_id quantity
         = Some (shop r.1, row))
    ∧ users r.1 = users d ∧ bot_settings r.1 = bot_settings d
  else r = (d, Some user_data).
Proof.
  intros Hnd Hu Hp Hm user_data r. unfold r, add_quantity.
  simpl.
  destruct (decide (quantity ≤ 0)); [by rewrite decide_False by lia|].
  destruct (decide (slots < quantity)); [by rewrite decide_False by lia|].
  destruct (decide (stock < quantity)); [by rewrite decide_False by lia|].
  rewrite decide_True by lia.
  unfold and_then, query, attr, find_user, put_in_cart, pure, raise.
  rewrite Hu. simpl. rewrite Hp, Hm.
  destruct (add_to_cart_total (shop d) (User.id user) product_id quantity Hnd)
    as (db' & row & Hadd & _).
  rewrite Hadd. simpl. split_and!; [done| |done|done]. by exists row.
Qed.

(** X17.  The quantity dialogue of the shop.  When [show_product_detail]
    returns, the user is registered and the product and its model are in
    the catalog; the handler has merged the duplicate rows of the user's
    cart and done nothing else to the database.  With [slots] being 10
    less the units in the cart and in the active order, the dialogue is
    opened only when [slots] is positive.  A message that follows, from
    anyone but the administrator, with a number: when the number is at
    least 1, at most [slots] and at most the stock shown, it is added to
    the cart with [add_to_cart], the units in the cart grow by it, cart
    and active order together hold at most 10 units, and the dialogue is
    closed; any other number changes nothing and leaves the dialogue
    open. *)
Theorem quantity_dialogue d telegram_id username product_id user_data d1
    user_data1 :
  well_keyed (shop d) →
  is_admin admin_username support_username username = false →
  show_product_detail telegram_id product_id user_data d
  = (d1, Some user_data1) →
  ∃ user product,
    get_user_by_telegram_id (users d) telegram_id = Some (Some user)
    ∧ get_product_by_id (shop d) product_id = Some product
    ∧ d1 = with_shop (merge_duplicate_cart_items (shop d) (User.id user)) d
    ∧ let u := User.id user in
      let slots := 10 - (cart_total (shop d) u + order_total (shop d) u) in
      (slots ≤ 0 → user_data1 = user_data)
      ∧ (0 < slots →
         UserData.state user_data1 = Some awaiting_product_quantity
         ∧ ∀ text quantity now,
             let r :=
               handle_message telegram_id username text (Some quantity) now
                 user_data1 d1 in
             if decide (0 < quantity ∧ quantity ≤ slots
                        ∧ quantity ≤ Product.stock_quantity product)
             then
               r.2 = Some UserData.clear
               ∧ (∃ row,
                    add_to_cart (shop d) u product_id quantity
                    = Some (shop r.1, row))
               ∧ cart_total (shop r.1) u = cart_total (shop d) u + quantity
               ∧ order_total (shop r.1) u = order_total (shop d) u
               ∧ cart_total (shop r.1) u + order_total (shop r.1) u ≤ 10
             else r = (d1, Some user_data1)).
Proof.
  intros (Hkc & _ & _) Hadmin Hshow.
  pose proof (keyed_NoDup _ Hkc) as Hnd.
  destruct (show_product_detail_returns d telegram_id product_id user_data d1
              user_data1 Hnd Hshow)
    as (user & product & model & Hu & Hp & Hm & Hd1 & Hud).
  exists user, product. split_and!; [done..|]. simpl in *.
  set (u := User.id user) in *.
  set (slots := 10 - (cart_total (shop d) u + order_total (shop d) u)) in *.
  split; [intros Hle; by rewrite decide_False in Hud by lia|].
  intros Hslots. rewrite decide_True in Hud by done. subst user_data1.
  split; [done|]. intros text quantity now.
  set (dbm := merge_duplicate_cart_items (shop d) u) in *.
  destruct (merge_duplicate_cart_items_spec (shop d) u Hnd)
    as (_ & _ & _ & Hps & Hos & Hits).
  fold dbm in Hps, Hos, Hits.
  pose proof (merge_duplicate_cart_items_NoDup (shop d) u Hnd) as Hndm.
  fold dbm in Hndm.
  assert (handle_message telegram_id username text (Some quantity) now
            (UserData.mk (Some awaiting_product_quantity) (Some product_id)
               (Some slots) (Some (Product.stock_quantity product))
               (UserData.delivery_method user_data)) d1
          = add_quantity telegram_id quantity
              (UserData.mk (Some awaiting_product_quantity) (Some product_id)
                 (Some slots) (Some (Product.stock_quantity product))
                 (UserData.delivery_method user_data)) d1) as ->.
  { unfold handle_message. cbn [UserData.state].
    rewrite Hadmin, andb_false_r. by rewrite decide_True. }
  pose proof (add_quantity_spec d1 telegram_id quantity user product model
                product_id slots (Product.stock_quantity product)
                (UserData.delivery_method user_data)) as Hadd.
  rewrite Hd1 in Hadd. simpl in Hadd. fold u dbm in Hadd.
  specialize (Hadd Hndm Hu).
  assert (models dbm = models (shop d)) as Hms
    by apply merge_duplicate_cart_items_models.
  unfold get_product_by_id, get_model_by_id in Hadd, Hp, Hm.
  rewrite Hps, Hms in Hadd.
  specialize (Hadd Hp Hm). rewrite Hd1. simpl.
  destruct (decide (0 < quantity ∧ quantity ≤ slots
                    ∧ quantity ≤ Product.stock_quantity product))
    as [Hok|]; [|done].
  destruct Hadd as (Hret & (row & Hcall) & _).
  set (r := add_quantity _ _ _ _) in *.
  destruct (add_to_cart_total dbm u product_id quantity Hndm)
    as (db' & row' & Hcall' & Htot).
  rewrite Hcall in Hcall'. injection Hcall' as <- <-.
  destruct (add_to_cart_spec dbm u product_id quantity Hndm)
    as (db'' & row'' & Hcall'' & _ & _ & _ & _ & _ & Hos' & Hits').
  rewrite Hcall in Hcall''. injection Hcall'' as <- <-.
  assert (cart_total dbm u = cart_total (shop d) u) as Hm'
    by by apply cart_total_merge.
  assert (order_total (shop r.1) u = order_total (shop d) u) as Hord.
  { apply order_total_frame; congruence. }
  assert (add_to_cart (shop d) u product_id quantity = Some (shop r.1, row))
    as Hcall0.
  { rewrite <- Hcall. unfold add_to_cart. fold dbm.
    assert (merge_duplicate_cart_items dbm u = dbm) as ->; [|done].
    rewrite merge_duplicate_cart_items_loop.
    rewrite (merge_items_unique Cart.id Cart.quantity Cart.set_quantity
               Cart.product_id (λ c, Cart.user_id c = u)).
    - by destruct dbm.
    - intros p. apply (merge_duplicate_cart_items_unique (shop d) u p Hnd). }
  split_and!; [done|by exists row|lia|done|lia].
Qed.
End handlers_facts.

Lemma quantity_dialogue_witness :
  let user_data1 :=
    UserData.mk (Some awaiting_product_quantity) (Some 1) (Some 7) (Some 5)
      None in
  show_product_detail (λ _, 1) 500 1 UserData.clear scenario_dialogue
  = (scenario_dialogue, Some user_data1)
  ∧ handle_message (λ _, 1) "boss" "help" 5 (λ user_data, pure user_data)
      500 (Some "ann") "8" (Some 8) 0 user_data1 scenario_dialogue
    = (scenario_dialogue, Some user_data1).
Proof.
  assert (show_product_detail (λ _, 1) 500 1 UserData.clear scenario_dialogue
          = (scenario_dialogue,
             Some (UserData.mk (Some awaiting_product_quantity) (Some 1)
                     (Some 7) (Some 5) None))) as Hshow by reflexivity.
  split; [exact Hshow|].
  destruct (quantity_dialogue (λ _, 1) "boss" "help" 5
              (λ user_data, pure user_data) scenario_dialogue 500
              (Some "ann") 1 UserData.clear scenario_dialogue
              (UserData.mk (Some awaiting_product_quantity) (Some 1)
                 (Some 7) (Some 5) None))
    as (user & product & Hu & Hp & _ & _ & Hopen).
  - split_and!; repeat constructor.
  - reflexivity.
  - exact Hshow.
  - injection Hu as <-. injection Hp as <-.
    destruct Hopen as [_ Hmsg]; [reflexivity|].
    exact (Hmsg "8" 8 0).
Defined.

(** ** Stock that is never negative *)

Lemma stock_nonneg_products db db' :
  products db' = products db → stock_nonneg db → stock_nonneg db'.
Proof. intros Heq Hinv pid p. rewrite Heq. apply Hinv. Qed.

Lemma update_stock_nonneg db product_id delta :
  stock_nonneg db → stock_nonneg (update_stock db product_id delta).
Proof.
  intros Hinv pid p. unfold update_stock, get_product_by_id.
  destruct (products db !! product_id) as [p0|] eqn:Hp0; [|apply Hinv].
  unfold update_product. simpl.
  destruct (decide (product_id = pid)) as [->|Hne].
  - rewrite lookup_alter_eq, Hp0. simpl. intros [= <-]. simpl. lia.
  - rewrite lookup_alter_ne by done. apply Hinv.
Qed.

Lemma amend_items_nonneg eo cart_items : ∀ db total_price_add,
  stock_nonneg db →
  stock_nonneg (foldl (amend_item eo) (db, total_price_add) cart_items).1.
Proof.
  induction cart_items as [|c cart_items IH]; intros db x Hinv; [done|].
  change (foldl (amend_item eo) (db, x) (c :: cart_items))
    with (foldl (amend_item eo) (amend_item eo (db, x) c) cart_items).
  assert (stock_nonneg (amend_item eo (db, x) c).1) as Hstep.
  { unfold amend_item. destruct (get_product_by_id db _); [|done].
    destruct (in_stock _ _); [|done]. simpl.
    by apply update_stock_nonneg. }
  destruct (amend_item eo (db, x) c) as [db1 x1]. by apply IH.
Qed.

Lemma collect_items_nonneg cart_items : ∀ db total_price lst,
  stock_nonneg db →
  stock_nonneg (foldl collect_item (db, total_price, lst) cart_items).1.1.
Proof.
  induction cart_items as [|c cart_items IH]; intros db x lst Hinv; [done|].
  change (foldl collect_item (db, x, lst) (c :: cart_items))
    with (foldl collect_item (collect_item (db, x, lst) c) cart_items).
  assert (stock_nonneg (collect_item (db, x, lst) c).1.1) as Hstep.
  { unfold collect_item. destruct (get_product_by_id db _); [|done].
    destruct (in_stock _ _); [|done]. simpl.
    by apply update_stock_nonneg. }
  destruct (collect_item (db, x, lst) c) as [[db1 x1] lst1]. by apply IH.
Qed.

Lemma create_order_nonneg db u cart_items contact method fee now :
  stock_nonneg db →
  stock_nonneg (create_order db u cart_items contact method fee now).1.
Proof.
  intros Hinv. unfold create_order.
  destruct (most_recent (processing_orders db u)) as [eo|].
  - pose proof (amend_items_nonneg eo cart_items db 0 Hinv) as H.
    destruct (foldl (amend_item eo) (db, 0) cart_items) as [db1 x1].
    by apply (stock_nonneg_products db1).
  - pose proof (collect_items_nonneg cart_items db 0 [] Hinv) as H.
    destruct (foldl collect_item (db, 0, []) cart_items) as [[db1 x1] lst1].
    by apply (stock_nonneg_products db1).
Qed.

Lemma restock_nonneg (items : list OrderItem.t) : ∀ db,
  stock_nonneg db →
  stock_nonneg
    (foldl (λ db item, update_stock db (OrderItem.product_id item)
                         (OrderItem.quantity item)) db items).
Proof.
  induction items as [|i items IH]; intros db Hinv; [done|].
  simpl. by apply IH, update_stock_nonneg.
Qed.

Lemma add_to_cart_products db u p q db' row :
  add_to_cart db u p q = Some (db', row) → products db' = products db.
Proof.
  unfold add_to_cart. intros Hadd.
  assert (products (merge_duplicate_cart_items db u) = products db) as Hm.
  { unfold merge_duplicate_cart_items. by case_decide. }
  destruct (scalar_one_or_none _) as [[item|]|]; simplify_eq/=; done.
Qed.

Lemma handle_stock_nonneg db r :
  writes_stock_ok r → stock_nonneg db → stock_nonneg (handle db r).
Proof.
  intros Hr Hinv. destruct r; simpl in *.
  - destruct (add_to_cart db _ _ _) as [[db' row]|] eqn:Hadd.
    + apply (stock_nonneg_products db); [|done].
      by eapply add_to_cart_products.
    + apply (stock_nonneg_products db); [|done].
      unfold merge_duplicate_cart_items. by case_decide.
  - apply (stock_nonneg_products db); [|done].
    unfold merge_duplicate_cart_items. by case_decide.
  - apply (stock_nonneg_products db); [|done].
    unfold update_cart_item_quantity. by case_decide.
  - by apply (stock_nonneg_products db).
  - by apply (stock_nonneg_products db).
  - unfold get_user_cart.
    set (dbm := merge_duplicate_cart_items db user_id).
    assert (stock_nonneg dbm) as Hm.
    { apply (stock_nonneg_products db); [|done].
      unfold dbm, merge_duplicate_cart_items. by case_decide. }
    destruct (filter _ (cart dbm)); [done|]. by apply create_order_nonneg.
  - by apply (stock_nonneg_products db).
  - unfold delete_order. destruct (get_order_by_id db order_id); [|done].
    simpl. apply (stock_nonneg_products
                    (foldl (λ db item,
                              update_stock db (OrderItem.product_id item)
                                (OrderItem.quantity item)) db
                       (filter (λ i, OrderItem.order_id i = order_id)
                          (order_items db)))); [done|].
    by apply restock_nonneg.
  - by apply (stock_nonneg_products db).
  - by apply (stock_nonneg_products db).
  - by apply (stock_nonneg_products db).
  - by apply (stock_nonneg_products db).
  - intros pid p. simpl.
    destruct (decide (next_id (fst <$> map_to_list (products db)) = pid))
      as [<-|Hne].
    + rewrite lookup_insert_eq. intros [= <-]. done.
    + rewrite lookup_insert_ne by done. apply Hinv.
  - intros pid p. unfold update_product. simpl.
    destruct (decide (product_id = pid)) as [->|Hne].
    + rewrite lookup_alter_eq.
      destruct (products db !! pid) as [p0|] eqn:Hp0; [|done]. simpl.
      intros [= <-]. simpl.
      destruct (Product.kw_stock_quantity kw); simpl; [done|].
      by eapply Hinv.
    + rewrite lookup_alter_ne by done. apply Hinv.
  - by apply update_stock_nonneg.
  - intros pid p. simpl. intros Hp%lookup_delete_Some. by eapply Hinv, Hp.
Qed.

(** X18.  Stock is never negative.  From a catalog without negative stock,
    whatever requests are served one after the other, no product ever has
    a negative stock, provided the requests that create a product or set
    its stock carry a stock that is not negative, as the dialogue of the
    administrator demands: checkouts, deletions of orders and restocking
    write stock through [update_stock] only. *)
Theorem run_stock_nonneg rs : ∀ db,
  Forall writes_stock_ok rs → stock_nonneg db → stock_nonneg (run db rs).
Proof.
  induction rs as [|r rs IH]; intros db Hrs Hinv; [done|].
  apply Forall_cons in Hrs as [Hr Hrs]. unfold run in *. simpl.
  by apply IH, handle_stock_nonneg.
Qed.

Lemma run_stock_nonneg_witness :
  stock_nonneg
    (run scenario_A
       [CreateOrder 1 None "pickup" 0 100; UpdateStock 1 (-9);
        DeleteOrder 1]).
Proof.
  apply (run_stock_nonneg
           [CreateOrder 1 None "pickup" 0 100; UpdateStock 1 (-9);
            DeleteOrder 1] scenario_A).
  - repeat constructor.
  - intros pid p Hp. unfold scenario_A in Hp. simpl in Hp.
    apply lookup_insert_Some in Hp as [[_ <-]|[_ Hp]]; [simpl; lia|].
    apply lookup_insert_Some in Hp as [[_ <-]|[_ Hp]]; [simpl; lia|].
    by rewrite lookup_empty in Hp.
Defined.

(** ** Showing the cart *)

Lemma NoDup_unique_key {A K} `{EqDecision K} (f : A → K) (l : list A) :
  (∀ k, (length (filter (λ x, f x = k) l) ≤ 1)%nat) → NoDup (f <$> l).
Proof.
  induction l as [|x l IH]; intros Hlen; [constructor|].
  rewrite fmap_cons. apply NoDup_cons. split.
  - intros Hin. apply list_elem_of_fmap in Hin as (y & Hxy & Hy).
    specialize (Hlen (f x)). rewrite filter_cons_True in Hlen by done.
    assert (y ∈ filter (λ x0, f x0 = f x) l) as Hy'
      by by apply list_elem_of_filter.
    destruct (filter _ l); [by inversion Hy'|simpl in Hlen; lia].
  - apply IH. intros k. specialize (Hlen k). rewrite filter_cons in Hlen.
    destruct (decide (f x = k)); simpl in Hlen; lia.
Qed.

Section cart_display_facts.
Variable model_id : Z → Z.

Local Abbreviation show_cart_item := (show_cart_item model_id).
Local Abbreviation in_catalog := (in_catalog model_id).

Lemma in_catalog_cart db db' c :
  products db' = products db → models db' = models db →
  in_catalog db' c ↔ in_catalog db c.
Proof. intros Hp Hm. unfold in_catalog. by rewrite Hp, Hm. Qed.

(** The loop over a cart with one row per product: the rows whose product
    or model is gone are removed, the others are shown. *)
Lemma show_cart_items_fold (items : list Cart.t) :
  ∀ db items_dict valid_items_data total,
  NoDup (Cart.product_id <$> items) →
  (∀ c, c ∈ items → items_dict !! Cart.product_id c = None) →
  ∃ items_dict',
    foldl show_cart_item (db, items_dict, valid_items_data, total) items
    = (with_cart
         (delete_rows Cart.id (filter (λ c, ¬ in_catalog db c) items)
            (cart db)) db,
       items_dict',
       valid_items_data ++ filter (in_catalog db) items,
       total + items_total (products db) (filter (in_catalog db) items)).
Proof.
  induction items as [|c items IH]; intros db dict valid total Hnd Hdict.
  { exists dict. simpl. rewrite app_nil_r, Z.add_0_r. by destruct db. }
  rewrite fmap_cons in Hnd. apply NoDup_cons in Hnd as [Hc Hnd].
  change (foldl show_cart_item (db, dict, valid, total) (c :: items))
    with (foldl show_cart_item (show_cart_item (db, dict, valid, total) c)
            items).
  rewrite !filter_cons.
  assert (∀ db1, products db1 = products db → models db1 = models db →
            filter (λ c, ¬ in_catalog db1 c) items
            = filter (λ c, ¬ in_catalog db c) items
            ∧ filter (in_catalog db1) items = filter (in_catalog db) items)
    as Hsame.
  { intros db1 Hp Hm. split; apply list_filter_iff; intros x;
      by rewrite (in_catalog_cart db db1). }
  unfold show_cart_item at 2. cbv beta iota zeta.
  unfold get_product_by_id, get_model_by_id.
  destruct (products db !! Cart.product_id c) as [product|] eqn:Hp.
  - destruct (models db !! model_id (Cart.product_id c)) as [model|] eqn:Hm.
    + rewrite (Hdict c) by left.
      assert (in_catalog db c) as Hin.
      { split; [by rewrite Hp|by rewrite Hm]. }
      destruct (decide (in_catalog db c)) as [_|Hn]; [|by destruct Hn].
      destruct (decide (¬ in_catalog db c)) as [Hn|_]; [by destruct Hn|].
      destruct (IH db (<[Cart.product_id c := c]> dict) (valid ++ [c])
                  (total + Product.price product * Cart.quantity c) Hnd)
        as (dict' & ->).
      { intros c' Hc'. rewrite lookup_insert_ne; [apply Hdict; by right|].
        intros Heq. apply Hc. rewrite Heq. by apply list_elem_of_fmap_2. }
      exists dict'. rewrite <- app_assoc. simpl.
      unfold unit_price. rewrite Hp. simpl. f_equal. lia.
    + assert (¬ in_catalog db c) as Hout.
      { intros [_ [? ?]]. congruence. }
      destruct (decide (in_catalog db c)) as [?|_]; [done|].
      destruct (decide (¬ in_catalog db c)) as [_|?]; [|done].
      destruct (IH (remove_from_cart db (Cart.id c)) dict valid total Hnd)
        as (dict' & ->).
      { intros c' Hc'. apply Hdict. by right. }
      exists dict'.
      destruct (Hsame (remove_from_cart db (Cart.id c))) as [-> ->];
        [done|done|]. done.
  - assert (¬ in_catalog db c) as Hout.
    { intros [[? ?] _]. congruence. }
    destruct (decide (in_catalog db c)) as [?|_]; [done|].
    destruct (decide (¬ in_catalog db c)) as [_|?]; [|done].
    destruct (IH (remove_from_cart db (Cart.id c)) dict valid total Hnd)
      as (dict' & ->).
    { intros c' Hc'. apply Hdict. by right. }
    exists dict'.
    destruct (Hsame (remove_from_cart db (Cart.id c))) as [-> ->];
      [done|done|]. done.
Qed.

(** X19.  Showing the cart prunes it.  For a registered user, on a cart
    with unique primary keys, [show_cart_internal] does not raise; after
    merging the duplicate rows of the user it removes exactly the rows of
    the user whose product, or the model of whose product, is no longer
    in the catalog.  The rows it shows are the rows the user's cart then
    holds, each with product and model in the catalog, and the total it
    shows is their price at the catalog prices.  Rows of other users, the
    catalog, the orders and the users are left as they are. *)
Theorem show_cart_internal_spec d telegram_id user :
  keyed (Cart.id <$> cart (shop d)) →
  get_user_by_telegram_id (users d) telegram_id = Some (Some user) →
  let u := User.id user in
  let dbm := merge_duplicate_cart_items (shop d) u in
  ∃ d' valid_items_data total,
    show_cart_internal model_id telegram_id d
    = (d', Some (valid_items_data, total))
    ∧ cart (shop d')
      = filter (λ c, ¬ (Cart.user_id c = u ∧ ¬ in_catalog (shop d) c))
          (cart dbm)
    ∧ valid_items_data = filter (λ c, Cart.user_id c = u) (cart (shop d'))
    ∧ (∀ c, c ∈ valid_items_data → in_catalog (shop d') c)
    ∧ total = items_total (products (shop d)) valid_items_data
    ∧ (models (shop d'), products (shop d'), orders (shop d'),
       order_items (shop d'))
      = (models (shop d), products (shop d), orders (shop d),
         order_items (shop d))
    ∧ users d' = users d ∧ bot_settings d' = bot_settings d.
Proof.
  intros Hk Hu u dbm. pose proof (keyed_NoDup _ Hk) as Hnd.
  pose proof (merge_duplicate_cart_items_NoDup (shop d) u Hnd) as Hndm.
  destruct (merge_duplicate_cart_items_spec (shop d) u Hnd)
    as (_ & _ & _ & Hps & Hos & Hits).
  pose proof (merge_duplicate_cart_items_models (shop d) u) as Hms.
  fold dbm in Hndm, Hps, Hos, Hits, Hms.
  set (items := filter (λ c, Cart.user_id c = u) (cart dbm)).
  assert (NoDup (Cart.product_id <$> items)) as Hpids.
  { apply NoDup_unique_key. intros p. unfold items.
    rewrite <- filter_and_filter.
    apply (merge_duplicate_cart_items_unique (shop d) u p Hnd). }
  assert (∀ c, in_catalog dbm c ↔ in_catalog (shop d) c) as Hcat.
  { intros c. by apply in_catalog_cart. }
  destruct (show_cart_items_fold items dbm ∅ [] 0 Hpids) as (dict' & Hfold).
  { intros c _. apply lookup_empty. }
  set (cart' := delete_rows Cart.id (filter (λ c, ¬ in_catalog dbm c) items)
                  (cart dbm)) in *.
  assert (cart' = filter (λ c, ¬ (Cart.user_id c = u
                                   ∧ ¬ in_catalog (shop d) c)) (cart dbm))
    as Hcart.
  { unfold cart'. rewrite (delete_rows_filter Cart.id).
    apply filter_ext_in. intros r Hr. split.
    - intros Hnot [Hru Hrc]. apply Hnot. apply list_elem_of_fmap_2.
      apply list_elem_of_filter. split; [by rewrite Hcat|].
      by apply list_elem_of_filter.
    - intros Hnot Hin. apply list_elem_of_fmap in Hin as (r' & Hid & Hr').
      apply list_elem_of_filter in Hr' as [Hrc Hr'].
      apply list_elem_of_filter in Hr' as [Hru Hr'].
      assert (r = r') as <-
        by by apply (NoDup_fmap_eq Cart.id (cart dbm) r r' Hndm).
      apply Hnot. split; [done|]. by rewrite <- Hcat. }
  assert (filter (in_catalog dbm) items
          = filter (λ c, Cart.user_id c = u) cart') as Hvalid.
  { rewrite Hcart. unfold items. rewrite !list_filter_filter.
    apply list_filter_iff. intros c. rewrite Hcat.
    destruct (decide (in_catalog (shop d) c)); tauto. }
  assert (∃ d' valid_items_data total,
            show_cart_internal model_id telegram_id d
            = (d', Some (valid_items_data, total))
            ∧ d' = with_shop (with_cart cart' dbm) d
            ∧ valid_items_data = filter (in_catalog dbm) items
            ∧ total = items_total (products dbm)
                        (filter (in_catalog dbm) items))
    as (d' & valid & total & Hcall & -> & -> & ->).
  { unfold show_cart_internal, and_then, find_user, attr, user_cart, pure.
    rewrite Hu. unfold get_user_cart. fold u dbm items.
    destruct items as [|c items'] eqn:Hitems.
    - eexists _, _, _. split; [done|]. split_and!; [|done|done].
      unfold cart'. simpl. by destruct dbm, d.
    - rewrite <- Hitems in *. simpl. rewrite Hfold.
      eexists _, _, _. split; [done|]. split_and!; [done|done|].
      simpl. lia. }
  eexists _, _, _. split; [exact Hcall|]. simpl.
  split_and!; [done|done| |by rewrite Hvalid, Hps|by rewrite Hps, Hos, Hits, Hms
               |done|done].
  intros c [Hc _]%list_elem_of_filter.
  apply (in_catalog_cart dbm); [done|done|done].
Qed.
End cart_display_facts.

Lemma show_cart_internal_spec_witness :
  ∃ d',
    show_cart_internal (λ p, p) 500 scenario_dangling
    = (d', Some ([Cart.mk 2 1 2 1], 8))
    ∧ cart (shop d') = [Cart.mk 2 1 2 1; Cart.mk 3 2 1 1].
Proof.
  destruct (show_cart_internal_spec (λ p, p) scenario_dangling 500
              (User.mk 1 500 None None None false))
    as (d' & valid & total & Hcall & Hcart & _).
  - repeat constructor; lia.
  - reflexivity.
  - exists d'. split; [|exact Hcart].
    assert (show_cart_internal (λ p, p) 500 scenario_dangling
            = ((show_cart_internal (λ p, p) 500 scenario_dangling).1,
               Some ([Cart.mk 2 1 2 1], 8))) as Hrun by reflexivity.
    rewrite Hcall in Hrun. simpl in Hrun. by rewrite Hcall, Hrun.
Defined.

(** ** Units of stock are conserved *)

Lemma sum_quantity_split {Row} (row_quantity : Row → Z) (P Q : Row → Prop)
    `{!∀ r, Decision (P r)} `{!∀ r, Decision (Q r)} (l : list Row) :
  sum_quantity row_quantity (filter Q l)
  = sum_quantity row_quantity (filter (λ r, Q r ∧ P r) l)
    + sum_quantity row_quantity (filter (λ r, Q r ∧ ¬ P r) l).
Proof.
  induction l as [|r l IH]; [done|]. rewrite !filter_cons.
  destruct (decide (Q r)) as [HQ|HQ].
  - destruct (decide (P r)) as [HP|HP].
    + rewrite decide_True, decide_False by tauto. simpl. lia.
    + rewrite decide_False, decide_True by tauto. simpl. lia.
  - rewrite !decide_False by tauto. done.
Qed.

Lemma sum_quantity_first (rows : list OrderItem.t) :
  (length rows ≤ 1)%nat →
  sum_quantity OrderItem.quantity rows = first_quantity rows.
Proof.
  destruct rows as [|r [|r' rows]]; simpl; intros Hlen; lia.
Qed.

(** [add_line] on a line that has no duplicate adds the quantity to the
    units of the product. *)
Lemma add_line_sold o p q price (t : list OrderItem.t) pid :
  NoDup (OrderItem.id <$> t) →
  (length (filter (λ i, OrderItem.order_id i = o
                        ∧ (OrderItem.product_id i, OrderItem.price_at_order i)
                          = (p, price)) t) ≤ 1)%nat →
  sum_quantity OrderItem.quantity
    (filter (λ i, OrderItem.product_id i = pid) (add_line o p q price t))
  = sum_quantity OrderItem.quantity
      (filter (λ i, OrderItem.product_id i = pid) t)
    + (if decide (p = pid) then q else 0).
Proof.
  intros Hnd Hlen.
  destruct (add_line_spec o p q price t Hnd) as ((row & Hrow & Hq) & Hoth & _).
  set (P := λ i, OrderItem.order_id i = o
                 ∧ (OrderItem.product_id i, OrderItem.price_at_order i)
                   = (p, price)) in *.
  set (t' := add_line o p q price t) in *.
  rewrite (sum_quantity_split _ P _ t'), (sum_quantity_split _ P _ t).
  rewrite (Hoth (λ i, OrderItem.product_id i = pid ∧ ¬ P i) _)
    by (intros i [_ Hi]; exact Hi).
  destruct (decide (p = pid)) as [->|Hne].
  - assert (∀ l : list OrderItem.t,
              filter (λ i, OrderItem.product_id i = pid ∧ P i) l = filter P l)
      as Hfil.
    { intros l. apply list_filter_iff. intros i. unfold P. split; [tauto|].
      intros [Ho Hk]. split; [by injection Hk|done]. }
    rewrite !Hfil, Hrow, (sum_quantity_first (filter P t)) by done.
    simpl. lia.
  - assert (∀ l : list OrderItem.t,
              filter (λ i, OrderItem.product_id i = pid ∧ P i) l = []) as Hfil.
    { intros l. apply filter_none. intros i _ [Hi [_ [= ? _]]]. congruence. }
    rewrite !Hfil. lia.
Qed.

Lemma reserved_cons c taken pid :
  reserved (c :: taken) pid
  = (if decide (Cart.product_id c = pid) then Cart.quantity c else 0)
    + reserved taken pid.
Proof.
  unfold reserved. rewrite filter_cons. by destruct (decide _).
Qed.

(** The loop that amends an order whose lines have no duplicate: the units
    of a product in the line items grow by what the accepted entries
    hold of it, and the lines of the order stay without duplicate. *)
Lemma amend_items_sold eo (ps0 : gmap Z Product.t) cart_items :
  ∀ taken db total_price_add,
  (∀ pid, products db !! pid = take_stock taken pid <$> ps0 !! pid) →
  NoDup (OrderItem.id <$> order_items db) →
  (∀ p price, (length (line_items db (Order.id eo) p price) ≤ 1)%nat) →
  let db' := (foldl (amend_item eo) (db, total_price_add) cart_items).1 in
  ∀ pid,
    sold db' pid
    = sold db pid + reserved (accepted_from ps0 taken cart_items) pid.
Proof.
  induction cart_items as [|c rest IH];
    intros taken db total_price_add Hinv Hnd Hlen.
  { intros db' pid. subst db'. simpl. unfold reserved, sum_quantity. simpl.
    lia. }
  intros db' pid. unfold db'.
  rewrite (accepted_from_step ps0 (products db) taken) by done.
  simpl. unfold get_product_by_id.
  destruct (products db !! Cart.product_id c) as [pr|] eqn:Hp;
    [destruct (in_stock pr c) eqn:Hin|]; [|by apply IH..].
  set (t1 := add_line _ _ _ _ _).
  set (db1 := update_stock (with_order_items t1 db) _ _).
  destruct (add_line_spec (Order.id eo) (Cart.product_id c)
              (Cart.quantity c) (Product.price pr) (order_items db) Hnd)
    as ((row1 & Hrow1 & Hq1) & Hother & Hnd1).
  fold t1 in Hrow1, Hother, Hnd1.
  assert (order_items db1 = t1) as Hitems1
    by (unfold db1; by rewrite update_stock_order_items).
  rewrite (IH (taken ++ [c]) db1
             (total_price_add + Product.price pr * Cart.quantity c)).
  - rewrite reserved_cons. unfold sold at 1. rewrite Hitems1. unfold t1.
    rewrite add_line_sold by (done || apply Hlen). unfold sold. lia.
  - by apply (update_stock_take ps0 taken (with_order_items t1 db) c pr).
  - by rewrite Hitems1.
  - intros p price. unfold line_items. rewrite Hitems1.
    destruct (decide ((Cart.product_id c, Product.price pr) = (p, price)))
      as [[= <- <-]|Hne].
    + by rewrite Hrow1.
    + rewrite (Hother _ _); [apply Hlen|].
      intros i [_ Hi] [_ Hi']. congruence.
Qed.

Lemma accepted_from_sublist ps cart_items : ∀ taken,
  accepted_from ps taken cart_items `sublist_of` cart_items.
Proof.
  induction cart_items as [|c rest IH]; intros taken; [done|]. simpl.
  destruct (ps !! Cart.product_id c) as [p|]; [|by apply sublist_cons].
  destruct (_ && _); [by apply sublist_skip|by apply sublist_cons].
Qed.

(** The rows [add_order_items] appends for the accepted entries. *)
Lemma added_rows_sold o ps (rows : list OrderItem.t) : ∀ A : list Cart.t,
  (λ i, (OrderItem.order_id i, OrderItem.product_id i, OrderItem.quantity i,
         OrderItem.price_at_order i)) <$> rows
  = (λ c, (o, Cart.product_id c, Cart.quantity c,
           unit_price ps (Cart.product_id c))) <$> A →
  (∀ pid,
     sum_quantity OrderItem.quantity
       (filter (λ i, OrderItem.product_id i = pid) rows)
     = reserved A pid)
  ∧ OrderItem.product_id <$> rows = Cart.product_id <$> A
  ∧ ∀ i, i ∈ rows → OrderItem.order_id i = o.
Proof.
  induction rows as [|i rows IH]; intros [|c A] Heq; try done.
  { split_and!; [done|done|]. by intros i ?%elem_of_nil. }
  rewrite !fmap_cons in Heq. injection Heq as Ho Hp Hq Hprice Heq.
  destruct (IH A Heq) as (IH1 & IH2 & IH3). split_and!.
  - intros pid. rewrite reserved_cons, filter_cons, <- Hp, <- Hq.
    destruct (decide (OrderItem.product_id i = pid)); simpl; rewrite IH1; lia.
  - by rewrite !fmap_cons, Hp, IH2.
  - intros i' [->|Hi']%elem_of_cons; [done|]. by apply IH3.
Qed.

Lemma create_order_items db u cart_items contact method fee now :
  let A := accepted (products db) cart_items in
  match most_recent (processing_orders db u) with
  | Some eo =>
      order_items (create_order db u cart_items contact method fee now).1
      = order_items (foldl (amend_item eo) (db, 0) cart_items).1
  | None =>
      ∃ rows,
        order_items (create_order db u cart_items contact method fee now).1
        = order_items db ++ rows
        ∧ (λ i, (OrderItem.order_id i, OrderItem.product_id i,
                 OrderItem.quantity i, OrderItem.price_at_order i)) <$> rows
          = (λ c, (next_id (Order.id <$> orders db), Cart.product_id c,
                   Cart.quantity c,
                   unit_price (products db) (Cart.product_id c))) <$> A
  end.
Proof.
  intros A. unfold create_order.
  destruct (most_recent (processing_orders db u)) as [eo|].
  - by destruct (foldl (amend_item eo) (db, 0) cart_items) as [db' x].
  - destruct (collect_items_spec (products db) cart_items [] db 0 []
                (take_stock_nil (products db)))
      as (db' & -> & _ & _ & Hos & His).
    simpl. rewrite His, Hos.
    destruct (add_order_items_app (next_id (Order.id <$> orders db))
                ((λ c, mk_item_data (Cart.product_id c) (Cart.quantity c)
                         (unit_price (products db) (Cart.product_id c)))
                   <$> accepted_from (products db) [] cart_items)
                (order_items db)) as (rows & -> & Hrows).
    exists rows. split; [done|]. rewrite Hrows.
    rewrite <- list_fmap_compose. done.
Qed.

(** A checkout moves the units it accepts from the stock to the line
    items. *)
Lemma create_order_sold db u cart_items contact method fee now pid :
  NoDup (OrderItem.id <$> order_items db) → lines_unique db →
  sold (create_order db u cart_items contact method fee now).1 pid
  = sold db pid + reserved (accepted (products db) cart_items) pid.
Proof.
  intros Hnd Hlines.
  pose proof (create_order_items db u cart_items contact method fee now)
    as Hitems. cbv zeta in Hitems.
  destruct (most_recent (processing_orders db u)) as [eo|].
  - unfold sold at 1. rewrite Hitems.
    apply (amend_items_sold eo (products db) cart_items [] db 0
             (take_stock_nil (products db)) Hnd).
    intros p price. apply Hlines.
  - destruct Hitems as (rows & Hitems & Hrows).
    unfold sold. rewrite Hitems, filter_app, sum_quantity_app.
    by rewrite (proj1 (added_rows_sold _ _ rows _ Hrows)).
Qed.

Lemma books_frame db db' :
  order_items db' = order_items db →
  Order.id <$> orders db' = Order.id <$> orders db →
  lines_unique db ∧ lines_refer db → lines_unique db' ∧ lines_refer db'.
Proof.
  intros Hits Hos [Hu Hr]. split.
  - intros o p price. unfold line_items. rewrite Hits. apply Hu.
  - intros i. rewrite Hits, Hos. apply Hr.
Qed.

(** A checkout of a cart with one entry per product keeps the lines
    without duplicate and with their order. *)
Lemma create_order_books db u cart_items contact method fee now :
  books_ok db → NoDup (Cart.product_id <$> cart_items) →
  let db' := (create_order db u cart_items contact method fee now).1 in
  lines_unique db' ∧ lines_refer db'.
Proof.
  intros ((_ & Hko & Hki) & Hu & Hr) Hpids db'.
  pose proof (keyed_NoDup _ Hki) as Hnd.
  pose proof (create_order_items db u cart_items contact method fee now)
    as Hitems. cbv zeta in Hitems.
  pose proof (create_order_total db u cart_items contact method fee now)
    as Hos. cbv zeta in Hos. fold db' in Hitems, Hos.
  destruct (most_recent (processing_orders db u)) as [eo|] eqn:Hmr.
  - apply most_recent_elem in Hmr. unfold processing_orders in Hmr.
    apply list_elem_of_filter in Hmr as [_ Heo].
    destruct (amend_items_lines eo (products db) cart_items [] db 0
                (take_stock_nil (products db)) Hnd)
      as (_ & Hother & Hlines).
    rewrite <- Hitems in Hother.
    assert (Order.id <$> orders db' = Order.id <$> orders db) as Hids.
    { rewrite Hos.
      by apply (update_col Order.id _ (Order.set_total_price _)). }
    split.
    + intros o p price. destruct (decide (o = Order.id eo)) as [->|Hne].
      * specialize (Hlines p price). unfold line_items in *.
        rewrite <- Hitems in Hlines.
        destruct (filter _ (accepted_from _ _ _)).
        -- rewrite Hlines. apply Hu.
        -- destruct Hlines as (row & -> & _). done.
      * unfold line_items.
        rewrite (filter_through _ (λ i, OrderItem.order_id i ≠ Order.id eo)
                   (order_items db') (order_items db)); [apply Hu| |done].
        intros i [Hi _]. congruence.
    + intros i Hi. rewrite Hids.
      destruct (decide (OrderItem.order_id i = Order.id eo)) as [->|Hne].
      * by apply list_elem_of_fmap_2.
      * apply Hr.
        assert (i ∈ filter (λ i, OrderItem.order_id i ≠ Order.id eo)
                      (order_items db')) as Hin
          by by apply list_elem_of_filter.
        rewrite Hother in Hin. by apply list_elem_of_filter in Hin as [_ ?].
  - destruct Hitems as (rows & Hitems & Hrows).
    destruct (added_rows_sold _ _ rows _ Hrows) as (_ & Hprods & Hnew).
    set (new_id := next_id (Order.id <$> orders db)) in *.
    assert (∀ i, i ∈ order_items db → OrderItem.order_id i ≠ new_id) as Hold.
    { intros i Hi Heq. apply (next_id_fresh (Order.id <$> orders db)).
      fold new_id. rewrite <- Heq. by apply Hr. }
    assert (NoDup (OrderItem.product_id <$> rows)) as Hrows_nd.
    { rewrite Hprods. eapply sublist_NoDup; [exact Hpids|].
      apply fmap_sublist, accepted_from_sublist. }
    split.
    + intros o p price. unfold line_items. rewrite Hitems, filter_app.
      rewrite length_app. destruct (decide (o = new_id)) as [->|Hne].
      * rewrite (filter_none _ (order_items db)).
        2:{ intros i Hi [Ho _]. by apply (Hold i). }
        simpl.
        etrans; [apply (filter_length_le _
                          (λ i, OrderItem.product_id i = p)); 
                 by intros i [_ [= ? _]]|].
        destruct (select_unique OrderItem.product_id rows p Hrows_nd)
          as [[-> _]|(r & -> & _)]; simpl; lia.
      * rewrite (filter_none _ rows).
        2:{ intros i Hi [Ho _]. apply Hne. rewrite <- Ho. by apply Hnew. }
        simpl. rewrite Nat.add_0_r. apply Hu.
    + intros i. rewrite Hitems, Hos, fmap_app. simpl.
      intros [Hi|Hi]%elem_of_app; apply elem_of_app.
      * left. by apply Hr.
      * right. rewrite (Hnew i Hi). left.
Qed.

Lemma weighted_indicator {Row} (row_quantity : Row → Z) (Q : Row → Prop)
    `{!∀ r, Decision (Q r)} (rows : list Row) :
  weighted row_quantity (λ r, if decide (Q r) then 1 else 0) rows
  = sum_quantity row_quantity (filter Q rows).
Proof.
  induction rows as [|r rows IH]; [done|]. rewrite filter_cons.
  unfold weighted, sum_quantity in *. simpl. rewrite IH.
  destruct (decide (Q r)); simpl; lia.
Qed.

Lemma merge_duplicate_order_items_sold db o pid :
  NoDup (OrderItem.id <$> order_items db) →
  sold (merge_duplicate_order_items db o) pid = sold db pid.
Proof.
  intros Hnd. unfold sold, merge_duplicate_order_items. simpl.
  set (sel := λ i, OrderItem.order_id i = o).
  set (key := λ i, (OrderItem.product_id i, OrderItem.price_at_order i)).
  set (t' := merge_groups _ _ _ _ _).
  destruct (merge_items_spec OrderItem.id OrderItem.quantity
              OrderItem.set_quantity (λ _ _, eq_refl) order_item_set_same
              key sel (λ _ _, eq_refl) (λ _ _, reflexivity _)
              (order_items db) Hnd) as (_ & Hother & _).
  fold t' in Hother.
  rewrite (sum_quantity_split _ sel _ t'),
    (sum_quantity_split _ sel _ (order_items db)).
  f_equal.
  - assert (∀ l : list OrderItem.t,
              filter (λ i, OrderItem.product_id i = pid ∧ sel i) l
              = filter (λ i, OrderItem.product_id i = pid) (filter sel l))
      as Hfil by (intros l; by rewrite list_filter_filter).
    rewrite !Hfil.
    rewrite <- !weighted_indicator.
    apply (weighted_merge_items OrderItem.id OrderItem.quantity
             OrderItem.set_quantity key sel
             (λ i, if decide (OrderItem.product_id i = pid) then 1 else 0)
             (λ _ _, eq_refl) order_item_set_same (λ _ _, eq_refl)
             (λ _ _, reflexivity _) (λ _ _, eq_refl) (λ _ _, eq_refl));
      [|done].
    intros r r' [= -> _]. done.
  - f_equal. apply (filter_through _ (λ i, ¬ sel i)); [tauto|done].
Qed.

Lemma merge_duplicate_order_items_books db o :
  NoDup (OrderItem.id <$> order_items db) →
  lines_unique db ∧ lines_refer db →
  lines_unique (merge_duplicate_order_items db o)
  ∧ lines_refer (merge_duplicate_order_items db o).
Proof.
  intros Hnd [Hu Hr]. unfold merge_duplicate_order_items.
  set (sel := λ i, OrderItem.order_id i = o).
  set (key := λ i, (OrderItem.product_id i, OrderItem.price_at_order i)).
  set (t' := merge_groups _ _ _ _ _).
  destruct (merge_items_spec OrderItem.id OrderItem.quantity
              OrderItem.set_quantity (λ _ _, eq_refl) order_item_set_same
              key sel (λ _ _, eq_refl) (λ _ _, reflexivity _)
              (order_items db) Hnd) as (Hkeys & Hother & _).
  fold t' in Hkeys, Hother.
  assert (∀ x p price,
            line_items (with_order_items t' db) x p price
            = filter (λ i, OrderItem.order_id i = x ∧ key i = (p, price)) t')
    as Hline by done.
  split.
  - intros x p price. rewrite Hline.
    destruct (decide (x = o)) as [->|Hne].
    + change (filter _ t') with (filter (λ i, sel i ∧ key i = (p, price)) t').
      rewrite Hkeys. case_match; simpl; lia.
    + rewrite (filter_through _ (λ i, ¬ sel i) t' (order_items db));
        [apply Hu| |done].
      intros i [Hi _] Hsel. unfold sel in Hsel. congruence.
  - intros i Hi. simpl in *.
    destruct (decide (sel i)) as [Hsel|Hsel].
    + assert (i ∈ filter (λ r, sel r ∧ key r = key i) t') as Hin
        by by apply list_elem_of_filter.
      rewrite Hkeys in Hin.
      destruct (filter (λ r, sel r ∧ key r = key i) (order_items db))
        as [|f rest] eqn:Hfil; [by inversion Hin|].
      assert (f ∈ filter (λ r, sel r ∧ key r = key i) (order_items db))
        as Hf by (rewrite Hfil; left).
      apply list_elem_of_filter in Hf as [[Hfo _] Hf].
      unfold sel in Hsel, Hfo. rewrite Hsel, <- Hfo. by apply Hr.
    + apply Hr.
      assert (i ∈ filter (λ r, ¬ sel r) t') as Hin
        by by apply list_elem_of_filter.
      rewrite Hother in Hin. by apply list_elem_of_filter in Hin as [_ ?].
Qed.

Lemma add_to_cart_order_items db u p q db' row :
  add_to_cart db u p q = Some (db', row) → order_items db' = order_items db.
Proof.
  unfold add_to_cart. intros Hadd.
  assert (order_items (merge_duplicate_cart_items db u) = order_items db)
    as Hm.
  { unfold merge_duplicate_cart_items. by case_decide. }
  destruct (scalar_one_or_none _) as [[item|]|]; simplify_eq/=; done.
Qed.

Lemma merge_duplicate_cart_items_order_items db u :
  order_items (merge_duplicate_cart_items db u) = order_items db.
Proof. unfold merge_duplicate_cart_items. by case_decide. Qed.

Lemma merge_duplicate_cart_items_products db u :
  products (merge_duplicate_cart_items db u) = products db.
Proof. unfold merge_duplicate_cart_items. by case_decide. Qed.

(** The cart a checkout reads has one entry per product. *)
Lemma get_user_cart_products db u :
  NoDup (Cart.id <$> cart db) →
  NoDup (Cart.product_id <$> (get_user_cart db u).2).
Proof.
  intros Hnd. unfold get_user_cart. simpl. apply NoDup_unique_key.
  intros p. rewrite <- filter_and_filter.
  apply (merge_duplicate_cart_items_unique db u p Hnd).
Qed.

Lemma handle_books db r :
  keeps_orders r = true → books_ok db → books_ok (handle db r).
Proof.
  intros Hr (Hwk & Hbooks).
  split; [by apply handle_well_keyed|].
  pose proof Hwk as (Hkc & Hko & Hki).
  pose proof (keyed_NoDup _ Hkc) as Hndc.
  pose proof (keyed_NoDup _ Hki) as Hndi.
  destruct r; simpl in *; try done;
    try (by apply (books_frame db)).
  - destruct (add_to_cart db _ _ _) as [[db' row]|] eqn:Hadd.
    + apply (books_frame db); [|f_equal|done].
      * by eapply add_to_cart_order_items.
      * by eapply add_to_cart_orders.
    + apply (books_frame db); [|f_equal|done].
      * apply merge_duplicate_cart_items_order_items.
      * apply merge_duplicate_cart_items_orders.
  - apply (books_frame db); [|f_equal|done].
    + apply merge_duplicate_cart_items_order_items.
    + apply merge_duplicate_cart_items_orders.
  - apply (books_frame db); [| |done];
      unfold update_cart_item_quantity; by case_decide.
  - pose proof (get_user_cart_products db user_id Hndc) as Hpids.
    unfold get_user_cart in *. simpl in Hpids.
    set (dbm := merge_duplicate_cart_items db user_id) in *.
    assert (books_ok dbm) as Hm.
    { split; [by apply (handle_well_keyed db (GetUserCart user_id))|].
      apply (books_frame db); [|f_equal|done].
      - apply merge_duplicate_cart_items_order_items.
      - apply merge_duplicate_cart_items_orders. }
    destruct (filter _ (cart dbm)) as [|c cs] eqn:Hcart; [apply Hm|].
    by apply create_order_books.
  - apply (books_frame db); [done| |done]. simpl.
    by apply (update_col Order.id _ (Order.set_status _)).
  - by apply merge_duplicate_order_items_books.
  - apply (books_frame db); [|f_equal|done].
    + apply update_stock_order_items.
    + apply update_stock_orders.
Qed.

Lemma units_frame db db' pid :
  products db' = products db → order_items db' = order_items db →
  units db' pid = units db pid.
Proof. intros Hp Hi. unfold units, sold. by rewrite Hp, Hi. Qed.

Lemma handle_units db r pid :
  conserving r = true → books_ok db → units (handle db r) pid = units db pid.
Proof.
  intros Hr (Hwk & Hu & Href).
  pose proof Hwk as (Hkc & Hko & Hki).
  pose proof (keyed_NoDup _ Hkc) as Hndc.
  pose proof (keyed_NoDup _ Hki) as Hndi.
  destruct r; simpl in *; try done; try (by apply units_frame).
  - destruct (add_to_cart db _ _ _) as [[db' row]|] eqn:Hadd.
    + apply units_frame.
      * by eapply add_to_cart_products.
      * by eapply add_to_cart_order_items.
    + apply units_frame.
      * apply merge_duplicate_cart_items_products.
      * apply merge_duplicate_cart_items_order_items.
  - apply units_frame.
    + apply merge_duplicate_cart_items_products.
    + apply merge_duplicate_cart_items_order_items.
  - apply units_frame; unfold update_cart_item_quantity; by case_decide.
  - unfold get_user_cart.
    set (dbm := merge_duplicate_cart_items db user_id) in *.
    assert (units dbm pid = units db pid) as Hm.
    { apply units_frame.
      - apply merge_duplicate_cart_items_products.
      - apply merge_duplicate_cart_items_order_items. }
    destruct (filter _ (cart dbm)) as [|c cs] eqn:Hcart; [apply Hm|].
    rewrite <- Hm. unfold units.
    rewrite create_order_products, create_order_sold.
    + destruct (products dbm !! pid) as [p|]; [|done]. simpl. f_equal. lia.
    + unfold dbm. by rewrite merge_duplicate_cart_items_order_items.
    + intros o p price. unfold line_items, dbm.
      rewrite merge_duplicate_cart_items_order_items. apply Hu.
  - unfold units. rewrite merge_duplicate_order_items_sold by done. done.
Qed.

Lemma run_books rs : ∀ db,
  forallb keeps_orders rs = true → books_ok db → books_ok (run db rs).
Proof.
  induction rs as [|r rs IH]; intros db Hrs Hinv; [done|].
  simpl in Hrs. apply andb_prop in Hrs as [Hr Hrs]. unfold run in *. simpl.
  by apply IH, handle_books.
Qed.

Lemma empty_db_books : books_ok empty_db.
Proof.
  split; [apply empty_db_well_keyed|]. split.
  - intros o p price. simpl. lia.
  - intros i Hi. by apply elem_of_nil in Hi.
Qed.

Lemma conserving_keeps_orders rs :
  forallb conserving rs = true → forallb keeps_orders rs = true.
Proof.
  induction rs as [|r rs IH]; [done|]. simpl.
  intros [[Hr _]%andb_prop Hrs]%andb_prop. by rewrite Hr, IH.
Qed.

(** X20.  Without deletions the books of the orders stay in order.  From
    the empty database, whatever requests other than [DeleteOrder] are
    served one after the other: no order has a product at one price in
    two line items, every line item belongs to an order of the table,
    and the primary keys are in ascending order. *)
Theorem run_books_ok rs :
  forallb keeps_orders rs = true → books_ok (run empty_db rs).
Proof. intros Hrs. by apply run_books, empty_db_books. Qed.

Lemma run_books_ok_witness :
  lines_unique
    (run empty_db
       [CreateProduct 10 5; AddToCart 1 1 2;
        CreateOrder 1 None "pickup" 0 100; AddToCart 1 1 1;
        CreateOrder 1 None "pickup" 0 200]).
Proof.
  apply (run_books_ok
           [CreateProduct 10 5; AddToCart 1 1 2;
            CreateOrder 1 None "pickup" 0 100; AddToCart 1 1 1;
            CreateOrder 1 None "pickup" 0 200]).
  reflexivity.
Defined.

(** X21.  Units of stock are conserved.  On a database whose books are in
    order, a run of requests of the shop, none of which deletes an order
    or changes the catalog, leaves for every product the sum of its stock
    and of its units in line items as it was: what a checkout takes from
    the stock is in the line items, in a new order as in an amended one,
    and merging lines loses nothing.  The same holds after any run from
    the empty database in which no order was deleted. *)
Theorem run_units_conserved rs pid :
  forallb conserving rs = true →
  (∀ db, books_ok db → units (run db rs) pid = units db pid)
  ∧ (∀ rs0, forallb keeps_orders rs0 = true →
       units (run empty_db (rs0 ++ rs)) pid = units (run empty_db rs0) pid).
Proof.
  intros Hrs.
  assert (∀ db, books_ok db → units (run db rs) pid = units db pid) as Hrun.
  { induction rs as [|r rs IH]; intros db Hinv; [done|].
    simpl in Hrs. apply andb_prop in Hrs as [Hr Hrs]. unfold run in *.
    simpl. rewrite IH; [by apply handle_units|done|].
    apply handle_books; [|done]. by apply andb_prop in Hr as [? _]. }
  split; [done|]. intros rs0 Hrs0. unfold run. rewrite foldl_app.
  apply Hrun. by apply run_books, empty_db_books.
Qed.

Lemma run_units_conserved_witness :
  units
    (run empty_db
       ([CreateProduct 10 5]
        ++ [AddToCart 1 1 2; CreateOrder 1 None "pickup" 0 100;
            AddToCart 1 1 1; CreateOrder 1 None "pickup" 0 200])) 1
  = units (run empty_db [CreateProduct 10 5]) 1.
Proof.
  apply (run_units_conserved
           [AddToCart 1 1 2; CreateOrder 1 None "pickup" 0 100;
            AddToCart 1 1 1; CreateOrder 1 None "pickup" 0 200] 1);
    reflexivity.
Defined.

(** ** Callback data: what [str] writes, [split] and [int] read back *)

Lemma digit_pretty_N_char x :
  (x < 10)%N → digit (pretty_N_char x) = Some (Z.of_N x).
Proof.
  intros Hx.
  assert (x = 0 ∨ x = 1 ∨ x = 2 ∨ x = 3 ∨ x = 4 ∨ x = 5 ∨ x = 6 ∨ x = 7
          ∨ x = 8 ∨ x = 9)%N as Hcases by lia.
  repeat destruct Hcases as [->|Hcases]; try reflexivity.
  by subst.
Qed.

Lemma pretty_N_char_sep x : Ascii.eqb (pretty_N_char x) "_"%char = false.
Proof. unfold pretty_N_char. by repeat case_match. Qed.

(** Reading the digits that [pretty_N_go] has put before [s]. *)
Lemma digits_pretty_N_go x s :
  ∃ k : nat, ∀ acc,
    digits (pretty_N_go x s) acc = digits s (acc * 10 ^ Z.of_nat k + Z.of_N x).
Proof.
  revert s. induction (N.lt_wf_0 x) as [x _ IH]. intros s.
  assert (x = 0 ∨ 0 < x)%N as [->|Hx] by lia.
  { exists 0%nat. intros acc. rewrite pretty_N_go_0. f_equal. simpl. lia. }
  rewrite pretty_N_go_step by done.
  destruct (IH (x `div` 10)%N (N.div_lt x 10 Hx eq_refl)
              (String (pretty_N_char (x `mod` 10)) s)) as [k Hk].
  exists (S k). intros acc. rewrite Hk. cbn [digits].
  rewrite digit_pretty_N_char by (apply N.mod_lt; lia).
  f_equal. rewrite Nat2Z.inj_succ, Z.pow_succ_r by lia.
  pose proof (N.div_mod x 10) as Hdiv.
  assert (Z.of_N x = 10 * Z.of_N (x `div` 10) + Z.of_N (x `mod` 10)) by lia.
  lia.
Qed.

Lemma split_pretty_N_go x s piece pieces :
  split "_"%char s = piece :: pieces →
  split "_"%char (pretty_N_go x s) = pretty_N_go x piece :: pieces.
Proof.
  revert s piece. induction (N.lt_wf_0 x) as [x _ IH]. intros s piece Hs.
  assert (x = 0 ∨ 0 < x)%N as [->|Hx] by lia.
  { by rewrite !pretty_N_go_0. }
  rewrite (pretty_N_go_step x s), (pretty_N_go_step x piece) by done.
  apply (IH _ (N.div_lt x 10 Hx eq_refl)).
  cbn [split]. by rewrite pretty_N_char_sep, Hs.
Qed.

(** A number written by [str] is one piece for [split]. *)
Lemma str_pos p : str (Z.pos p) = pretty_N_go (N.pos p) "".
Proof. reflexivity. Qed.

Lemma str_neg p : str (Z.neg p) = String "-" (pretty_N_go (N.pos p) "").
Proof. reflexivity. Qed.

Lemma split_str n : split "_"%char (str n) = [str n].
Proof.
  destruct n as [|p|p]; [done|..].
  - rewrite str_pos. by apply split_pretty_N_go.
  - rewrite str_neg. cbn [split]. simpl (Ascii.eqb _ _).
    by rewrite (split_pretty_N_go _ "" "" []).
Qed.

Lemma digits_nonempty text n :
  digits text 0 = Some n → n ≠ 0 → text ≠ EmptyString.
Proof. intros Hd Hn ->. simpl in Hd. congruence. Qed.

(** [int] reads back the number that [str] has written. *)
Lemma digits_str_pos p : digits (str (Z.pos p)) 0 = Some (Z.pos p).
Proof.
  rewrite str_pos.
  destruct (digits_pretty_N_go (N.pos p) "") as [k ->].
  cbn [digits]. f_equal; lia.
Qed.

Lemma int_str n : int (str n) = Some n.
Proof.
  destruct n as [|p|p]; [done|..].
  - pose proof (digits_str_pos p) as Hd.
    destruct (str (Z.pos p)) as [|c rest]; [simpl in Hd; congruence|].
    unfold int.
    destruct (Ascii.eqb c "-"%char) eqn:Hc1.
    { apply Ascii.eqb_eq in Hc1 as ->. simpl in Hd. congruence. }
    destruct (Ascii.eqb c "+"%char) eqn:Hc2.
    { apply Ascii.eqb_eq in Hc2 as ->. simpl in Hd. congruence. }
    done.
  - rewrite str_neg, <-str_pos.
    pose proof (digits_str_pos p) as Hd.
    destruct (str (Z.pos p)) as [|c rest]; [simpl in Hd; congruence|].
    unfold int. simpl (Ascii.eqb _ _). cbv iota. by rewrite Hd.
Qed.

(** What [int] accepts does not begin with a letter. *)
Lemma int_prefix_status text n :
  int text = Some n → String.prefix "status" text = false.
Proof.
  destruct text as [|c rest]; [done|].
  cbn [String.prefix]. destruct (Ascii.ascii_dec "s"%char c) as [<-|]; done.
Qed.

Lemma split_nonempty sep data : split sep data ≠ [].
Proof.
  destruct data as [|c data]; [done|]. simpl.
  destruct (Ascii.eqb c sep); [done|]. by destruct (split sep data).
Qed.

(** A string that is one piece goes to the front of the first piece of
    what follows it. *)
Lemma split_app sep text data piece pieces :
  split sep text = [text] →
  split sep data = piece :: pieces →
  split sep (text +:+ data) = (text +:+ piece) :: pieces.
Proof.
  intros Htext Hdata. induction text as [|c text IH]; [done|].
  simpl in *. destruct (Ascii.eqb c sep); [done|].
  destruct (split sep text) as [|q qs] eqn:Hq; [by simplify_eq|].
  simplify_eq. by rewrite IH.
Qed.

(** Every piece that [split] gives is one piece. *)
Lemma split_piece sep data piece :
  piece ∈ split sep data → split sep piece = [piece].
Proof.
  revert piece. induction data as [|c data IH]; intros piece.
  { simpl. intros ->%list_elem_of_singleton. done. }
  simpl. destruct (Ascii.eqb c sep) eqn:Hc.
  { intros [->|Hin]%elem_of_cons; [done|by apply IH]. }
  destruct (split sep data) as [|q qs] eqn:Hq.
  { intros ->%list_elem_of_singleton. simpl. by rewrite Hc. }
  intros [->|Hin]%elem_of_cons.
  - simpl. rewrite Hc, (IH q); [done|left].
  - apply IH. by right.
Qed.

Lemma prefix_empty text : String.prefix "" text = true.
Proof. by destruct text. Qed.

Lemma append_empty_r text : text +:+ "" = text.
Proof.
  induction text as [|c text IH]; [done|].
  cbv beta iota delta [String.append]. fold String.append. by rewrite IH.
Qed.

Lemma split_str_app n data piece pieces :
  split "_" data = piece :: pieces →
  split "_" (str n +:+ data) = (str n +:+ piece) :: pieces.
Proof. apply split_app, split_str. Qed.

Lemma cons_eq {A} (x y : A) (l k : list A) : x = y → l = k → x :: l = y :: k.
Proof. by intros -> ->. Qed.

Lemma fmap_buttons {A B C D} (button : A → B) (press : B → D)
    (call : A → C) (route : C → D) (rows : list A) :
  (∀ row, press (button row) = route (call row)) →
  press <$> (button <$> rows) = route <$> (call <$> rows).
Proof.
  intros Hrow. rewrite <-!list_fmap_compose. apply list_fmap_ext.
  intros _ row _. apply Hrow.
Qed.

(** Pressing one button: the number [n] it was built from is replaced by a
    string of which only what [split] and [int] make of it is known; the
    tests of the dispatcher and of the router are then computed. *)
Ltac press_number n :=
  let t := fresh "t" in
  let Hs := fresh "Hs" in
  let Hi := fresh "Hi" in
  let Hp := fresh "Hp" in
  let Hq := fresh "Hq" in
  let Hr := fresh "Hr" in
  pose proof (split_str n) as Hs;
  pose proof (int_str n) as Hi;
  pose proof (int_prefix_status _ _ Hi) as Hp;
  pose proof (split_str_app n "_processing" "" ["processing"] eq_refl) as Hq;
  pose proof (split_str_app n "_completed" "" ["completed"] eq_refl) as Hr;
  rewrite append_empty_r in Hq, Hr;
  revert Hs Hi Hp Hq Hr; generalize (str n); intros t Hs Hi Hp Hq Hr;
  cbv beta iota delta [String.append]; fold String.append;
  cbn; rewrite ?prefix_empty, ?Hp, ?Hs, ?Hq, ?Hr; cbn; rewrite ?Hi;
  reflexivity.

Ltac press :=
  unfold callback_query, admin_required, handle_callback,
    handle_admin_callback, set_order_status_args, startswith, with_int,
    with_piece;
  try lazymatch goal with
      | H : is_admin _ _ _ = true |- _ => rewrite H
      end;
  lazymatch goal with
  | |- context [str ?n] => press_number n
  | _ => reflexivity
  end.

Ltac press_all := repeat (apply cons_eq; [press|]); try reflexivity.

Section routing.
Variables admin_username support_username : string.
Variable username : option string.

Local Abbreviation press_button :=
  (callback_query admin_username support_username username).
Local Abbreviation user := (λ call, ByUser (Calls call)).
Local Abbreviation admin := (λ call, ByAdmin (Some (Calls call))).

Lemma press_model n :
  press_button ("model_" +:+ str n) = user (UserCall.show_model_products n).
Proof. press. Qed.

Lemma press_product n :
  press_button ("product_" +:+ str n)
  = user (UserCall.show_product_detail n).
Proof. press. Qed.

Lemma press_removecart n :
  press_button ("removecart_" +:+ str n)
  = user (UserCall.remove_from_cart n).
Proof. press. Qed.

Lemma press_order n :
  press_button ("order_" +:+ str n) = user (UserCall.show_order_detail n).
Proof. press. Qed.

(** X22.  Every button of every keyboard that [keyboards/inline.py] builds
    for a customer goes, whoever presses it, past the pattern of the
    administrator's handler to [handle_callback], which takes a branch for
    it; and the function of that branch reads from the data the [id] of
    the very row the button was built from. *)
Theorem user_keyboards_routed (as_admin has_items is_processing : bool)
    (models : list (Z * Model.t)) (products : list (Z * Product.t))
    (model_id product_id order_id : Z) (cart_items_data : list Cart.t)
    (orders : list (Order.t * option User.t) + list Order.t)
    (support : string) :
  press_button <$> get_main_menu_kb as_admin
  = user <$> [UserCall.show_catalog; UserCall.show_cart;
              UserCall.show_my_orders; UserCall.show_support]
  ∧ press_button <$> get_back_to_menu_kb
    = user <$> [UserCall.show_catalog; UserCall.show_main_menu]
  ∧ press_button <$> get_after_add_to_cart_kb
    = user <$> [UserCall.show_cart; UserCall.show_main_menu]
  ∧ press_button <$> get_models_kb models
    = user <$> ((λ model, UserCall.show_model_products model.1) <$> models)
               ++ [UserCall.show_main_menu]
  ∧ press_button <$> get_products_kb products model_id
    = user <$> ((λ product, UserCall.show_product_detail product.1)
                  <$> products)
               ++ [UserCall.show_catalog; UserCall.show_main_menu]
  ∧ press_button <$> get_product_quantity_kb product_id
    = user <$> [UserCall.show_catalog; UserCall.show_main_menu]
  ∧ press_button <$> get_cart_kb cart_items_data has_items
    = user <$> (if has_items && bool_decide (cart_items_data ≠ []) then
                  ((λ item, UserCall.remove_from_cart (Cart.id item))
                     <$> cart_items_data)
                  ++ [UserCall.checkout; UserCall.clear_cart]
                else [])
               ++ [UserCall.show_catalog; UserCall.show_main_menu]
  ∧ press_button <$> get_delivery_method_kb
    = user <$> [UserCall.select_delivery_method "pickup";
                UserCall.select_delivery_method "delivery";
                UserCall.show_cart]
  ∧ press_button <$> get_orders_kb orders
    = user <$> match orders with
               | inl orders =>
                   (λ row, UserCall.show_order_detail (Order.id row.1))
                     <$> orders
               | inr orders =>
                   (λ order, UserCall.show_order_detail (Order.id order))
                     <$> orders
               end ++ [UserCall.show_main_menu]
  ∧ press_button <$> get_order_detail_kb order_id false is_processing
    = user <$> (if is_processing then [UserCall.show_catalog] else [])
               ++ [UserCall.show_my_orders; UserCall.show_main_menu]
  ∧ press_button <$> get_support_kb support
    = user <$> [UserCall.show_main_menu].
Proof.
  split_and!; try reflexivity.
  - unfold get_models_kb. rewrite !fmap_app. f_equal.
    apply fmap_buttons. intros row.
    apply press_model.
  - unfold get_products_kb. rewrite !fmap_app. f_equal.
    apply fmap_buttons. intros row.
    apply press_product.
  - unfold get_cart_kb. rewrite !fmap_app. f_equal.
    destruct (has_items && bool_decide (cart_items_data ≠ [])); [|done].
    rewrite !fmap_app. f_equal.
    apply fmap_buttons. intros row.
    apply press_removecart.
  - unfold get_orders_kb. rewrite !fmap_app. f_equal.
    destruct orders as [orders|orders];
      apply fmap_buttons; intros row;
      apply press_order.
  - by destruct is_processing.
Qed.

(** The pieces [split] gives come back whole when they are put behind a
    prefix and split again: the delivery method that one handler reads
    and writes on the next button is the one the next handler reads. *)
Lemma press_confirm_order delivery_method :
  split "_" delivery_method = [delivery_method] →
  press_button ("confirm_order_" +:+ delivery_method)
  = user (UserCall.confirm_order delivery_method).
Proof.
  intros Hs.
  unfold callback_query, handle_callback, startswith, with_int, with_piece.
  cbv beta iota delta [String.append]; fold String.append.
  cbn. by rewrite prefix_empty, Hs.
Qed.

Lemma handle_callback_select_delivery_method data delivery_method :
  handle_callback data
  = Calls (UserCall.select_delivery_method delivery_method) →
  split "_" data !! 1%nat = Some delivery_method.
Proof.
  unfold handle_callback, with_int, with_piece.
  intros Hcall. repeat case_match; by simplify_eq.
Qed.

(** X23.  Whatever data made [handle_callback] call
    [select_delivery_method], the method that function reads from them,
    and writes on the confirmation button of the keyboard it answers
    with, is the method [confirm_order] reads when that button is
    pressed. *)
Theorem delivery_method_round_trip data delivery_method :
  handle_callback data
  = Calls (UserCall.select_delivery_method delivery_method) →
  press_button <$> get_confirm_order_kb delivery_method
  = user <$> [UserCall.confirm_order delivery_method; UserCall.checkout;
              UserCall.show_cart].
Proof.
  intros Hcall%handle_callback_select_delivery_method.
  apply list_elem_of_lookup_2, split_piece in Hcall.
  unfold get_confirm_order_kb. cbn [fmap list_fmap].
  apply cons_eq; [by apply press_confirm_order|reflexivity].
Qed.

(** X24.  The keyboard of [show_products_for_delete] leads nowhere: its
    buttons for the models do not match the pattern of the
    administrator's handler, so they go to [handle_callback], and no
    branch there takes them. *)
Theorem show_products_for_delete_dead (models : list (Z * Model.t))
    (get_products_by_model : Z → list (Z * Product.t)) :
  press_button
    <$> show_products_for_delete_keyboard models get_products_by_model
  = ((λ _, ByUser NoBranch)
       <$> filter (λ model, get_products_by_model model.1 ≠ []) models)
    ++ [ByAdmin (admin_required admin_username support_username
                   (Calls AdminCall.show_admin_products) username)].
Proof.
  unfold show_products_for_delete_keyboard. rewrite fmap_app. f_equal.
  rewrite <-list_fmap_compose. apply list_fmap_ext. intros _ row _.
  unfold compose. press.
Qed.

Section administrator.
Hypothesis Hadmin : is_admin admin_username support_username username = true.

Lemma press_admin_user n :
  press_button ("admin_user_" +:+ str n)
  = admin (AdminCall.show_admin_user_detail n).
Proof using Hadmin. press. Qed.

Lemma press_select_model n :
  press_button ("select_model_" +:+ str n)
  = admin (AdminCall.select_model_for_product n).
Proof using Hadmin. press. Qed.

Lemma press_view_model n :
  press_button ("view_model_" +:+ str n)
  = admin (AdminCall.show_model_detail n).
Proof using Hadmin. press. Qed.

Lemma press_view_flavor_detail n :
  press_button ("view_flavor_detail_" +:+ str n)
  = admin (AdminCall.show_flavor_detail n).
Proof using Hadmin. press. Qed.

(** X25.  When an administrator presses them, the buttons of the keyboards
    that [keyboards/inline.py] builds for the administration match the
    pattern, pass [@admin_required] and reach the branch of
    [handle_admin_callback] whose function reads from the data the order
    or the user the button was built from, and the new status with it;
    the buttons for the list of orders and for the main menu go to
    [handle_callback] instead. *)
Theorem admin_keyboards_routed (users : list User.t)
    (orders : list (Order.t * option User.t)) (order_id user_id : Z)
    (is_banned is_processing : bool) :
  press_button <$> get_admin_panel_kb
  = [admin AdminCall.show_admin_orders; admin AdminCall.show_admin_products;
     admin AdminCall.show_admin_users; admin AdminCall.show_admin_stats;
     admin AdminCall.admin_backup_db; user UserCall.show_main_menu]
  ∧ press_button <$> get_admin_products_kb
    = admin <$> [AdminCall.start_add_model; AdminCall.start_add_product;
                 AdminCall.show_models_list; AdminCall.show_admin_panel]
  ∧ press_button <$> get_orders_kb (inl orders)
    = user <$> ((λ row, UserCall.show_order_detail (Order.id row.1))
                  <$> orders)
               ++ [UserCall.show_main_menu]
  ∧ press_button <$> get_order_detail_kb order_id true is_processing
    = admin <$> [AdminCall.change_order_status_menu order_id;
                 AdminCall.show_admin_orders; AdminCall.show_admin_panel]
  ∧ press_button <$> get_order_status_kb order_id
    = admin <$> [AdminCall.set_order_status order_id "processing";
                 AdminCall.set_order_status order_id "completed";
                 AdminCall.delete_order_confirm order_id;
                 AdminCall.show_admin_orders]
  ∧ press_button <$> get_admin_users_kb users
    = admin <$> ((λ row, AdminCall.show_admin_user_detail (User.id row))
                   <$> take 10 users)
                ++ [AdminCall.show_admin_panel]
  ∧ press_button <$> get_admin_user_actions_kb user_id is_banned
    = admin <$> [if is_banned then AdminCall.admin_unban_user user_id
                 else AdminCall.admin_ban_user user_id;
                 AdminCall.show_admin_users].
Proof using Hadmin.
  split_and!.
  - unfold get_admin_panel_kb. cbn [fmap list_fmap]. press_all.
  - unfold get_admin_products_kb. cbn [fmap list_fmap]. press_all.
  - unfold get_orders_kb. rewrite !fmap_app. f_equal.
    apply fmap_buttons. intros row.
    apply press_order.
  - unfold get_order_detail_kb. cbn [fmap list_fmap]. press_all.
  - unfold get_order_status_kb. cbn [fmap list_fmap]. press_all.
  - unfold get_admin_users_kb. rewrite !fmap_app. f_equal.
    + apply fmap_buttons. intros row.
      apply press_admin_user.
    + cbn [fmap list_fmap]. press_all.
  - unfold get_admin_user_actions_kb. cbn [fmap list_fmap].
    destruct is_banned; press_all.
Qed.

(** X26.  When an administrator presses them, the buttons of the keyboards
    that the handlers of [handlers/admin.py] build for the models and the
    flavours reach the branch of [handle_admin_callback] whose function
    reads from the data the model or the product the button was built
    from, whether it takes the piece at a fixed place or the last one. *)
Theorem admin_handler_keyboards_routed (models : list (Z * Model.t))
    (products : list (Z * Product.t)) (model_id product_id : Z) :
  press_button <$> start_add_product_keyboard models
  = admin <$> ((λ model, AdminCall.select_model_for_product model.1)
                 <$> models)
              ++ [AdminCall.show_admin_products]
  ∧ press_button <$> show_models_list_keyboard models
    = admin <$> ((λ model, AdminCall.show_model_detail model.1) <$> models)
                ++ [AdminCall.show_admin_products]
  ∧ press_button <$> show_model_detail_keyboard model_id
    = admin <$> [AdminCall.show_model_flavors model_id;
                 AdminCall.start_edit_model_description model_id;
                 AdminCall.confirm_delete_model model_id;
                 AdminCall.show_models_list]
  ∧ press_button <$> show_model_flavors_keyboard products model_id
    = admin <$> ((λ product, AdminCall.show_flavor_detail product.1)
                   <$> products)
                ++ [AdminCall.show_model_detail model_id]
  ∧ press_button <$> show_flavor_detail_keyboard product_id model_id
    = admin <$> [AdminCall.start_edit_flavor_price product_id;
                 AdminCall.start_edit_flavor_stock product_id;
                 AdminCall.confirm_delete_flavor product_id;
                 AdminCall.show_model_flavors model_id]
  ∧ press_button <$> confirm_delete_model_keyboard model_id
    = admin <$> [AdminCall.delete_model_confirm model_id;
                 AdminCall.show_model_detail model_id]
  ∧ press_button <$> confirm_delete_flavor_keyboard product_id
    = admin <$> [AdminCall.delete_product_confirm product_id;
                 AdminCall.show_flavor_detail product_id]
  ∧ press_button <$> cmd_reset_db_keyboard
    = admin <$> [AdminCall.confirm_reset_db; AdminCall.show_admin_panel].
Proof using Hadmin.
  split_and!.
  - unfold start_add_product_keyboard. rewrite !fmap_app. f_equal.
    + apply fmap_buttons. intros row.
      apply press_select_model.
    + cbn [fmap list_fmap]. press_all.
  - unfold show_models_list_keyboard. rewrite !fmap_app. f_equal.
    + apply fmap_buttons. intros row.
      apply press_view_model.
    + cbn [fmap list_fmap]. press_all.
  - unfold show_model_detail_keyboard. cbn [fmap list_fmap]. press_all.
  - unfold show_model_flavors_keyboard. rewrite !fmap_app. f_equal.
    + apply fmap_buttons. intros row.
      apply press_view_flavor_detail.
    + cbn [fmap list_fmap]. press_all.
  - unfold show_flavor_detail_keyboard. cbn [fmap list_fmap]. press_all.
  - unfold confirm_delete_model_keyboard. cbn [fmap list_fmap]. press_all.
  - unfold confirm_delete_flavor_keyboard. cbn [fmap list_fmap]. press_all.
  - unfold cmd_reset_db_keyboard. cbn [fmap list_fmap]. press_all.
Qed.

End administrator.
End routing.

Lemma delivery_method_round_trip_witness :
  handle_callback "delivery_pickup"
  = Calls (UserCall.select_delivery_method "pickup")
  ∧ callback_query "boss" "help" None <$> get_confirm_order_kb "pickup"
    = [ByUser (Calls (UserCall.confirm_order "pickup"));
       ByUser (Calls UserCall.checkout); ByUser (Calls UserCall.show_cart)].
Proof.
  split; [reflexivity|].
  apply (delivery_method_round_trip "boss" "help" None "delivery_pickup").
  reflexivity.
Defined.

Lemma admin_keyboards_routed_witness :
  is_admin "boss" "help" (Some "help") = true
  ∧ callback_query "boss" "help" (Some "help") <$> get_order_status_kb 12
    = [ByAdmin (Some (Calls (AdminCall.set_order_status 12 "processing")));
       ByAdmin (Some (Calls (AdminCall.set_order_status 12 "completed")));
       ByAdmin (Some (Calls (AdminCall.delete_order_confirm 12)));
       ByAdmin (Some (Calls AdminCall.show_admin_orders))].
Proof.
  split; [reflexivity|].
  apply (admin_keyboards_routed "boss" "help" (Some "help") eq_refl
           [] [] 12 3 false false).
Defined.

Lemma admin_handler_keyboards_routed_witness :
  is_admin "boss" "help" (Some "boss") = true
  ∧ callback_query "boss" "help" (Some "boss")
      <$> show_flavor_detail_keyboard 40 (-2)
    = [ByAdmin (Some (Calls (AdminCall.start_edit_flavor_price 40)));
       ByAdmin (Some (Calls (AdminCall.start_edit_flavor_stock 40)));
       ByAdmin (Some (Calls (AdminCall.confirm_delete_flavor 40)));
       ByAdmin (Some (Calls (AdminCall.show_model_flavors (-2))))].
Proof.
  split; [reflexivity|].
  apply (admin_handler_keyboards_routed "boss" "help" (Some "boss") eq_refl
           [] [] (-2) 40).
Defined.
